(** * Hours-of-Service trip planner: a shallow embedding and its properties

    The development follows the Django application [trips]:
    - [trips/hos.py]        the scheduler [hos_scheduler];
    - [trips/ors_client.py] the route client [get_route];
    - [trips/views.py]      the view [plan_trip] with [calculate_rest_stops]
                            and [split_route_segments];
    - [trips/models.py]     the tables [Driver] and [DailyRod].

    Conventions of the embedding.
    - Python floats (hours, miles) are exact rationals [Q], and the
      comparisons are those of the source ([>], [<], [min]).  The rounding
      of floats, and the rounding of [timedelta] to microseconds, are not
      modelled; the inputs of the examples are exact in both.
    - A [datetime] is the number of hours elapsed since the midnight that
      opens day 0; [date] is the index of the calendar day and stands for
      the ISO string of the source.  Python adds a [timedelta] to an aware
      [datetime] on the wall clock, so no time zone appears.
    - A dictionary with a fixed set of keys is a record; the status, type
      and location fields are strings, compared as the source compares
      them.
    - A [while] loop is a recursive function on a number of iterations
      allowed (fuel) that returns [None] when they are used up; the
      functions that call the loops compute a number that is proved to be
      enough.
    - An exception that the source catches is a case of the function that
      catches it; one that leaves the function is an outcome of its own.
    - The values that come from outside (the answers of the two route
      services, the clock, the trigonometry of the great-circle distance,
      the conversion of a float to a decimal column) are parameters.
    - [print] calls have no effect on the result and are left out. *)

From Stdlib Require Import QArith Qround Qminmax ZArith List String Ascii Bool Lia Lqa.
From stdpp Require Import gmap pretty.
Import ListNotations.

Local Open Scope string_scope.
Local Open Scope list_scope.
Local Open Scope Q_scope.

(** ** Comparisons of the source as boolean tests *)

Definition Qgtb (x y : Q) : bool := negb (Qle_bool x y).
Definition Qltb (x y : Q) : bool := negb (Qle_bool y x).

(** ** Dates and times *)

Module Clock.

(** [t.date()]: the index of the calendar day of [t]. *)
Definition date (t : Q) : Z := Qfloor (t / 24).

(** [t.replace(hour=0, minute=0, second=0, microsecond=0)]. *)
Definition midnight (t : Q) : Q := inject_Z (24 * date t).

(** [timedelta(days=1)], in hours. *)
Definition one_day : Q := 24.

Definition digit (n : Z) : ascii := ascii_of_nat (48 + Z.to_nat n).

Definition two_digits (n : Z) : string :=
  String (digit (n / 10)) (String (digit (n mod 10)) EmptyString).

(** [t.strftime('%H:%M')]: hour and minute of the day, seconds dropped. *)
Definition strftime_HM (t : Q) : string :=
  let tod := t - midnight t in
  let hh := Qfloor tod in
  let mm := (Qfloor (tod * 60) mod 60)%Z in
  (two_digits hh ++ ":" ++ two_digits mm)%string.

End Clock.

(** ** Data of the scheduler *)

(** An input segment: [{'type': .., 'duration': .., 'location': ..}]. *)
Record segment := mkSegment {
  seg_type : string;
  seg_duration : Q;
  seg_location : string
}.

(** An entry of a daily log. *)
Record entry := mkEntry {
  start_time : string;
  end_time : string;
  status : string;
  location : string;
  duration : Q
}.

(** A daily log: [{'date': .., 'entries': .., 'totals': {..}}]. *)
Record daily_log := mkLog {
  log_date : Z;
  entries : list entry;
  driving_hours : Q;
  on_duty_hours : Q;
  off_duty_hours : Q
}.

(** The local variables of [hos_scheduler] that live across segments. *)
Record state := mkState {
  day_start : Q;
  current_time : Q;
  daily_logs : list daily_log;
  daily_entries : list entry;
  daily_driving : Q;
  daily_on_duty : Q;
  daily_off_duty : Q;
  weekly_hours : Q;
  consecutive_driving : Q
}.

Module Hos.

Import Clock.

(** [daily_entries.append({...})] for an entry that starts at
    [current_time] and lasts [d] hours; the clock is not moved. *)
Definition timed_entry (st : state) (d : Q) (sts loc : string) : entry :=
  mkEntry (strftime_HM (current_time st))
          (strftime_HM (current_time st + d)) sts loc d.

(** The block that inserts an off-duty rest of [d] hours labelled [loc]:
    append the entry, add to [daily_off_duty], advance [current_time].
    The counters to reset differ from one rule to the other and are set
    by the caller. *)
Definition insert_rest (st : state) (d : Q) (loc : string) : state :=
  mkState (day_start st) (current_time st + d) (daily_logs st)
          (daily_entries st ++ [timed_entry st d "off_duty" loc])
          (daily_driving st) (daily_on_duty st) (daily_off_duty st + d)
          (weekly_hours st) (consecutive_driving st).

Definition set_daily_driving (st : state) (v : Q) : state :=
  mkState (day_start st) (current_time st) (daily_logs st) (daily_entries st)
          v (daily_on_duty st) (daily_off_duty st)
          (weekly_hours st) (consecutive_driving st).

Definition set_daily_on_duty (st : state) (v : Q) : state :=
  mkState (day_start st) (current_time st) (daily_logs st) (daily_entries st)
          (daily_driving st) v (daily_off_duty st)
          (weekly_hours st) (consecutive_driving st).

Definition set_weekly_hours (st : state) (v : Q) : state :=
  mkState (day_start st) (current_time st) (daily_logs st) (daily_entries st)
          (daily_driving st) (daily_on_duty st) (daily_off_duty st)
          v (consecutive_driving st).

Definition set_consecutive_driving (st : state) (v : Q) : state :=
  mkState (day_start st) (current_time st) (daily_logs st) (daily_entries st)
          (daily_driving st) (daily_on_duty st) (daily_off_duty st)
          (weekly_hours st) v.

(** The log saved for the open day. *)
Definition close_day (st : state) : daily_log :=
  mkLog (date (day_start st)) (daily_entries st)
        (daily_driving st) (daily_on_duty st) (daily_off_duty st).

(** Lines 22-45: the open day starts at the midnight before [start];
    the time from midnight to [start] is off duty. *)
Definition initial_state (start weekly_used : Q) : state :=
  let ds := midnight start in
  if Qgtb start ds then
    mkState ds start [] [mkEntry "00:00" (strftime_HM start) "off_duty" "Off Duty" (start - ds)]
            0 0 (0 + (start - ds)) weekly_used 0
  else
    mkState ds start [] [] 0 0 0 weekly_used 0.

(** Lines 47-60: the 70-hour rule, checked before the trip starts. *)
Definition weekly_check (st : state) : state :=
  if Qgtb (weekly_hours st) 70 then
    set_weekly_hours (insert_rest st 34 "34-hour Restart") 0
  else st.

(** The midnight block, which the source repeats at the top of every
    segment (lines 69-102) and of every iteration of the three inner
    loops (lines 143-176, 223-256, 286-319): when the clock has left the
    open day, save that day and open the day of the clock, with the time
    since its midnight off duty. *)
Definition new_day_check (st : state) : state :=
  if Z.eqb (date (current_time st)) (date (day_start st)) then st
  else
    let logs := daily_logs st ++ [close_day st] in
    let ds := midnight (current_time st) in
    if Qgtb (current_time st) ds then
      mkState ds (current_time st) logs
              [mkEntry "00:00" (strftime_HM (current_time st)) "off_duty" "Off Duty"
                       (current_time st - ds)]
              0 0 (0 + (current_time st - ds))
              (weekly_hours st) (consecutive_driving st)
    else
      mkState ds (current_time st) logs [] 0 0 0
              (weekly_hours st) (consecutive_driving st).

(** [(day_end - current_time).total_seconds() / 3600]. *)
Definition time_left_in_day (st : state) : Q :=
  (day_start st + one_day) - current_time st.

(** One emitted piece of a segment, by type of segment: the entry, the
    counters, the clock (lines 186-196, 266-274, 329-339). *)
Definition emit_drive (st : state) (d : Q) (loc : string) : state :=
  mkState (day_start st) (current_time st + d) (daily_logs st)
          (daily_entries st ++ [timed_entry st d "driving" loc])
          (daily_driving st + d) (daily_on_duty st + d) (daily_off_duty st)
          (weekly_hours st) (consecutive_driving st + d).

Definition emit_on_duty (st : state) (d : Q) (loc : string) : state :=
  mkState (day_start st) (current_time st + d) (daily_logs st)
          (daily_entries st ++ [timed_entry st d "on_duty" loc])
          (daily_driving st) (daily_on_duty st + d) (daily_off_duty st)
          (weekly_hours st) (consecutive_driving st).

Definition emit_off_duty (st : state) (d : Q) (loc : string) : state :=
  mkState (day_start st) (current_time st + d) (daily_logs st)
          (daily_entries st ++ [timed_entry st d "off_duty" loc])
          (daily_driving st) (daily_on_duty st) (daily_off_duty st + d)
          (weekly_hours st) 0.

(** [while remaining_duration > 0: ...], the same loop for the three
    types but for the piece emitted.  [None] when the iterations allowed
    by [fuel] do not reach the exit of the loop. *)
Fixpoint split_loop (emit : state -> Q -> string -> state) (loc : string)
         (fuel : nat) (st : state) (remaining : Q) : option state :=
  if Qgtb remaining 0 then
    match fuel with
    | O => None
    | S fuel' =>
        let st1 := new_day_check st in
        let segment_duration := Qmin remaining (time_left_in_day st1) in
        split_loop emit loc fuel' (emit st1 segment_duration loc)
                   (remaining - segment_duration)
    end
  else Some st.

(** Lines 108-122: the 11-hour test, made once before a drive segment
    on the driving hours of the open day and the whole segment. *)
Definition eleven_hour_check (st : state) (d : Q) : state :=
  if Qgtb (daily_driving st + d) 11 then
    set_consecutive_driving
      (set_daily_driving (insert_rest st 10 "Rest Break (10 hours)") 0) 0
  else st.

(** Lines 124-137: the 8-hour test, made once after the 11-hour test. *)
Definition eight_hour_check (st : state) (d : Q) : state :=
  if Qgtb (consecutive_driving st + d) 8 then
    set_consecutive_driving (insert_rest st (1 # 2) "30-min Break") 0
  else st.

Definition drive_checks (st : state) (d : Q) : state :=
  eight_hour_check (eleven_hour_check st d) d.

(** Lines 204-217: the test made once, before an on-duty segment. *)
Definition on_duty_checks (st : state) (d : Q) : state :=
  if Qgtb (daily_on_duty st + d) 14 then
    set_daily_on_duty (insert_rest st 10 "14-hour Reset") 0
  else st.

(** The body of [for segment in segments].  A type other than the three
    known ones matches no branch. *)
Definition process_segment (fuel : nat) (st : state) (seg : segment)
  : option state :=
  let st1 := new_day_check st in
  let d := seg_duration seg in
  let loc := seg_location seg in
  if String.eqb (seg_type seg) "drive" then
    split_loop emit_drive loc fuel (drive_checks st1 d) d
  else if String.eqb (seg_type seg) "on_duty" then
    split_loop emit_on_duty loc fuel (on_duty_checks st1 d) d
  else if String.eqb (seg_type seg) "off_duty" then
    split_loop emit_off_duty loc fuel st1 d
  else Some st1.

Fixpoint process_segments (fuel : nat) (st : state) (segs : list segment)
  : option state :=
  match segs with
  | [] => Some st
  | seg :: rest =>
      match process_segment fuel st seg with
      | Some st' => process_segments fuel st' rest
      | None => None
      end
  end.

(** Lines 345-370: the rest of the open day is off duty, with the end
    written ["24:00"]; the weekly hours are updated; the day is saved. *)
Definition finish (st : state) : list daily_log :=
  let day_end := day_start st + one_day in
  let st1 :=
    if Qltb (current_time st) day_end then
      mkState (day_start st) (current_time st) (daily_logs st)
              (daily_entries st ++
                 [mkEntry (strftime_HM (current_time st)) "24:00" "off_duty" "Off Duty"
                          (day_end - current_time st)])
              (daily_driving st) (daily_on_duty st)
              (daily_off_duty st + (day_end - current_time st))
              (weekly_hours st) (consecutive_driving st)
    else st in
  let st2 := set_weekly_hours st1 (weekly_hours st1 + daily_on_duty st1) in
  daily_logs st2 ++ [close_day st2].

Definition hos_scheduler_fuel (fuel : nat) (start : Q) (segs : list segment)
           (weekly_used : Q) : option (list daily_log) :=
  match process_segments fuel (weekly_check (initial_state start weekly_used)) segs with
  | Some st => Some (finish st)
  | None => None
  end.

(** Iterations that an inner loop needs for a segment of [d] hours: one
    per midnight inside the segment and two more. *)
Definition loop_bound (d : Q) : nat := S (S (Z.to_nat (Qceiling (d / 24)))).

Definition enough_fuel (segs : list segment) : nat :=
  fold_right (fun seg n => Nat.max (loop_bound (seg_duration seg)) n) O segs.

Definition hos_scheduler (start : Q) (segs : list segment) (weekly_used : Q)
  : option (list daily_log) :=
  hos_scheduler_fuel (enough_fuel segs) start segs weekly_used.

End Hos.


(** ** Notions used to state the properties of the scheduler *)

Module HosSpec.

Import Clock Hos.

(** The open day starts at a midnight. *)
Definition aligned (st : state) : Prop := midnight (day_start st) = day_start st.

(** What the three emitters have in common: the open day is kept and the
    clock advances by the length of the piece. *)
Definition advances (emit : state -> Q -> string -> state) : Prop :=
  forall st d loc,
    day_start (emit st d loc) = day_start st /\
    current_time (emit st d loc) = current_time st + d.

(** One iteration of an inner loop on a state. *)
Definition loop_step (emit : state -> Q -> string -> state) (loc : string)
           (st : state) (remaining : Q) : state :=
  emit (new_day_check st)
       (Qmin remaining (time_left_in_day (new_day_check st))) loc.

Definition Qnat (n : nat) : Q := inject_Z (Z.of_nat n).

(** The entries emitted so far, in the order of their emission: those of
    the saved days, then those of the open day. *)
Definition entries_of (logs : list daily_log) : list entry :=
  flat_map entries logs.

Definition all_entries (st : state) : list entry :=
  entries_of (daily_logs st) ++ daily_entries st.

(** An emitter appends one entry of its status to the open day. *)
Definition appends (emit : state -> Q -> string -> state) (sts : string) : Prop :=
  forall st d loc,
    daily_logs (emit st d loc) = daily_logs st /\
    daily_entries (emit st d loc) =
      daily_entries st ++ [timed_entry st d sts loc].

(** The labels that the scheduler gives to the entries it inserts
    between the pieces of the segments. *)
Definition scheduler_labels : list string :=
  ["Off Duty"; "Rest Break (10 hours)"; "30-min Break"; "14-hour Reset"].

(** [st'] has the entries of [st] and then entries that satisfy [Pe]. *)
Definition extends (Pe : entry -> Prop) (st st' : state) : Prop :=
  exists ext, all_entries st' = all_entries st ++ ext /\ List.Forall Pe ext.

Definition labelled (labels : list string) (e : entry) : Prop :=
  In (location e) labels.

(** Dates in strictly ascending order. *)
Fixpoint ascending (l : list Z) : Prop :=
  match l with
  | [] => True
  | x :: rest => List.Forall (Z.lt x) rest /\ ascending rest
  end.

(** The clock is not before the open day, and the saved days are in
    order, all before the open day. *)
Definition ordered (st : state) : Prop :=
  aligned st /\
  day_start st <= current_time st /\
  ascending (map log_date (daily_logs st)) /\
  List.Forall (fun log => (log_date log < date (day_start st))%Z) (daily_logs st).

(** The filler of a new day, and a piece of a segment. *)
Definition is_filler (e : entry) : Prop :=
  status e = "off_duty" /\ location e = "Off Duty".

Definition is_piece (sts loc : string) (e : entry) : Prop :=
  status e = sts /\ location e = loc.

(** The entry of an inserted rest of [d] hours that starts at [t]. *)
Definition rest_entry (t d : Q) (loc : string) : entry :=
  mkEntry (strftime_HM t) (strftime_HM (t + d)) "off_duty" loc d.

(** Hours of the entries of one status, and of all the entries. *)
Definition hours_with (sts : string) (es : list entry) : Q :=
  fold_right (fun e acc => if String.eqb (status e) sts
                           then duration e + acc else acc) 0 es.

Definition total_hours (es : list entry) : Q :=
  fold_right (fun e acc => duration e + acc) 0 es.

(** Entries that follow one another from the time [from] to the time
    [to], as the strings of the entries tell. *)
Fixpoint chained (from : string) (es : list entry) (to : string) : bool :=
  match es with
  | [] => String.eqb from to
  | e :: rest => String.eqb (start_time e) from && chained (end_time e) rest to
  end.

(** A log that accounts for its whole day: entries chained from 00:00 to
    24:00 whose hours sum to 24, within a millionth. *)
Definition full_day (log : daily_log) : bool :=
  chained "00:00" (entries log) "24:00" &&
  Qle_bool (24 - (1 # 1000000)) (total_hours (entries log)) &&
  Qle_bool (total_hours (entries log)) (24 + (1 # 1000000)).

(** One of the rest rules holds at the top of a segment. *)
Definition rest_due (st : state) (seg : segment) : bool :=
  let st1 := new_day_check st in
  let d := seg_duration seg in
  if String.eqb (seg_type seg) "drive" then
    Qgtb (daily_driving st1 + d) 11 || Qgtb (consecutive_driving st1 + d) 8
  else if String.eqb (seg_type seg) "on_duty" then
    Qgtb (daily_on_duty st1 + d) 14
  else false.

(** No rest rule holds at the top of any segment of the run. *)
Fixpoint no_rest_along (fuel : nat) (st : state) (segs : list segment) : bool :=
  match segs with
  | [] => true
  | seg :: rest =>
      negb (rest_due st seg) &&
      match process_segment fuel st seg with
      | Some st' => no_rest_along fuel st' rest
      | None => false
      end
  end.

(** A run of the scheduler that inserts no rest: no restart at the start,
    no rest at the top of a segment. *)
Definition no_rest_inserted (start : Q) (segs : list segment) (weekly_used : Q)
  : bool :=
  negb (Qgtb weekly_used 70) &&
  no_rest_along (enough_fuel segs) (initial_state start weekly_used) segs.

(** The totals of a log are those of its entries, the driving hours
    counted as hours on duty too. *)
Definition totals_of_entries (log : daily_log) : Prop :=
  driving_hours log == hours_with "driving" (entries log) /\
  on_duty_hours log ==
    hours_with "driving" (entries log) + hours_with "on_duty" (entries log) /\
  off_duty_hours log == hours_with "off_duty" (entries log).

(** A saved day whose totals are those of its entries and account for
    24 hours, the driving hours being part of the hours on duty. *)
Definition log_ok (log : daily_log) : Prop :=
  on_duty_hours log + off_duty_hours log == 24 /\
  total_hours (entries log) == 24 /\
  totals_of_entries log.

(** The open day accounts for the time from its midnight to the clock. *)
Definition day_ok (st : state) : Prop :=
  aligned st /\
  day_start st <= current_time st /\
  current_time st <= day_start st + 24 /\
  daily_on_duty st + daily_off_duty st == current_time st - day_start st /\
  total_hours (daily_entries st) == current_time st - day_start st /\
  totals_of_entries (close_day st) /\
  List.Forall log_ok (daily_logs st).

(** The running weekly total of the claim on the 70-hour rule: the hours
    used before the trip and the hours of the driving and on-duty entries
    since the last restart of 34 hours; [true] when it never passes 70. *)
Fixpoint weekly_within_limit (running : Q) (es : list entry) : bool :=
  match es with
  | [] => true
  | e :: rest =>
      if String.eqb (status e) "off_duty" then
        if Qle_bool 34 (duration e) then weekly_within_limit 0 rest
        else weekly_within_limit running rest
      else
        Qle_bool (running + duration e) 70 &&
        weekly_within_limit (running + duration e) rest
  end.

(** The longest driving of the claim on the 11-hour rule: the driving
    hours since the last off-duty entry of 10 hours or more; [true] when
    they never pass 11 hours and a millionth. *)
Fixpoint driving_within_limit (running : Q) (es : list entry) : bool :=
  match es with
  | [] => true
  | e :: rest =>
      if String.eqb (status e) "off_duty" then
        if Qle_bool 10 (duration e) then driving_within_limit 0 rest
        else driving_within_limit running rest
      else if String.eqb (status e) "driving" then
        Qle_bool (running + duration e) (11 + (1 # 1000000)) &&
        driving_within_limit (running + duration e) rest
      else driving_within_limit running rest
  end.

(** A log with the numbers in lowest terms, to compare results. *)
Definition entry_view (e : entry) : string * string * string * string * Q :=
  (start_time e, end_time e, status e, location e, Qred (duration e)).

Definition log_view (log : daily_log)
  : Z * list (string * string * string * string * Q) * (Q * Q * Q) :=
  (log_date log, map entry_view (entries log),
   (Qred (driving_hours log), Qred (on_duty_hours log), Qred (off_duty_hours log))).

(** No entry of a list carries the label [loc]. *)
Definition no_entry_at (loc : string) (es : list entry) : Prop :=
  List.Forall (fun e => location e <> loc) es.

(** Three totals that follow the entries [es]: the off-duty hours are
    those of the off-duty entries; unless an entry is labelled
    "Rest Break (10 hours)", the driving hours are those of the driving
    entries; unless an entry is labelled "14-hour Reset", the hours on duty
    are those of the driving and on-duty entries, and with the off-duty
    hours they make the hours of all the entries. *)
Definition totals_follow (es : list entry) (driving on_duty off_duty : Q)
  : Prop :=
  off_duty == hours_with "off_duty" es /\
  (no_entry_at "Rest Break (10 hours)" es ->
   driving == hours_with "driving" es) /\
  (no_entry_at "14-hour Reset" es ->
   on_duty == hours_with "driving" es + hours_with "on_duty" es /\
   on_duty + off_duty == total_hours es).

(** A saved day whose totals follow its entries, which account for 24
    hours at least. *)
Definition day_ledger (log : daily_log) : Prop :=
  totals_follow (entries log) (driving_hours log) (on_duty_hours log)
                (off_duty_hours log) /\
  24 <= total_hours (entries log).

(** The same for the open day, whose entries account for the time from
    its midnight to the clock, and for the saved days. *)
Definition ledger (st : state) : Prop :=
  aligned st /\
  day_start st <= current_time st /\
  total_hours (daily_entries st) == current_time st - day_start st /\
  totals_follow (daily_entries st) (daily_driving st) (daily_on_duty st)
                (daily_off_duty st) /\
  List.Forall day_ledger (daily_logs st).

(** A saved day whose three totals lie between 0 and 58 hours. *)
Definition day_within (log : daily_log) : Prop :=
  (0 <= driving_hours log /\ driving_hours log <= 58) /\
  (0 <= on_duty_hours log /\ on_duty_hours log <= 58) /\
  (0 <= off_duty_hours log /\ off_duty_hours log <= 58).

(** The clock is at most [bound] hours after the midnight of the open
    day, the three counters lie between 0 and the time since that
    midnight, and the totals of the saved days are within 58 hours. *)
Definition within (bound : Q) (st : state) : Prop :=
  aligned st /\
  day_start st <= current_time st /\
  current_time st - day_start st <= bound /\
  (0 <= daily_driving st /\
   daily_driving st <= current_time st - day_start st) /\
  (0 <= daily_on_duty st /\
   daily_on_duty st <= current_time st - day_start st) /\
  (0 <= daily_off_duty st /\
   daily_off_duty st <= current_time st - day_start st) /\
  List.Forall day_within (daily_logs st).

End HosSpec.

(** ** The route client ([trips/ors_client.py]) *)

(** A coordinate is the pair [(longitude, latitude)]. *)
Definition coord : Type := (Q * Q)%type.

(** The dictionary that the client returns.  The geometry is a GeoJSON
    line string, kept as the list under its key ['coordinates']. *)
Record route_data := mkRoute {
  route_distance : Q;
  route_duration : Q;
  route_geometry : list coord
}.

(** What a call of [get_route] gives: a dictionary whose geometry holds
    its coordinates; a dictionary whose geometry holds none, with its
    distance and duration; or the [ValueError] that [math.sqrt] raises in
    the great-circle distance and that no handler catches. *)
Inductive route_result : Type :=
| Route : route_data -> route_result
| Route_without_coordinates : Q -> Q -> route_result
| ValueError : route_result.

Module RouteClient.

Record settings := mkSettings {
  MAPBOX_ACCESS_TOKEN : option string;
  ORS_API_KEY : option string
}.

(** [hasattr(settings, name) and settings.name]: the key is set and not
    empty. *)
Definition configured (token : option string) : bool :=
  match token with
  | Some s => negb (String.eqb s "")
  | None => false
  end.

(** What a call of [requests.get] or [requests.post] gives: the call
    raises (connection error, time-out after 30 s), or a response comes
    back with a status code and a body, whose [json()] raises ([None]) or
    parses. *)
Inductive reply (body : Type) : Type :=
| Raised : reply body
| Answered : Z -> option body -> reply body.
Arguments Raised {body}.
Arguments Answered {body} _ _.

(** The parts of the providers' bodies that the client reads; a key that
    may be missing is an option. *)
Record mapbox_route := mkMapboxRoute {
  mb_distance : option Q;
  mb_duration : option Q;
  mb_geometry : option (list coord)
}.

Record mapbox_body := mkMapboxBody { routes : option (list mapbox_route) }.

(** The geometry of a feature of OpenRouteService is returned as it comes:
    [None] when the feature has no key ['geometry'], [Some None] when it
    has one that holds no ['coordinates'] (an object without that key, or
    [null]). *)
Record ors_feature := mkOrsFeature {
  ors_distance : option Q;
  ors_duration : option Q;
  ors_geometry : option (option (list coord))
}.

Record ors_body := mkOrsBody { features : option (list ors_feature) }.

(** [response.raise_for_status()] raises for the codes 400 to 599. *)
Definition raise_for_status (status_code : Z) : bool :=
  (400 <=? status_code)%Z && (status_code <? 600)%Z.

(** [round(x)] and [round(x, 2)]: to the nearest, ties to even. *)
Definition round_half_even (x : Q) : Z :=
  let f := Qfloor x in
  let r := x - inject_Z f in
  if Qltb r (1 # 2) then f
  else if Qgtb r (1 # 2) then (f + 1)%Z
  else if Z.even f then f else (f + 1)%Z.

Definition round2 (x : Q) : Q := inject_Z (round_half_even (x * 100)) / 100.

Section Providers.

(** The configuration and the two services.  Of the great-circle
    distance (lines 168-183) the model keeps the control flow: [a] is the
    float that the source computes with [math.sin] and [math.cos], and
    [central_angle a] is [2 * math.atan2(math.sqrt(a), math.sqrt(1-a))];
    both are parameters. *)
Variable config : settings.
Variable mapbox_get : coord -> coord -> coord -> reply mapbox_body.
Variable ors_post : coord -> coord -> coord -> reply ors_body.
Variable haversine_a : coord -> coord -> Q.
Variable central_angle : Q -> Q.

(** [math.sqrt] raises [ValueError] on a negative argument: [None]. *)
Definition haversine_distance (coord1 coord2 : coord) : option Q :=
  let R := 3959 in
  let a := haversine_a coord1 coord2 in
  if Qltb a 0 || Qltb (1 - a) 0 then None
  else Some (R * central_angle a).

Definition _get_mock_route (current pickup dropoff : coord) : route_result :=
  match haversine_distance current pickup with
  | None => ValueError
  | Some leg1 =>
      match haversine_distance pickup dropoff with
      | None => ValueError
      | Some leg2 =>
          let total_distance := 0 + leg1 + leg2 in
          let estimated_duration := total_distance / 50 in
          Route (mkRoute (round2 total_distance) (round2 estimated_duration)
                         [current; pickup; dropoff])
      end
  end.

(** Every exception inside the [try] leads to the handler, which returns
    the mock route; an exception of the mock route itself, whether it is
    called inside the [try] (line 97) or by the handler (line 102), leaves
    the function.  The geometry of Mapbox is read inside the [try] (line
    88): [None] when it or its coordinates are missing. *)
Definition _get_mapbox_route (current pickup dropoff : coord) : route_result :=
  match mapbox_get current pickup dropoff with
  | Raised => _get_mock_route current pickup dropoff
  | Answered status_code json =>
      if raise_for_status status_code then _get_mock_route current pickup dropoff
      else
        match json with
        | None => _get_mock_route current pickup dropoff
        | Some data =>
            match routes data with
            | Some (route :: _) =>
                match mb_distance route, mb_duration route, mb_geometry route with
                | Some dist, Some dur, Some geom =>
                    Route (mkRoute (round2 (dist * 0.000621371))
                                   (round2 (dur / 3600)) geom)
                | _, _, _ => _get_mock_route current pickup dropoff
                end
            | _ => _get_mock_route current pickup dropoff
            end
        end
  end.

Definition _get_ors_route (current pickup dropoff : coord) : route_result :=
  match ors_post current pickup dropoff with
  | Raised => _get_mock_route current pickup dropoff
  | Answered status_code json =>
      if raise_for_status status_code then _get_mock_route current pickup dropoff
      else
        match json with
        | None => _get_mock_route current pickup dropoff
        | Some data =>
            match features data with
            | Some (feature :: _) =>
                match ors_distance feature, ors_duration feature, ors_geometry feature with
                | Some dist, Some dur, Some (Some geom) =>
                    Route (mkRoute (round2 (dist * 0.000621371))
                                   (round2 (dur / 3600)) geom)
                | Some dist, Some dur, Some None =>
                    Route_without_coordinates (round2 (dist * 0.000621371))
                                              (round2 (dur / 3600))
                | _, _, _ => _get_mock_route current pickup dropoff
                end
            | _ => _get_mock_route current pickup dropoff
            end
        end
  end.

Definition get_route (current pickup dropoff : coord) : route_result :=
  if configured (MAPBOX_ACCESS_TOKEN config) then
    _get_mapbox_route current pickup dropoff
  else if configured (ORS_API_KEY config) then
    _get_ors_route current pickup dropoff
  else
    _get_mock_route current pickup dropoff.

End Providers.

End RouteClient.

(** ** The orchestrator ([trips/views.py]) and its store ([trips/models.py]) *)

(** A row of [DailyRod], without its key [(driver, date)] and without the
    time stamps. *)
Record daily_rod := mkRod {
  rod_driving_hours : Q;
  rod_on_duty_hours : Q;
  rod_off_duty_hours : Q;
  rod_entries : list entry
}.

(** The two tables: the identifiers of the drivers, and the daily records,
    unique for a driver and a date. *)
Record database := mkDb {
  drivers : gset Z;
  daily_rods : gmap (Z * Z) daily_rod
}.

Module Views.

Import Clock Hos RouteClient.

(** The validated fields of a request; an optional field is an option.
    [start_date] is a datetime and [start_time] a time of day, in hours. *)
Record request := mkRequest {
  current_location : list Q;
  pickup : list Q;
  dropoff : list Q;
  driver_id : option Z;
  current_cycle_used_hours : option Q;
  start_date : option Q;
  start_time : option Q
}.

Record statistics := mkStatistics {
  total_distance : Q;
  total_duration : Q;
  average_speed : Q;
  estimated_fuel_cost : Q;
  estimated_tolls : Q
}.

Record rest_stop := mkRestStop {
  stop_location : coord;
  stop_distance : Q;
  time_from_start : Q;
  amenities : list string
}.

Record route_segment := mkRouteSegment {
  segment_number : Z;
  start_distance : Q;
  end_distance : Q;
  segment_distance : Q;
  segment_duration : Q;
  segment_coordinates : list coord
}.

Record response := mkResponse {
  route : route_data;
  route_statistics : statistics;
  response_daily_logs : list daily_log;
  is_compliant : bool;
  rest_stops : list rest_stop;
  route_segments : list route_segment
}.

(** How a call of the view ends: one of its three responses, an exception
    that leaves the view, or - in the model only - a loop that the fuel of
    the model did not see to its end. *)
Inductive outcome : Type :=
| HTTP_200_OK : response -> outcome
| HTTP_400_BAD_REQUEST : outcome
| HTTP_404_NOT_FOUND : outcome
| Uncaught_exception : outcome
| Out_of_fuel : outcome.

(** [int(x)] truncates towards zero. *)
Definition py_int (x : Q) : Z := Z.quot (Qnum x) (Zpos (Qden x)).

(** [l[a:b]] for indexes that are not negative, the only ones that the
    callers produce. *)
Definition slice {A : Type} (l : list A) (a b : Z) : list A :=
  firstn (Z.to_nat (b - a)) (skipn (Z.to_nat a) l).

(** [f"{x:.1f}"], for the labels of the drive segments. *)
Definition format_1f (x : Q) : string :=
  let n := round_half_even (x * 10) in
  ((if (n <? 0)%Z then "-" else "") ++
   pretty (Z.abs n / 10)%Z ++ "." ++ pretty (Z.abs n mod 10)%Z)%string.

(** [TripPlanRequestSerializer]: the three positions are lists of exactly
    two numbers. *)
Definition is_valid (req : request) : bool :=
  (length (current_location req) =? 2)%nat &&
  (length (pickup req) =? 2)%nat &&
  (length (dropoff req) =? 2)%nat.

(** [validate_coordinates]: [None] stands for the [ValueError]. *)
Definition validate_coordinates (c : list Q) : option coord :=
  match c with
  | [lng; lat] =>
      if Qle_bool (-180) lng && Qle_bool lng 180 &&
         Qle_bool (-90) lat && Qle_bool lat 90
      then Some (lng, lat) else None
  | _ => None
  end.

(** [if driver_id:] holds for an identifier that is given and not 0. *)
Definition driver_given (req : request) : option Z :=
  match driver_id req with
  | Some n => if (n =? 0)%Z then None else Some n
  | None => None
  end.

(** Lines 76-83: the records of the driver dated [eight_days_ago] or
    later, and the sum of their on-duty hours. *)
Definition recent_rods (db : database) (driver eight_days_ago : Z)
  : list (Z * Z * daily_rod) :=
  List.filter (fun row => (fst (fst row) =? driver)%Z &&
                          (eight_days_ago <=? snd (fst row))%Z)
              (map_to_list (daily_rods db)).

Definition sum_on_duty_hours (rows : list (Z * Z * daily_rod)) : Q :=
  fold_left (fun acc row => acc + rod_on_duty_hours (snd row)) rows 0.

Definition weekly_used_of (db : database) (driver today : Z) : Q :=
  sum_on_duty_hours (recent_rods db driver (today - 8)).

(** Lines 111-142: the drive segments of a trip of at most 11 hours, with
    a fuelling stop after every 1000 miles but the last. *)
Fixpoint short_trip_segments (fuel : nat) (total_distance total_drive_duration : Q)
         (current_distance : Q) (segment_number : Z) : option (list segment) :=
  if Qltb current_distance total_distance then
    match fuel with
    | O => None
    | S fuel' =>
        let remaining_distance := total_distance - current_distance in
        let segment_distance := Qmin remaining_distance 1000 in
        let segment_drive_time :=
          (segment_distance / total_distance) * total_drive_duration in
        let drive :=
          mkSegment "drive" segment_drive_time
                    ("Route Segment " ++ pretty segment_number ++ " (" ++
                     format_1f segment_distance ++ " mi)")%string in
        let current_distance' := current_distance + segment_distance in
        let stop :=
          if Qltb current_distance' total_distance
          then [mkSegment "on_duty" 0.5 "Fueling Stop"] else [] in
        match short_trip_segments fuel' total_distance total_drive_duration
                                  current_distance' (segment_number + 1) with
        | Some rest => Some (drive :: stop ++ rest)
        | None => None
        end
    end
  else Some [].

(** Lines 144-168: the drive segments of a longer trip, of 11 hours at
    most, with a planned rest of 10 hours between two of them. *)
Fixpoint long_trip_segments (fuel : nat) (total_distance total_drive_duration : Q)
         (remaining_duration : Q) (segment_number : Z) : option (list segment) :=
  if Qgtb remaining_duration 0 then
    match fuel with
    | O => None
    | S fuel' =>
        let drive_duration := Qmin remaining_duration 11 in
        let drive :=
          mkSegment "drive" drive_duration
                    ("Route Segment " ++ pretty segment_number ++ " (" ++
                     format_1f (total_distance * (drive_duration / total_drive_duration)) ++
                     " mi)")%string in
        let remaining_duration' := remaining_duration - drive_duration in
        let rest_break :=
          if Qgtb remaining_duration' 0
          then [mkSegment "off_duty" 10 "Rest Break (10 hours)"] else [] in
        match long_trip_segments fuel' total_distance total_drive_duration
                                 remaining_duration' (segment_number + 1) with
        | Some rest => Some (drive :: rest_break ++ rest)
        | None => None
        end
    end
  else Some [].

Definition iterations (x step : Q) : nat := S (Z.to_nat (Qceiling (x / step))).

(** Lines 92-175.  The key ['coordinates'] of a segment is not read by
    the scheduler and is left out. *)
Definition build_segments (route_data : route_data) : option (list segment) :=
  let max_driving_hours := 11 in
  let total_drive_duration := route_duration route_data in
  let total_distance := route_distance route_data in
  let driving :=
    if Qle_bool total_drive_duration max_driving_hours then
      short_trip_segments (iterations total_distance 1000)
                          total_distance total_drive_duration 0 1
    else
      long_trip_segments (iterations total_drive_duration max_driving_hours)
                         total_distance total_drive_duration
                         total_drive_duration 1 in
  match driving with
  | Some segs =>
      Some ([mkSegment "on_duty" 1 "Pickup Location"] ++ segs ++
            [mkSegment "on_duty" 1 "Dropoff Location"])
  | None => None
  end.

(** Lines 178-184: [datetime.combine(start_date.date(), start_time)], or
    the clock. *)
Definition start_datetime_of (req : request) (now : Q) : Q :=
  match start_date req, start_time req with
  | Some d, Some t => midnight d + t
  | _, _ => now
  end.

Section Store.

(** The three totals of a record are columns
    [DecimalField(max_digits=4, decimal_places=2)]: a float that is saved
    is converted to a decimal of two places.  The conversion is made by
    Django and the database, outside the source; it is a parameter.  The
    columns hold the numbers below 100, and the totals of a log of the
    scheduler lie between 0 and 58 ([totals_stay_within_58]). *)
Variable to_decimal : Q -> Q.

(** The record that is written for a log: the totals as the columns hold
    them, the entries as they are (a JSON column). *)
Definition rod_of_log (log : daily_log) : daily_rod :=
  mkRod (to_decimal (driving_hours log)) (to_decimal (on_duty_hours log))
        (to_decimal (off_duty_hours log)) (entries log).

(** [DailyRod.objects.update_or_create(driver=.., date=.., defaults=..)]:
    the record of the key is created, or its four fields are replaced. *)
Definition update_or_create (driver : Z) (log : daily_log)
           (rods : gmap (Z * Z) daily_rod) : gmap (Z * Z) daily_rod :=
  <[ (driver, log_date log) := rod_of_log log ]> rods.

(** Lines 205-216: one call per log, in the order of the list. *)
Definition persist (driver : Z) (logs : list daily_log) (db : database) : database :=
  mkDb (drivers db)
       (fold_left (fun rods log => update_or_create driver log rods) logs
                  (daily_rods db)).

End Store.

(** Lines 247-276. *)
Definition calculate_rest_stops (route_data : route_data) : list rest_stop :=
  let distance := route_distance route_data in
  let duration := route_duration route_data in
  let rest_interval_hours := 8 in
  let rest_intervals := py_int (duration / rest_interval_hours) in
  let coordinates := route_geometry route_data in
  flat_map
    (fun i : nat =>
       let time_from_start := inject_Z (Z.of_nat i) * rest_interval_hours in
       let distance_ratio := time_from_start / duration in
       let distance_from_start := distance_ratio * distance in
       let len := Z.of_nat (length coordinates) in
       let coord_index := Z.min (py_int (distance_ratio * inject_Z len)) (len - 1) in
       match nth_error coordinates (Z.to_nat coord_index) with
       | Some location =>
           [mkRestStop location distance_from_start time_from_start
                       ["Fuel"; "Food"; "Restrooms"; "Parking"]]
       | None => []
       end)
    (seq 1 (Z.to_nat rest_intervals)).

(** Lines 279-310.  [None] stands for the [ZeroDivisionError] of the
    divisions by [distance], which every call reaches. *)
Definition split_route_segments (route_data : route_data)
  : option (list route_segment) :=
  let distance := route_distance route_data in
  let duration := route_duration route_data in
  let max_driving_hours := 11 in
  let segments_needed := Z.max 1 (py_int (duration / max_driving_hours)) in
  let segment_distance := distance / inject_Z segments_needed in
  let coordinates := route_geometry route_data in
  if Qeq_bool distance 0 then None
  else
    Some (map
      (fun i : nat =>
         let start_distance := inject_Z (Z.of_nat i) * segment_distance in
         let end_distance :=
           Qmin (inject_Z (Z.of_nat i + 1) * segment_distance) distance in
         let len := inject_Z (Z.of_nat (length coordinates)) in
         let start_coord_index := py_int ((start_distance / distance) * len) in
         let end_coord_index := py_int ((end_distance / distance) * len) in
         mkRouteSegment (Z.of_nat i + 1) start_distance end_distance
                        (end_distance - start_distance)
                        ((end_distance - start_distance) / distance * duration)
                        (slice coordinates start_coord_index (end_coord_index + 1)))
      (seq 0 (Z.to_nat segments_needed))).

(** Lines 224-230. *)
Definition route_statistics_of (route_data : route_data) : statistics :=
  mkStatistics
    (route_distance route_data)
    (route_duration route_data)
    (if Qgtb (route_duration route_data) 0
     then route_distance route_data / route_duration route_data else 0)
    (route_distance route_data * 0.15)
    (route_distance route_data * 0.05).

(** A segment whose key ['coordinates'] is read from the geometry of the
    route (lines 129, 155, 167): the drive segments and the planned rests. *)
Definition reads_coordinates (seg : segment) : bool :=
  String.eqb (seg_type seg) "drive" || String.eqb (seg_type seg) "off_duty".

Section View.

(** The route client with its services, the conversion of the store, and
    the two readings of the clock that the view makes, [timezone.now()]
    at line 76 and at line 184. *)
Variable get_route : coord -> coord -> coord -> route_result.
Variable to_decimal : Q -> Q.
Variable now_at_history : Q.
Variable now_at_start : Q.

(** Lines 70-89: the weekly hours, or [None] for the response 404. *)
Definition weekly_used_for (req : request) (db : database) : option Q :=
  match driver_given req with
  | Some driver =>
      if decide (driver ∈ drivers db) then
        Some (weekly_used_of db driver (date now_at_history))
      else None
  | None =>
      Some (match current_cycle_used_hours req with
            | Some h => h
            | None => 0
            end)
  end.

(** Lines 204-216. *)
Definition persist_logs (req : request) (daily_logs : list daily_log)
           (db : database) : database :=
  match driver_given req with
  | Some driver => persist to_decimal driver daily_logs db
  | None => db
  end.

(** Lines 91-244 for a route whose geometry holds its coordinates. *)
Definition plan_route (req : request) (db : database) (weekly_used : Q)
           (route_data : route_data) : outcome * database :=
  match build_segments route_data with
  | None => (Out_of_fuel, db)
  | Some segments =>
      let start_datetime := start_datetime_of req now_at_start in
      match hos_scheduler start_datetime segments weekly_used with
      | None => (Out_of_fuel, db)
      | Some daily_logs =>
          let db' := persist_logs req daily_logs db in
          match split_route_segments route_data with
          | None => (Uncaught_exception, db')
          | Some segs =>
              (HTTP_200_OK
                 (mkResponse route_data
                             (route_statistics_of route_data)
                             daily_logs true
                             (calculate_rest_stops route_data)
                             segs),
               db')
          end
      end
  end.

(** The same lines for a route whose geometry holds no coordinates.  The
    first segment that reads them raises a [KeyError], before the
    scheduler is called; when no segment reads them, the logs are
    planned and persisted, and [split_route_segments] raises it (line
    289), unless [calculate_rest_stops] did (line 264). *)
Definition plan_route_without_coordinates (req : request) (db : database)
           (weekly_used : Q) (distance duration : Q) : outcome * database :=
  match build_segments (mkRoute distance duration []) with
  | None => (Out_of_fuel, db)
  | Some segments =>
      if existsb reads_coordinates segments then (Uncaught_exception, db)
      else
        let start_datetime := start_datetime_of req now_at_start in
        match hos_scheduler start_datetime segments weekly_used with
        | None => (Out_of_fuel, db)
        | Some daily_logs =>
            (Uncaught_exception, persist_logs req daily_logs db)
        end
  end.

Definition plan_trip (req : request) (db : database) : outcome * database :=
  if negb (is_valid req) then (HTTP_400_BAD_REQUEST, db) else
  match validate_coordinates (current_location req),
        validate_coordinates (pickup req),
        validate_coordinates (dropoff req) with
  | Some current_location, Some pickup, Some dropoff =>
      match get_route current_location pickup dropoff with
      | ValueError => (Uncaught_exception, db)
      | Route route_data =>
          match weekly_used_for req db with
          | None => (HTTP_404_NOT_FOUND, db)
          | Some weekly_used => plan_route req db weekly_used route_data
          end
      | Route_without_coordinates distance duration =>
          match weekly_used_for req db with
          | None => (HTTP_404_NOT_FOUND, db)
          | Some weekly_used =>
              plan_route_without_coordinates req db weekly_used distance duration
          end
      end
  | _, _, _ => (HTTP_400_BAD_REQUEST, db)
  end.

End View.

End Views.

(** ** Tactics and the concrete runs used as examples *)

(** Decides the comparisons of two literal strings in the goal. *)
Ltac status_tests :=
  repeat match goal with
    | |- context [String.eqb ?a ?b] =>
        let v := eval vm_compute in (String.eqb a b) in
        change (String.eqb a b) with v
    end;
  cbv iota.

Module Examples.

Import Hos.

(** A drive segment of 12 hours from midnight, weekly hours 0: the state
    at the top of the segment and the state after it. *)
Definition long_drive : segment := mkSegment "drive" 12 "Route".

Definition before_long_drive : state := initial_state 0 0.

Definition after_long_drive : state :=
  Eval vm_compute in
    match process_segment 3 before_long_drive long_drive with
    | Some st => st
    | None => before_long_drive
    end.

(** The segments that the view builds for a route of 450 miles and 9
    hours. *)
Definition nine_hour_trip : list segment :=
  [mkSegment "on_duty" 1 "Pickup Location";
   mkSegment "drive" 9 "Route Segment 1 (450.0 mi)";
   mkSegment "on_duty" 1 "Dropoff Location"].

(** 22:45 and 20:00 on day 0, 08:00 on day 0. *)
Definition quarter_to_eleven_pm : Q := 91 # 4.
Definition eight_pm : Q := 20.
Definition eight_am : Q := 8.

(** The first scenario of the specification. *)
Definition scenario_1 : list segment :=
  [mkSegment "on_duty" 1 "Pickup";
   mkSegment "drive" 5 "Route";
   mkSegment "on_duty" 1 "Drop-off"].

(** A state with 6 driving hours in the open day, at 06:00 of day 0, and
    a planned rest of 10 hours. *)
Definition after_six_hours : state :=
  Eval vm_compute in
    match process_segment 3 (initial_state 0 0) (mkSegment "drive" 6 "A") with
    | Some st => st
    | None => initial_state 0 0
    end.

Definition planned_rest : segment := mkSegment "off_duty" 10 "Rest".

Definition after_planned_rest : state :=
  Eval vm_compute in
    match process_segment 3 after_six_hours planned_rest with
    | Some st => st
    | None => after_six_hours
    end.

End Examples.

(** ** Notions used to state the properties of the view and of the client *)

Module ViewsSpec.

Import Views.

(** The weekly figure as the specification words it: the on-duty hours of
    the records of the driver dated from 8 days before [as_of] to [as_of]. *)
Definition rows_between (db : database) (driver lo hi : Z)
  : list (Z * Z * daily_rod) :=
  List.filter (fun row => (fst (fst row) =? driver)%Z &&
                          ((lo <=? snd (fst row))%Z && (snd (fst row) <=? hi)%Z))
              (map_to_list (daily_rods db)).

Definition weekly_on_duty_spec (db : database) (driver as_of : Z) : Q :=
  sum_on_duty_hours (rows_between db driver (as_of - 8) as_of).

(** The records of the driver dated after [as_of]. *)
Definition rows_after (db : database) (driver as_of : Z)
  : list (Z * Z * daily_rod) :=
  List.filter (fun row => (fst (fst row) =? driver)%Z &&
                          (as_of <? snd (fst row))%Z)
              (map_to_list (daily_rods db)).

(** A store with driver 1 and one record of 5 hours on duty, dated day 13. *)
Definition store_with_later_record : database :=
  mkDb {[ 1%Z ]} {[ (1%Z, 13%Z) := mkRod 3 5 19 [] ]}.

(** A request with a longitude out of range, and one for a driver that
    the store does not know. *)
Definition request_out_of_range : request :=
  mkRequest [200; 0] [0; 0] [1; 1] (Some 1%Z) None None None.

Definition request_unknown_driver : request :=
  mkRequest [0; 0] [0; 0] [1; 1] (Some 7%Z) None None None.

(** A route of 600 miles in 12 hours, and a slice with its numbers in
    lowest terms. *)
Definition twelve_hour_route : route_data :=
  mkRoute 600 12 [(0, 0); (1, 1); (2, 2)].

Definition slice_view (s : route_segment) : Z * Q * Q * Q * Q * list coord :=
  (segment_number s, Qred (start_distance s), Qred (end_distance s),
   Qred (segment_distance s), Qred (segment_duration s), segment_coordinates s).

End ViewsSpec.

Module RouteSpec.

Import RouteClient.

(** The ways in which an attempt on a provider fails: the call raises
    (connection error, time-out), the status is an error status, the body is
    not JSON, or the body holds no usable result. *)
Inductive attempt_failed {body : Type} (unusable : body -> Prop)
  : reply body -> Prop :=
| failed_raised : attempt_failed unusable Raised
| failed_status code json :
    raise_for_status code = true -> attempt_failed unusable (Answered code json)
| failed_malformed code : attempt_failed unusable (Answered code None)
| failed_unusable code data :
    unusable data -> attempt_failed unusable (Answered code (Some data)).

(** No route in the body of Mapbox, or a first route that lacks a key. *)
Definition mapbox_unusable (data : mapbox_body) : Prop :=
  match routes data with
  | Some (route :: _) =>
      mb_distance route = None \/ mb_duration route = None \/
      mb_geometry route = None
  | _ => True
  end.

Definition ors_unusable (data : ors_body) : Prop :=
  match features data with
  | Some (feature :: _) =>
      ors_distance feature = None \/ ors_duration feature = None \/
      ors_geometry feature = None
  | _ => True
  end.

(** A route with its numbers in lowest terms. *)
Definition route_view (r : route_data) : Q * Q * list coord :=
  (Qred (route_distance r), Qred (route_duration r), route_geometry r).

Definition result_view (r : route_result) : option (Q * Q * list coord) :=
  match r with
  | Route route_data => Some (route_view route_data)
  | _ => None
  end.

(** The argument of a square root of the great-circle distance between
    two positions is negative: [a < 0] or [1 - a < 0]. *)
Definition leg_raises (haversine_a : coord -> coord -> Q)
           (coord1 coord2 : coord) : Prop :=
  haversine_a coord1 coord2 < 0 \/ 1 < haversine_a coord1 coord2.

(** The client comes to the estimate: the attempt on the provider that is
    configured first fails, or none is configured. *)
Definition uses_the_estimate (config : settings)
           (mapbox_get : coord -> coord -> coord -> reply mapbox_body)
           (ors_post : coord -> coord -> coord -> reply ors_body)
           (c p d : coord) : Prop :=
  (configured (MAPBOX_ACCESS_TOKEN config) = true /\
   attempt_failed mapbox_unusable (mapbox_get c p d)) \/
  (configured (MAPBOX_ACCESS_TOKEN config) = false /\
   configured (ORS_API_KEY config) = true /\
   attempt_failed ors_unusable (ors_post c p d)) \/
  (configured (MAPBOX_ACCESS_TOKEN config) = false /\
   configured (ORS_API_KEY config) = false).

(** Both keys are set; Mapbox does not answer; OpenRouteService answers
    with a route of 1000 km in 5 hours; the great-circle legs are of 100
    miles each, whatever the positions. *)
Definition both_keys : settings := mkSettings (Some "pk.test") (Some "ors-test").

Definition mapbox_down (_ _ _ : coord) : reply mapbox_body := Raised.

Definition ors_up (current pickup dropoff : coord) : reply ors_body :=
  Answered 200
    (Some (mkOrsBody
             (Some [mkOrsFeature (Some 1000000) (Some 18000)
                                 (Some (Some [current; pickup; (1, 0); dropoff]))]))).

Definition a_of_short_legs (_ _ : coord) : Q := 1 # 4.

Definition angle_of_100_miles (_ : Q) : Q := 100 / 3959.

(** The value of [a] that the float arithmetic of the source gives
    between the positions (-86, 8) and (94, -8), which lie opposite each
    other on the globe: 1.0000000000000002, that is 1 + 2^-52.  Between
    other positions the example takes [a] to be 1/4. *)
Definition nearly_opposite : coord * coord := ((-86, 8), (94, -8)).

Definition a_of_the_floats (coord1 coord2 : coord) : Q :=
  if Qeq_bool (fst coord1) (-86) && Qeq_bool (snd coord1) 8 &&
     Qeq_bool (fst coord2) 94 && Qeq_bool (snd coord2) (-8)
  then 1 + (1 # 4503599627370496)
  else 1 # 4.

End RouteSpec.

From stdpp Require sorting.

(** ** Further notions on the scheduler *)

Module HosMore.

Import Clock Hos HosSpec.

(** The hours that the segments of one type plan. *)
Definition planned_hours (ty : string) (segs : list segment) : Q :=
  fold_right (fun seg acc => if String.eqb (seg_type seg) ty
                             then seg_duration seg + acc else acc) 0 segs.

(** An entry as the scheduler emits them: one of the three statuses, and
    a duration that is positive and of 34 hours at most. *)
Definition well_formed_entry (e : entry) : Prop :=
  (status e = "driving" \/ status e = "on_duty" \/ status e = "off_duty") /\
  0 < duration e /\ duration e <= 34.

(** The first saved day, or the open day when none is saved, is the day
    of the start. *)
Definition starts_on (day : Z) (st : state) : Prop :=
  match daily_logs st with
  | [] => date (day_start st) = day
  | log :: _ => log_date log = day
  end.

(** An off-duty entry. *)
Definition is_off_duty (e : entry) : Prop := status e = "off_duty".

(** An emitter that does not read the weekly hours. *)
Definition ignores_weekly (emit : state -> Q -> string -> state) : Prop :=
  forall st d loc v,
    emit (set_weekly_hours st v) d loc = set_weekly_hours (emit st d loc) v.

(** The status of the entries of a segment of a known type. *)
Definition status_of_type (ty : string) : string :=
  if String.eqb ty "drive" then "driving" else ty.

Definition known_type (ty : string) : Prop :=
  ty = "drive" \/ ty = "on_duty" \/ ty = "off_duty".

(** The date and the entries of a log. *)
Definition dated_entries (log : daily_log) : Z * list entry :=
  (log_date log, entries log).

(** The totals of a log against its entries: the off-duty total is the
    sum of the off-duty entries; the driving total is at most the sum of
    the driving entries, and the on-duty total at most the sum of the
    driving and on-duty entries. *)
Definition totals_bounded (log : daily_log) : Prop :=
  off_duty_hours log == hours_with "off_duty" (entries log) /\
  0 <= driving_hours log /\
  driving_hours log <= hours_with "driving" (entries log) /\
  0 <= on_duty_hours log /\
  on_duty_hours log <=
    hours_with "driving" (entries log) + hours_with "on_duty" (entries log).

(** The same for the open day and the saved days of a state. *)
Definition books_kept (st : state) : Prop :=
  aligned st /\
  totals_bounded (close_day st) /\
  List.Forall totals_bounded (daily_logs st).

(** A day whose entries follow one another from 00:00 without a gap, as
    their strings tell, and account for 24 hours at least. *)
Definition day_covered (log : daily_log) : Prop :=
  (exists to, chained "00:00" (entries log) to = true) /\
  24 <= total_hours (entries log).

(** The open day is covered from its midnight to the clock, and the
    saved days are covered. *)
Definition timeline (st : state) : Prop :=
  aligned st /\
  day_start st <= current_time st /\
  chained "00:00" (daily_entries st) (strftime_HM (current_time st)) = true /\
  total_hours (daily_entries st) == current_time st - day_start st /\
  List.Forall day_covered (daily_logs st).

(** Logs of consecutive days, the first of day [d0]. *)
Definition consecutive_from (d0 : Z) (logs : list daily_log) : Prop :=
  map log_date logs =
  map (fun i => (d0 + Z.of_nat i)%Z) (seq 0 (length logs)).

(** The saved days are consecutive from day [d0], and the open day is
    the next one. *)
Definition run_of_days (d0 : Z) (st : state) : Prop :=
  consecutive_from d0 (daily_logs st) /\
  date (day_start st) = (d0 + Z.of_nat (length (daily_logs st)))%Z.

(** A drive of 4 hours that starts at 22:00 of day 0, with the states
    before and after it. *)
Definition night_drive : segment := mkSegment "drive" 4 "Night".

Definition at_ten_pm : state := initial_state 22 0.

Definition after_night_drive : state :=
  Eval vm_compute in
    match process_segment 3 at_ten_pm night_drive with
    | Some st => st
    | None => at_ten_pm
    end.

End HosMore.

(** ** Further notions on the view *)

Module ViewsMore.

Import Views ViewsSpec.

(** A segment that the view plans between the pickup and the drop-off of
    a route that lasts [dur] hours: a drive of 11 hours at most, a fuelling
    stop, or a rest of 10 hours. *)
Definition planned_between (dur : Q) (seg : segment) : Prop :=
  (seg_type seg = "drive" /\ seg_duration seg <= 11 /\
   (0 <= dur -> 0 <= seg_duration seg)) \/
  seg = mkSegment "on_duty" 0.5 "Fueling Stop" \/
  seg = mkSegment "off_duty" 10 "Rest Break (10 hours)".

(** The sum of a quantity over the slices of a route. *)
Definition sum_over (f : route_segment -> Q) (slices : list route_segment) : Q :=
  fold_right (fun s acc => f s + acc) 0 slices.

(** The number of slices that [split_route_segments] makes. *)
Definition slices_of (route_data : route_data) : Z :=
  Z.max 1 (py_int (route_duration route_data / 11)).

(** A slice that is the equal share of its rank [segment_number] among
    [n] slices of the route. *)
Definition equal_share (route_data : route_data) (n : Z) (s : route_segment)
  : Prop :=
  start_distance s ==
    inject_Z (segment_number s - 1) * (route_distance route_data / inject_Z n) /\
  end_distance s ==
    inject_Z (segment_number s) * (route_distance route_data / inject_Z n) /\
  segment_distance s == route_distance route_data / inject_Z n /\
  segment_duration s == route_duration route_data / inject_Z n /\
  incl (segment_coordinates s) (route_geometry route_data).

(** A rest stop of a route: at a point of the geometry, after a whole
    number of hours between 8 and the duration, at the same share of the
    distance. *)
Definition stop_on_route (route_data : route_data) (s : rest_stop) : Prop :=
  In (stop_location s) (route_geometry route_data) /\
  8 <= time_from_start s /\
  time_from_start s <= route_duration route_data /\
  stop_distance s ==
    time_from_start s / route_duration route_data * route_distance route_data /\
  amenities s = ["Fuel"; "Food"; "Restrooms"; "Parking"].

(** The driver of the request, when one is given, is in the store. *)
Definition known_driver (req : request) (db : database) : Prop :=
  match driver_given req with
  | Some driver => driver ∈ drivers db
  | None => True
  end.

(** A request of driver 1 whose three positions are the same place, and
    a route of two slices. *)
Definition request_same_place : request :=
  mkRequest [0; 0] [0; 0] [0; 0] (Some 1%Z) None (Some 0) (Some 8).

Definition two_day_route : route_data :=
  mkRoute 1200 24 [(0, 0); (1, 1); (2, 2); (3, 3)].

(** [get_driver_logs] (lines 321-333): the records of the driver, the
    newest first, or 404 for a driver that the store does not know.  A
    row is the key [(driver, date)] with the record; the identifier, the
    name of the driver and the time stamps that the serializer adds are
    left out. *)
Inductive logs_outcome : Type :=
| Logs_200_OK : list (Z * Z * daily_rod) -> logs_outcome
| Logs_404_NOT_FOUND : logs_outcome.

(** [order_by('-date')]. *)
Definition newer_first (a b : Z * Z * daily_rod) : Prop :=
  (snd (fst b) <= snd (fst a))%Z.

Definition newer_first_dec (a b : Z * Z * daily_rod)
  : Decision (newer_first a b) := Z_le_dec (snd (fst b)) (snd (fst a)).

Definition strictly_newer (a b : Z * Z * daily_rod) : Prop :=
  (snd (fst b) < snd (fst a))%Z.

Definition rods_of_driver (db : database) (driver : Z)
  : list (Z * Z * daily_rod) :=
  List.filter (fun row => (fst (fst row) =? driver)%Z)
              (map_to_list (daily_rods db)).

Definition get_driver_logs (driver_id : Z) (db : database) : logs_outcome :=
  if decide (driver_id ∈ drivers db) then
    Logs_200_OK (sorting.merge_sort newer_first (H:=newer_first_dec)
                            (rods_of_driver db driver_id))
  else Logs_404_NOT_FOUND.

(** A route client that always answers with a route of 450 miles in 9
    hours, a request with no driver that starts on day 0 at 08:00, and the
    response of the view to it on the example store. *)
Definition fixed_route (_ _ _ : coord) : route_result :=
  Route (mkRoute 450 9 [(0, 0); (1, 1); (2, 2)]).

(** A conversion to decimals of two places, for the examples. *)
Definition two_places (x : Q) : Q := RouteClient.round2 x.

Definition request_without_driver : request :=
  mkRequest [0; 0] [1; 1] [2; 2] None None (Some 0) (Some 8).

Definition response_without_driver : response :=
  Eval vm_compute in
    match fst (plan_trip fixed_route two_places 10 10 request_without_driver
                         store_with_later_record) with
    | HTTP_200_OK r => r
    | _ => mkResponse (mkRoute 0 0 []) (route_statistics_of (mkRoute 0 0 []))
                      [] true [] []
    end.

(** The request with another value of [current_cycle_used_hours]. *)
Definition with_cycle_hours (req : request) (h : option Q) : request :=
  mkRequest (current_location req) (pickup req) (dropoff req)
            (driver_id req) h (start_date req) (start_time req).

(** The same request for driver 1, with the response to it. *)
Definition request_of_driver_1 : request :=
  mkRequest [0; 0] [1; 1] [2; 2] (Some 1%Z) None (Some 0) (Some 8).

Definition response_for_driver_1 : response :=
  Eval vm_compute in
    match fst (plan_trip fixed_route two_places 10 10 request_of_driver_1
                         store_with_later_record) with
    | HTTP_200_OK r => r
    | _ => mkResponse (mkRoute 0 0 []) (route_statistics_of (mkRoute 0 0 []))
                      [] true [] []
    end.

End ViewsMore.

(** ** Further notions on the route client *)

Module RouteMore.

Import RouteClient.

(** The figures that a provider gives for its first route are not
    negative. *)
Definition mapbox_figures_nonneg (r : reply mapbox_body) : Prop :=
  forall code data route others dist dur,
    r = Answered code (Some data) ->
    routes data = Some (route :: others) ->
    mb_distance route = Some dist -> mb_duration route = Some dur ->
    0 <= dist /\ 0 <= dur.

Definition ors_figures_nonneg (r : reply ors_body) : Prop :=
  forall code data feature others dist dur,
    r = Answered code (Some data) ->
    features data = Some (feature :: others) ->
    ors_distance feature = Some dist -> ors_duration feature = Some dur ->
    0 <= dist /\ 0 <= dur.

(** [y] is [x] to the nearest hundredth. *)
Definition to_the_hundredth (y x : Q) : Prop :=
  x - (1 # 200) <= y /\ y <= x + (1 # 200).

End RouteMore.

(** * Properties *)

(** ** Boolean comparisons *)

Lemma Qgtb_true (x y : Q) : Qgtb x y = true <-> y < x.
Proof.
  unfold Qgtb. rewrite negb_true_iff.
  split; intro H.
  - apply Qnot_le_lt. intro Hle. apply Qle_bool_iff in Hle. congruence.
  - destruct (Qle_bool x y) eqn:E; [|reflexivity].
    apply Qle_bool_iff in E. apply Qlt_not_le in H. contradiction.
Qed.

Lemma Qgtb_false (x y : Q) : Qgtb x y = false <-> x <= y.
Proof.
  unfold Qgtb. rewrite negb_false_iff. apply Qle_bool_iff.
Qed.

Lemma Qltb_true (x y : Q) : Qltb x y = true <-> x < y.
Proof. apply Qgtb_true. Qed.

Lemma Qltb_false (x y : Q) : Qltb x y = false <-> y <= x.
Proof. apply Qgtb_false. Qed.

Lemma Qmin_cases (x y : Q) :
  (x <= y /\ Qmin x y == x) \/ (y <= x /\ Qmin x y == y).
Proof.
  destruct (Qlt_le_dec y x) as [H|H].
  - right. split; [apply Qlt_le_weak, H|]. apply Q.min_r. apply Qlt_le_weak, H.
  - left. split; [exact H|]. apply Q.min_l. exact H.
Qed.

(** ** The clock *)

Module ClockFacts.

Import Clock.

Lemma floor_day_bounds (t : Q) :
  24 * inject_Z (Qfloor (t / 24)) <= t /\
  t < 24 * inject_Z (Qfloor (t / 24)) + 24.
Proof.
  assert (H := Qfloor_le (t / 24)).
  assert (H' := Qlt_floor (t / 24)).
  remember (Qfloor (t / 24)) as k eqn:Ek. clear Ek.
  rewrite inject_Z_plus in H'. change (inject_Z 1) with 1 in H'.
  change (t / 24) with (t * (1 # 24)) in H, H'.
  split; lra.
Qed.

Lemma midnight_le (t : Q) : midnight t <= t.
Proof.
  unfold midnight, date. rewrite inject_Z_mult.
  apply (floor_day_bounds t).
Qed.

Lemma midnight_gt (t : Q) : t < midnight t + 24.
Proof.
  unfold midnight, date. rewrite inject_Z_mult.
  apply (floor_day_bounds t).
Qed.

(** A time inside the day that opens at hour [24 * k] has date [k]. *)
Lemma date_unique (t : Q) (k : Z) :
  inject_Z (24 * k) <= t -> t < inject_Z (24 * k) + 24 -> date t = k.
Proof.
  intros Hlo Hhi. unfold date.
  rewrite inject_Z_mult in Hlo, Hhi. change (inject_Z 24) with 24 in Hlo, Hhi.
  assert (Hk : inject_Z k <= t / 24).
  { change (t / 24) with (t * (1 # 24)). lra. }
  assert (Hk' : t / 24 < inject_Z (k + 1)).
  { rewrite inject_Z_plus. change (inject_Z 1) with 1.
    change (t / 24) with (t * (1 # 24)). lra. }
  assert (H1 : (k <= Qfloor (t / 24))%Z).
  { rewrite <- (Qfloor_Z k). apply Qfloor_resp_le. exact Hk. }
  assert (H2 : (Qfloor (t / 24) < k + 1)%Z).
  { rewrite Zlt_Qlt. eapply Qle_lt_trans; [apply Qfloor_le|exact Hk']. }
  lia.
Qed.

Lemma date_midnight (t : Q) : date (midnight t) = date t.
Proof.
  apply date_unique; unfold midnight.
  - apply Qle_refl.
  - rewrite inject_Z_mult. lra.
Qed.

Lemma midnight_idem (t : Q) : midnight (midnight t) = midnight t.
Proof. unfold midnight at 1. rewrite date_midnight. reflexivity. Qed.

Lemma date_mono (a b : Q) : a <= b -> (date a <= date b)%Z.
Proof.
  intro H. unfold date. apply Qfloor_resp_le.
  change (a / 24) with (a * (1 # 24)). change (b / 24) with (b * (1 # 24)).
  lra.
Qed.

(** One day after a midnight is the next midnight. *)
Lemma date_day_end (t u : Q) :
  u == midnight t + 24 -> date u = (date t + 1)%Z.
Proof.
  intro H. unfold midnight in H. rewrite inject_Z_mult in H.
  change (inject_Z 24) with 24 in H.
  apply date_unique; rewrite inject_Z_mult, inject_Z_plus;
    change (inject_Z 24) with 24; change (inject_Z 1) with 1; lra.
Qed.

(** The end of a day is its own midnight. *)
Lemma midnight_of_day_end (ds t : Q) :
  midnight ds = ds -> t == ds + 24 -> midnight t == t.
Proof.
  intros Hds Ht.
  assert (Hd : date t = (date ds + 1)%Z).
  { apply date_day_end. rewrite Hds. exact Ht. }
  assert (Hq : ds == 24 * inject_Z (date ds)).
  { rewrite <- Hds at 1. unfold midnight. rewrite inject_Z_mult. reflexivity. }
  unfold midnight. rewrite Hd.
  rewrite inject_Z_mult, inject_Z_plus.
  change (inject_Z 24) with 24; change (inject_Z 1) with 1. lra.
Qed.

(** A time between a midnight and the end of its day, of another date,
    is the end of the day. *)
Lemma other_date_day_end (ds t : Q) :
  midnight ds = ds -> ds <= t -> t <= ds + 24 -> date t <> date ds ->
  t == ds + 24.
Proof.
  intros Hds Hlo Hhi Hne.
  destruct (Qlt_le_dec t (ds + 24)) as [Hlt|Hge]; [|lra].
  exfalso. apply Hne. apply date_unique.
  - unfold midnight in Hds. rewrite Hds. exact Hlo.
  - unfold midnight in Hds. rewrite Hds. exact Hlt.
Qed.

(** A time of the same date as a midnight lies in the day it opens. *)
Lemma same_date_lt (t ds : Q) :
  midnight ds = ds -> date t = date ds -> ds <= t /\ t < ds + 24.
Proof.
  intros Hds Hd. rewrite <- Hds. unfold midnight. rewrite <- Hd.
  split; [apply midnight_le|apply midnight_gt].
Qed.

(** A later time of another date is at the end of the day or after it. *)
Lemma next_date_later (ds t : Q) :
  midnight ds = ds -> ds <= t -> date t <> date ds -> ds + 24 <= t.
Proof.
  intros Hds Hlo Hne.
  destruct (Qlt_le_dec t (ds + 24)) as [Hlt|Hge]; [|exact Hge].
  exfalso. apply Hne. apply date_unique.
  - unfold midnight in Hds. rewrite Hds. exact Hlo.
  - unfold midnight in Hds. rewrite Hds. exact Hlt.
Qed.

End ClockFacts.

(** ** The scheduler: shape of the state, termination of the loops *)

Module HosFacts.

Import Clock ClockFacts Hos HosSpec.

Lemma emit_drive_advances : advances emit_drive.
Proof. intros st d loc. split; reflexivity. Qed.

Lemma emit_on_duty_advances : advances emit_on_duty.
Proof. intros st d loc. split; reflexivity. Qed.

Lemma emit_off_duty_advances : advances emit_off_duty.
Proof. intros st d loc. split; reflexivity. Qed.

Lemma initial_state_aligned (start w : Q) : aligned (initial_state start w).
Proof.
  unfold aligned, initial_state.
  destruct (Qgtb start (midnight start)); simpl; apply midnight_idem.
Qed.

Lemma weekly_check_aligned (st : state) : aligned st -> aligned (weekly_check st).
Proof.
  unfold aligned, weekly_check. destruct (Qgtb (weekly_hours st) 70); auto.
Qed.

Lemma new_day_check_current (st : state) :
  current_time (new_day_check st) = current_time st.
Proof.
  unfold new_day_check.
  destruct (Z.eqb _ _); [reflexivity|].
  destruct (Qgtb _ _); reflexivity.
Qed.

Lemma new_day_check_aligned (st : state) :
  aligned st -> aligned (new_day_check st).
Proof.
  unfold aligned, new_day_check. intro H.
  destruct (Z.eqb _ _); [exact H|].
  destruct (Qgtb _ _); simpl; apply midnight_idem.
Qed.

Lemma new_day_check_same_date (st : state) :
  date (current_time (new_day_check st)) = date (day_start (new_day_check st)).
Proof.
  unfold new_day_check.
  destruct (Z.eqb _ _) eqn:E; [apply Z.eqb_eq, E|].
  destruct (Qgtb _ _); simpl; symmetry; apply date_midnight.
Qed.

(** After the midnight block the clock is inside the open day. *)
Lemma new_day_check_in_day (st : state) :
  aligned st ->
  day_start (new_day_check st) <= current_time (new_day_check st) /\
  current_time (new_day_check st) < day_start (new_day_check st) + 24.
Proof.
  intro H. apply same_date_lt.
  - apply new_day_check_aligned, H.
  - apply new_day_check_same_date.
Qed.

(** When the clock stands at the end of the open day, the midnight block
    opens the next day, with the whole day left. *)
Lemma new_day_check_at_day_end (st : state) :
  aligned st -> current_time st == day_start st + 24 ->
  time_left_in_day (new_day_check st) == 24.
Proof.
  intros Ha Hc.
  assert (Hd : date (current_time st) = (date (day_start st) + 1)%Z).
  { apply date_day_end. rewrite Ha. exact Hc. }
  assert (Hm : midnight (current_time st) == current_time st).
  { assert (Hds : day_start st == 24 * inject_Z (date (day_start st))).
    { unfold aligned in Ha. rewrite <- Ha at 1.
      unfold midnight. rewrite inject_Z_mult. reflexivity. }
    unfold midnight. rewrite Hd.
    rewrite inject_Z_mult, inject_Z_plus.
    change (inject_Z 24) with 24; change (inject_Z 1) with 1. lra. }
  unfold time_left_in_day, new_day_check, one_day.
  destruct (Z.eqb _ _) eqn:E; [apply Z.eqb_eq in E; lia|].
  destruct (Qgtb _ _); simpl; lra.
Qed.

Lemma split_loop_unfold emit loc fuel st r :
  split_loop emit loc (S fuel) st r =
  if Qgtb r 0 then
    split_loop emit loc fuel (loop_step emit loc st r)
               (r - Qmin r (time_left_in_day (new_day_check st)))
  else Some st.
Proof. reflexivity. Qed.

(** A relation between the state and the remaining hours that every
    iteration keeps holds at the exit, where no hours remain. *)
Lemma split_loop_inv_rem (P : state -> Q -> Prop) emit loc :
  (forall st r, P st r -> 0 < r ->
                P (loop_step emit loc st r)
                  (r - Qmin r (time_left_in_day (new_day_check st)))) ->
  forall fuel st r st',
    P st r -> split_loop emit loc fuel st r = Some st' ->
    exists r', r' <= 0 /\ P st' r'.
Proof.
  intros Hstep fuel. induction fuel as [|fuel IH]; intros st r st' HP Hrun.
  - simpl in Hrun. destruct (Qgtb r 0) eqn:E; [discriminate|].
    injection Hrun as <-. apply Qgtb_false in E. eauto.
  - rewrite split_loop_unfold in Hrun.
    destruct (Qgtb r 0) eqn:E.
    + apply Qgtb_true in E. eapply IH; [|exact Hrun]. apply Hstep; assumption.
    + injection Hrun as <-. apply Qgtb_false in E. eauto.
Qed.

(** A property kept by every iteration holds when the loop ends. *)
Lemma split_loop_inv (P : state -> Prop) emit loc :
  (forall st r, P st -> 0 < r -> P (loop_step emit loc st r)) ->
  forall fuel st r st',
    P st -> split_loop emit loc fuel st r = Some st' -> P st'.
Proof.
  intros Hstep fuel st r st' HP Hrun.
  destruct (split_loop_inv_rem (fun s _ => P s) emit loc Hstep
                               fuel st r st' HP Hrun) as [_ [_ H]].
  exact H.
Qed.

Lemma loop_step_aligned emit loc st r :
  advances emit -> aligned st -> aligned (loop_step emit loc st r).
Proof.
  intros He Ha. unfold aligned, loop_step.
  destruct (He (new_day_check st)
               (Qmin r (time_left_in_day (new_day_check st))) loc) as [-> _].
  apply new_day_check_aligned, Ha.
Qed.

Lemma Qnat_S (n : nat) : Qnat (S n) == Qnat n + 1.
Proof.
  unfold Qnat. rewrite Nat2Z.inj_succ. unfold Z.succ.
  rewrite inject_Z_plus. reflexivity.
Qed.

(** The loop reaches its exit when the fuel covers the days that the
    remaining hours span. *)
Lemma split_loop_total emit loc :
  advances emit ->
  forall fuel st r,
    aligned st ->
    r <= 0 \/ r <= time_left_in_day (new_day_check st) + 24 * Qnat fuel - 24 ->
    exists st', split_loop emit loc fuel st r = Some st'.
Proof.
  intros He fuel. induction fuel as [|fuel IH]; intros st r Ha Hr.
  - assert (Hle : r <= 0).
    { destruct Hr as [Hr|Hr]; [exact Hr|].
      destruct (new_day_check_in_day st Ha) as [Hlo _].
      unfold time_left_in_day, one_day in Hr. change (Qnat 0) with 0 in Hr. lra. }
    simpl. apply Qgtb_false in Hle. rewrite Hle. eauto.
  - rewrite split_loop_unfold.
    destruct (Qgtb r 0) eqn:E; [|eauto].
    apply Qgtb_true in E.
    destruct Hr as [Hr|Hr]; [lra|].
    apply IH; [apply loop_step_aligned; assumption|].
    destruct (Qmin_cases r (time_left_in_day (new_day_check st))) as [[Hle Hm]|[Hle Hm]].
    + left. lra.
    + right.
      assert (Hend : time_left_in_day (new_day_check (loop_step emit loc st r)) == 24).
      { apply new_day_check_at_day_end; [apply loop_step_aligned; assumption|].
        unfold loop_step.
        destruct (He (new_day_check st)
                     (Qmin r (time_left_in_day (new_day_check st))) loc) as [-> ->].
        rewrite Hm. unfold time_left_in_day, one_day. lra. }
      rewrite Hend, Hm. rewrite Qnat_S in Hr. lra.
Qed.

Lemma loop_bound_covers (d : Q) : d <= 24 * Qnat (loop_bound d) - 24.
Proof.
  unfold loop_bound. rewrite !Qnat_S. unfold Qnat.
  assert (H := Qle_ceiling (d / 24)).
  assert (Hz : (Qceiling (d / 24) <= Z.of_nat (Z.to_nat (Qceiling (d / 24))))%Z) by lia.
  rewrite Zle_Qle in Hz.
  remember (inject_Z (Qceiling (d / 24))) as c eqn:Ec. clear Ec.
  remember (inject_Z (Z.of_nat (Z.to_nat (Qceiling (d / 24))))) as n eqn:En. clear En.
  change (d / 24) with (d * (1 # 24)) in H. lra.
Qed.

Lemma Qnat_le (m n : nat) : (m <= n)%nat -> Qnat m <= Qnat n.
Proof. intro H. unfold Qnat. rewrite <- Zle_Qle. lia. Qed.

Lemma split_loop_enough emit loc fuel st r :
  advances emit -> aligned st -> (loop_bound r <= fuel)%nat ->
  exists st', split_loop emit loc fuel st r = Some st'.
Proof.
  intros He Ha Hf. apply split_loop_total; [exact He|exact Ha|].
  right.
  destruct (new_day_check_in_day st Ha) as [_ Hhi].
  assert (H1 := loop_bound_covers r).
  assert (H2 := Qnat_le _ _ Hf).
  unfold time_left_in_day, one_day. lra.
Qed.

Lemma split_loop_aligned emit loc fuel st r st' :
  advances emit -> aligned st ->
  split_loop emit loc fuel st r = Some st' -> aligned st'.
Proof.
  intros He Ha. apply split_loop_inv; [|exact Ha].
  intros s q Hs _. apply loop_step_aligned; assumption.
Qed.

Lemma drive_checks_aligned st d : aligned st -> aligned (drive_checks st d).
Proof.
  unfold aligned, drive_checks, eight_hour_check, eleven_hour_check. intro H.
  destruct (Qgtb (daily_driving st + d) 11);
    match goal with |- context [if ?c then _ else _] => destruct c end;
    exact H.
Qed.

Lemma on_duty_checks_aligned st d : aligned st -> aligned (on_duty_checks st d).
Proof.
  unfold aligned, on_duty_checks. intro H.
  destruct (Qgtb (daily_on_duty st + d) 14); exact H.
Qed.

(** A segment is processed to its end, from any state whose open day
    starts at a midnight. *)
Lemma process_segment_total fuel st seg :
  aligned st -> (loop_bound (seg_duration seg) <= fuel)%nat ->
  exists st', process_segment fuel st seg = Some st' /\ aligned st'.
Proof.
  intros Ha Hf. unfold process_segment.
  assert (Ha1 := new_day_check_aligned st Ha).
  destruct (String.eqb (seg_type seg) "drive").
  { destruct (split_loop_enough emit_drive (seg_location seg) fuel
                (drive_checks (new_day_check st) (seg_duration seg))
                (seg_duration seg) emit_drive_advances
                (drive_checks_aligned _ _ Ha1) Hf) as [st' Hst'].
    exists st'. split; [exact Hst'|].
    eapply split_loop_aligned; [apply emit_drive_advances| |exact Hst'].
    apply drive_checks_aligned, Ha1. }
  destruct (String.eqb (seg_type seg) "on_duty").
  { destruct (split_loop_enough emit_on_duty (seg_location seg) fuel
                (on_duty_checks (new_day_check st) (seg_duration seg))
                (seg_duration seg) emit_on_duty_advances
                (on_duty_checks_aligned _ _ Ha1) Hf) as [st' Hst'].
    exists st'. split; [exact Hst'|].
    eapply split_loop_aligned; [apply emit_on_duty_advances| |exact Hst'].
    apply on_duty_checks_aligned, Ha1. }
  destruct (String.eqb (seg_type seg) "off_duty").
  { destruct (split_loop_enough emit_off_duty (seg_location seg) fuel
                (new_day_check st) (seg_duration seg) emit_off_duty_advances
                Ha1 Hf) as [st' Hst'].
    exists st'. split; [exact Hst'|].
    eapply split_loop_aligned; [apply emit_off_duty_advances| |exact Hst'].
    exact Ha1. }
  eauto.
Qed.

Lemma process_segment_aligned fuel st seg st' :
  aligned st -> process_segment fuel st seg = Some st' -> aligned st'.
Proof.
  intros Ha. unfold process_segment.
  assert (Ha1 := new_day_check_aligned st Ha).
  destruct (String.eqb (seg_type seg) "drive").
  { apply split_loop_aligned; [apply emit_drive_advances|].
    apply drive_checks_aligned, Ha1. }
  destruct (String.eqb (seg_type seg) "on_duty").
  { apply split_loop_aligned; [apply emit_on_duty_advances|].
    apply on_duty_checks_aligned, Ha1. }
  destruct (String.eqb (seg_type seg) "off_duty").
  { apply split_loop_aligned; [apply emit_off_duty_advances|exact Ha1]. }
  intro H. injection H as <-. exact Ha1.
Qed.

Lemma process_segments_total fuel segs :
  Forall (fun seg => (loop_bound (seg_duration seg) <= fuel)%nat) segs ->
  forall st, aligned st ->
             exists st', process_segments fuel st segs = Some st' /\ aligned st'.
Proof.
  induction 1 as [|seg rest Hseg _ IH]; intros st Ha; simpl.
  - eauto.
  - destruct (process_segment_total fuel st seg Ha Hseg) as [st1 [-> Ha1]].
    apply IH, Ha1.
Qed.

Lemma enough_fuel_covers segs :
  Forall (fun seg => (loop_bound (seg_duration seg) <= enough_fuel segs)%nat) segs.
Proof.
  induction segs as [|seg rest IH]; constructor; simpl.
  - apply Nat.le_max_l.
  - eapply List.Forall_impl; [|exact IH]. simpl. intros s Hs.
    etransitivity; [exact Hs|apply Nat.le_max_r].
Qed.

(** The scheduler returns its list of logs for every input. *)
Lemma hos_scheduler_total start segs weekly_used :
  exists logs, hos_scheduler start segs weekly_used = Some logs.
Proof.
  unfold hos_scheduler, hos_scheduler_fuel.
  destruct (process_segments_total _ segs (enough_fuel_covers segs)
              (weekly_check (initial_state start weekly_used))) as [st [-> _]].
  - apply weekly_check_aligned, initial_state_aligned.
  - eauto.
Qed.

End HosFacts.

(** ** The scheduler: the entries in the order of their emission *)

Module HosEntries.

Import Clock ClockFacts Hos HosSpec HosFacts.

Lemma emit_drive_appends : appends emit_drive "driving".
Proof. intros st d loc. split; reflexivity. Qed.

Lemma emit_on_duty_appends : appends emit_on_duty "on_duty".
Proof. intros st d loc. split; reflexivity. Qed.

Lemma emit_off_duty_appends : appends emit_off_duty "off_duty".
Proof. intros st d loc. split; reflexivity. Qed.

Lemma entries_of_app (l1 l2 : list daily_log) :
  entries_of (l1 ++ l2) = entries_of l1 ++ entries_of l2.
Proof. unfold entries_of. apply flat_map_app. Qed.

Lemma hours_with_app sts (l1 l2 : list entry) :
  hours_with sts (l1 ++ l2) == hours_with sts l1 + hours_with sts l2.
Proof.
  induction l1 as [|e l1 IH]; simpl.
  - lra.
  - destruct (String.eqb (status e) sts); rewrite IH; lra.
Qed.

Lemma hours_with_cons sts (e : entry) (l : list entry) :
  hours_with sts (e :: l) =
  if String.eqb (status e) sts then duration e + hours_with sts l
  else hours_with sts l.
Proof. reflexivity. Qed.

Lemma total_hours_app (l1 l2 : list entry) :
  total_hours (l1 ++ l2) == total_hours l1 + total_hours l2.
Proof.
  induction l1 as [|e l1 IH]; simpl.
  - lra.
  - rewrite IH; lra.
Qed.

Lemma extends_refl Pe st : extends Pe st st.
Proof. exists []. split; [symmetry; apply app_nil_r|constructor]. Qed.

Lemma extends_trans Pe st1 st2 st3 :
  extends Pe st1 st2 -> extends Pe st2 st3 -> extends Pe st1 st3.
Proof.
  intros [e1 [H1 F1]] [e2 [H2 F2]]. exists (e1 ++ e2). split.
  - rewrite H2, H1. symmetry. apply app_assoc.
  - apply List.Forall_app. split; assumption.
Qed.

Lemma extends_impl (Pe Qe : entry -> Prop) st st' :
  (forall e, Pe e -> Qe e) -> extends Pe st st' -> extends Qe st st'.
Proof.
  intros Himp [ext [H F]]. exists ext. split; [exact H|].
  eapply List.Forall_impl; [|exact F]. exact Himp.
Qed.

Lemma entries_of_snoc (l : list daily_log) (log : daily_log) :
  entries_of (l ++ [log]) = entries_of l ++ entries log.
Proof.
  rewrite entries_of_app. unfold entries_of at 2. simpl.
  rewrite app_nil_r. reflexivity.
Qed.

(** The midnight block adds nothing, or the filler of the new day. *)
Lemma new_day_check_entries (st : state) :
  all_entries (new_day_check st) = all_entries st \/
  all_entries (new_day_check st) =
    all_entries st ++
      [mkEntry "00:00" (strftime_HM (current_time st)) "off_duty" "Off Duty"
               (current_time st - midnight (current_time st))].
Proof.
  unfold new_day_check, all_entries.
  destruct (Z.eqb _ _); [left; reflexivity|].
  destruct (Qgtb _ _); cbn [daily_logs daily_entries];
    rewrite entries_of_snoc; cbn [entries close_day].
  - right. reflexivity.
  - left. apply app_nil_r.
Qed.

Lemma new_day_check_extends (st : state) :
  extends is_filler st (new_day_check st).
Proof.
  destruct (new_day_check_entries st) as [H|H].
  - exists []. split; [rewrite H; symmetry; apply app_nil_r|constructor].
  - eexists. split; [exact H|].
    constructor; [split; reflexivity|constructor].
Qed.

Lemma insert_rest_entries st d loc :
  all_entries (insert_rest st d loc) =
  all_entries st ++ [rest_entry (current_time st) d loc].
Proof. unfold all_entries, insert_rest. simpl. apply app_assoc. Qed.

Lemma emit_entries emit sts st d loc :
  appends emit sts ->
  all_entries (emit st d loc) = all_entries st ++ [timed_entry st d sts loc].
Proof.
  intro Ha. destruct (Ha st d loc) as [Hl He].
  unfold all_entries. rewrite Hl, He. apply app_assoc.
Qed.

Lemma loop_step_extends emit sts loc st r :
  appends emit sts ->
  extends (fun e => is_filler e \/ is_piece sts loc e) st (loop_step emit loc st r).
Proof.
  intro Ha. eapply extends_trans.
  - eapply extends_impl; [|apply new_day_check_extends]. auto.
  - unfold loop_step. eexists. split; [apply emit_entries, Ha|].
    constructor; [right; split; reflexivity|constructor].
Qed.

(** An inner loop adds pieces of the segment and fillers of new days. *)
Lemma split_loop_extends emit sts loc fuel st r st' :
  appends emit sts ->
  split_loop emit loc fuel st r = Some st' ->
  extends (fun e => is_filler e \/ is_piece sts loc e) st st'.
Proof.
  intros Ha Hrun.
  apply (split_loop_inv
           (extends (fun e => is_filler e \/ is_piece sts loc e) st)
           emit loc) with (fuel := fuel) (st := st) (r := r).
  - intros s q Hs _. eapply extends_trans; [exact Hs|].
    apply loop_step_extends, Ha.
  - apply extends_refl.
  - exact Hrun.
Qed.

(** The hours of the pieces are those of the segment, for a status other
    than the one of the fillers. *)
Lemma split_loop_hours emit sts loc fuel st r st' :
  appends emit sts -> String.eqb sts "off_duty" = false -> 0 <= r ->
  split_loop emit loc fuel st r = Some st' ->
  exists ext,
    all_entries st' = all_entries st ++ ext /\
    List.Forall (fun e => is_filler e \/ is_piece sts loc e) ext /\
    hours_with sts ext == r.
Proof.
  intros Ha Hsts Hr Hrun.
  destruct (split_loop_inv_rem
              (fun s q => 0 <= q /\
                 exists ext,
                   all_entries s = all_entries st ++ ext /\
                   List.Forall (fun e => is_filler e \/ is_piece sts loc e) ext /\
                   hours_with sts ext + q == r)
              emit loc) with (fuel := fuel) (st := st) (r := r) (st' := st')
    as [r' [Hr' [Hr0 [ext [He [Hf Hh]]]]]].
  - intros s q [Hq [ext [He [Hf Hh]]]] Hpos.
    split.
    { destruct (Qmin_cases q (time_left_in_day (new_day_check s)))
        as [[_ Hm]|[Hle Hm]]; rewrite Hm; lra. }
    unfold loop_step.
    set (chunk := Qmin q (time_left_in_day (new_day_check s))).
    destruct (new_day_check_entries s) as [Hn|Hn].
    + exists (ext ++ [timed_entry (new_day_check s) chunk sts loc]).
      split; [|split].
      * rewrite (emit_entries emit sts _ _ _ Ha), Hn, He. symmetry. apply app_assoc.
      * apply List.Forall_app. split; [exact Hf|].
        constructor; [right; split; reflexivity|constructor].
      * rewrite hours_with_app, hours_with_cons. cbn [status duration timed_entry].
        rewrite String.eqb_refl. change (hours_with sts []) with 0. lra.
    + eexists (ext ++ [_; timed_entry (new_day_check s) chunk sts loc]).
      split; [|split].
      * rewrite (emit_entries emit sts _ _ _ Ha), Hn, He.
        rewrite <- !app_assoc. reflexivity.
      * apply List.Forall_app. split; [exact Hf|].
        constructor; [left; split; reflexivity|].
        constructor; [right; split; reflexivity|constructor].
      * rewrite hours_with_app, !hours_with_cons. cbn [status duration timed_entry].
        rewrite String.eqb_refl, (String.eqb_sym "off_duty" sts), Hsts.
        change (hours_with sts []) with 0. lra.
  - split; [exact Hr|]. exists []. split; [symmetry; apply app_nil_r|].
    split; [constructor|]. simpl. lra.
  - exact Hrun.
  - exists ext. split; [exact He|]. split; [exact Hf|]. lra.
Qed.

Lemma insert_rest_extends (Pe : entry -> Prop) st d loc :
  Pe (rest_entry (current_time st) d loc) ->
  extends Pe st (insert_rest st d loc).
Proof.
  intro H. eexists. split; [apply insert_rest_entries|].
  constructor; [exact H|constructor].
Qed.

Lemma eleven_hour_check_extends st d :
  extends (labelled scheduler_labels) st (eleven_hour_check st d).
Proof.
  unfold eleven_hour_check. destruct (Qgtb _ _); [|apply extends_refl].
  apply (insert_rest_extends (labelled scheduler_labels) st 10).
  unfold labelled, scheduler_labels. simpl. auto.
Qed.

Lemma eight_hour_check_extends st d :
  extends (labelled scheduler_labels) st (eight_hour_check st d).
Proof.
  unfold eight_hour_check. destruct (Qgtb _ _); [|apply extends_refl].
  apply (insert_rest_extends (labelled scheduler_labels) st (1 # 2)).
  unfold labelled, scheduler_labels. simpl. auto.
Qed.

Lemma on_duty_checks_extends st d :
  extends (labelled scheduler_labels) st (on_duty_checks st d).
Proof.
  unfold on_duty_checks. destruct (Qgtb _ _); [|apply extends_refl].
  apply (insert_rest_extends (labelled scheduler_labels) st 10).
  unfold labelled, scheduler_labels. simpl. auto.
Qed.

Lemma filler_labelled loc e : is_filler e -> labelled (loc :: scheduler_labels) e.
Proof. intros [_ H]. unfold labelled. rewrite H. simpl. auto. Qed.

Lemma piece_labelled sts loc e :
  is_filler e \/ is_piece sts loc e -> labelled (loc :: scheduler_labels) e.
Proof.
  intros [H|[_ H]]; [apply filler_labelled, H|].
  unfold labelled. rewrite H. simpl. auto.
Qed.

(** Processing a segment adds entries that carry the label of the
    segment or one of the labels of the scheduler. *)
Lemma process_segment_extends fuel st seg st' :
  process_segment fuel st seg = Some st' ->
  extends (labelled (seg_location seg :: scheduler_labels)) st st'.
Proof.
  unfold process_segment. intro Hrun.
  eapply extends_trans.
  { eapply extends_impl; [|apply new_day_check_extends].
    apply filler_labelled. }
  destruct (String.eqb (seg_type seg) "drive").
  { eapply extends_trans; [|eapply extends_impl;
      [|eapply split_loop_extends; [apply emit_drive_appends|exact Hrun]];
      apply piece_labelled].
    unfold drive_checks.
    eapply extends_impl with (Pe := labelled scheduler_labels);
      [intros e He; right; exact He|].
    eapply extends_trans;
      [apply eleven_hour_check_extends|apply eight_hour_check_extends]. }
  destruct (String.eqb (seg_type seg) "on_duty").
  { eapply extends_trans; [|eapply extends_impl;
      [|eapply split_loop_extends; [apply emit_on_duty_appends|exact Hrun]];
      apply piece_labelled].
    eapply extends_impl with (Pe := labelled scheduler_labels);
      [intros e He; right; exact He|].
    apply on_duty_checks_extends. }
  destruct (String.eqb (seg_type seg) "off_duty").
  { eapply extends_impl;
      [|eapply split_loop_extends; [apply emit_off_duty_appends|exact Hrun]].
    apply piece_labelled. }
  injection Hrun as <-. apply extends_refl.
Qed.

Lemma process_segments_extends fuel segs :
  forall st st',
    process_segments fuel st segs = Some st' ->
    extends (labelled (map seg_location segs ++ scheduler_labels)) st st'.
Proof.
  induction segs as [|seg rest IH]; intros st st' Hrun; simpl in Hrun.
  - injection Hrun as <-. apply extends_refl.
  - destruct (process_segment fuel st seg) as [st1|] eqn:E; [|discriminate].
    eapply extends_trans.
    + eapply extends_impl; [|apply (process_segment_extends _ _ _ _ E)].
      unfold labelled. intros e [He|He]; simpl; [auto|].
      right. apply in_or_app. right. exact He.
    + eapply extends_impl; [|apply (IH _ _ Hrun)].
      unfold labelled. intros e He. simpl. auto.
Qed.

(** The logs returned hold the entries emitted, and at most one more,
    the off-duty end of the last day. *)
Lemma finish_entries (st : state) :
  exists last,
    entries_of (finish st) = all_entries st ++ last /\
    List.Forall is_filler last.
Proof.
  unfold finish, all_entries.
  destruct (Qltb _ _); unfold set_weekly_hours; cbn [daily_logs];
    rewrite entries_of_snoc; unfold close_day; cbn [entries daily_entries].
  - eexists. split; [rewrite app_assoc; reflexivity|].
    constructor; [split; reflexivity|constructor].
  - exists []. split; [rewrite app_nil_r; reflexivity|constructor].
Qed.

End HosEntries.

(** ** The scheduler: properties kept along a run *)

Module HosInvariants.

Import Clock ClockFacts Hos HosSpec HosFacts HosEntries.

(** A property kept by the midnight block and by the iterations of the
    three loops is kept by a segment for which no rest is due. *)
Lemma process_segment_quiet_inv (P : state -> Prop) fuel st seg st' :
  (forall s, P s -> P (new_day_check s)) ->
  (forall s r loc, P s -> 0 < r -> P (loop_step emit_drive loc s r)) ->
  (forall s r loc, P s -> 0 < r -> P (loop_step emit_on_duty loc s r)) ->
  (forall s r loc, P s -> 0 < r -> P (loop_step emit_off_duty loc s r)) ->
  rest_due st seg = false ->
  P st -> process_segment fuel st seg = Some st' -> P st'.
Proof.
  intros Hn Hd Ho Hf Hq HP. unfold process_segment, rest_due in *.
  assert (H1 := Hn st HP).
  destruct (String.eqb (seg_type seg) "drive").
  { apply orb_false_iff in Hq. destruct Hq as [Hq1 Hq2].
    unfold drive_checks, eleven_hour_check. rewrite Hq1.
    unfold eight_hour_check. rewrite Hq2.
    apply split_loop_inv; [|exact H1]. intros s r. apply Hd. }
  destruct (String.eqb (seg_type seg) "on_duty").
  { unfold on_duty_checks. rewrite Hq.
    apply split_loop_inv; [|exact H1]. intros s r. apply Ho. }
  destruct (String.eqb (seg_type seg) "off_duty").
  { apply split_loop_inv; [|exact H1]. intros s r. apply Hf. }
  intro H. injection H as <-. exact H1.
Qed.

(** The same for every segment, when the tests made before the drive and
    on-duty segments keep the property too. *)
Lemma process_segment_inv (P : state -> Prop) fuel st seg st' :
  (forall s, P s -> P (new_day_check s)) ->
  (forall s d, P s -> P (drive_checks s d)) ->
  (forall s d, P s -> P (on_duty_checks s d)) ->
  (forall s r loc, P s -> 0 < r -> P (loop_step emit_drive loc s r)) ->
  (forall s r loc, P s -> 0 < r -> P (loop_step emit_on_duty loc s r)) ->
  (forall s r loc, P s -> 0 < r -> P (loop_step emit_off_duty loc s r)) ->
  P st -> process_segment fuel st seg = Some st' -> P st'.
Proof.
  intros Hn Hcd Hco Hd Ho Hf HP. unfold process_segment.
  assert (H1 := Hn st HP).
  destruct (String.eqb (seg_type seg) "drive").
  { apply split_loop_inv; [|apply Hcd, H1]. intros s r. apply Hd. }
  destruct (String.eqb (seg_type seg) "on_duty").
  { apply split_loop_inv; [|apply Hco, H1]. intros s r. apply Ho. }
  destruct (String.eqb (seg_type seg) "off_duty").
  { apply split_loop_inv; [|exact H1]. intros s r. apply Hf. }
  intro H. injection H as <-. exact H1.
Qed.

Lemma process_segments_inv (P : state -> Prop) fuel segs :
  (forall s seg s', P s -> process_segment fuel s seg = Some s' -> P s') ->
  forall st st', P st -> process_segments fuel st segs = Some st' -> P st'.
Proof.
  intro Hseg. induction segs as [|seg rest IH]; intros st st' HP Hrun;
    simpl in Hrun.
  - injection Hrun as <-. exact HP.
  - destruct (process_segment fuel st seg) as [st1|] eqn:E; [|discriminate].
    eapply IH; [|exact Hrun]. eapply Hseg; [exact HP|exact E].
Qed.

(** *** The saved days are in strictly ascending order *)

Lemma ascending_snoc (l : list Z) (x : Z) :
  ascending l -> List.Forall (fun y => (y < x)%Z) l -> ascending (l ++ [x]).
Proof.
  induction l as [|a l IH]; simpl; intros Ha Hl.
  - split; constructor.
  - destruct Ha as [Hal Ha]. inversion Hl as [|? ? Hax Hl']; subst.
    split; [|apply IH; assumption].
    apply List.Forall_app. split; [exact Hal|].
    constructor; [exact Hax|constructor].
Qed.

Lemma ordered_new_day_check s : ordered s -> ordered (new_day_check s).
Proof.
  intros [Ha [Hc [Hs Hl]]].
  assert (Hal := new_day_check_aligned s Ha).
  unfold ordered. split; [exact Hal|].
  unfold new_day_check in *.
  destruct (Z.eqb _ _) eqn:E; [auto|].
  apply Z.eqb_neq in E.
  assert (Hlt : (date (day_start s) < date (current_time s))%Z).
  { assert (H := date_mono _ _ Hc). lia. }
  assert (Hlogs :
    ascending (map log_date (daily_logs s ++ [close_day s])) /\
    List.Forall (fun log => (log_date log < date (midnight (current_time s)))%Z)
                (daily_logs s ++ [close_day s])).
  { rewrite date_midnight. split.
    - rewrite map_app. apply ascending_snoc; [exact Hs|].
      apply List.Forall_map. exact Hl.
    - apply List.Forall_app. split.
      + eapply List.Forall_impl; [|exact Hl]. simpl. intros g Hg. lia.
      + constructor; [exact Hlt|constructor]. }
  destruct (Qgtb _ _); cbn [day_start current_time daily_logs];
    (split; [apply midnight_le|exact Hlogs]).
Qed.

Lemma ordered_insert_rest s d loc :
  0 <= d -> ordered s -> ordered (insert_rest s d loc).
Proof.
  intros Hd [Ha [Hc [Hs Hl]]]. unfold ordered, aligned, insert_rest in *.
  cbn [day_start current_time daily_logs].
  repeat split; try assumption. lra.
Qed.

Lemma ordered_drive_checks s d : ordered s -> ordered (drive_checks s d).
Proof.
  intro H. unfold drive_checks.
  assert (H1 : ordered (eleven_hour_check s d)).
  { unfold eleven_hour_check. destruct (Qgtb _ _); [|exact H].
    apply (ordered_insert_rest s 10 "Rest Break (10 hours)") in H; [|lra].
    exact H. }
  unfold eight_hour_check. destruct (Qgtb _ _); [|exact H1].
  apply (ordered_insert_rest _ (1 # 2) "30-min Break") in H1; [|lra].
  exact H1.
Qed.

Lemma ordered_on_duty_checks s d : ordered s -> ordered (on_duty_checks s d).
Proof.
  intro H. unfold on_duty_checks. destruct (Qgtb _ _); [|exact H].
  apply (ordered_insert_rest s 10 "14-hour Reset") in H; [|lra].
  exact H.
Qed.

(** The piece of an iteration is positive: hours remain, and the midnight
    block leaves the clock inside the open day. *)
Lemma chunk_bounds s r :
  aligned s -> 0 < r ->
  0 < Qmin r (time_left_in_day (new_day_check s)) /\
  Qmin r (time_left_in_day (new_day_check s)) <= r /\
  Qmin r (time_left_in_day (new_day_check s)) <=
    time_left_in_day (new_day_check s).
Proof.
  intros Ha Hr.
  destruct (new_day_check_in_day s Ha) as [_ Hhi].
  assert (Htl : 0 < time_left_in_day (new_day_check s)).
  { unfold time_left_in_day, one_day. lra. }
  destruct (Qmin_cases r (time_left_in_day (new_day_check s)))
    as [[Hle Hm]|[Hle Hm]]; rewrite Hm; repeat split; lra.
Qed.

Lemma ordered_loop_step emit sts loc s r :
  advances emit -> appends emit sts ->
  ordered s -> 0 < r -> ordered (loop_step emit loc s r).
Proof.
  intros Hadv Happ Ho Hr.
  destruct (chunk_bounds s r (proj1 Ho) Hr) as [Hpos _].
  apply ordered_new_day_check in Ho. destruct Ho as [Ha [Hc [Hs Hl]]].
  unfold loop_step, ordered, aligned in *.
  destruct (Hadv (new_day_check s)
              (Qmin r (time_left_in_day (new_day_check s))) loc) as [-> ->].
  destruct (Happ (new_day_check s)
              (Qmin r (time_left_in_day (new_day_check s))) loc) as [-> _].
  repeat split; try assumption. lra.
Qed.

Lemma ordered_process_segment fuel st seg st' :
  ordered st -> process_segment fuel st seg = Some st' -> ordered st'.
Proof.
  apply process_segment_inv.
  - apply ordered_new_day_check.
  - intros s d. apply ordered_drive_checks.
  - intros s d. apply ordered_on_duty_checks.
  - intros s r loc. apply (ordered_loop_step emit_drive "driving");
      [apply emit_drive_advances|apply emit_drive_appends].
  - intros s r loc. apply (ordered_loop_step emit_on_duty "on_duty");
      [apply emit_on_duty_advances|apply emit_on_duty_appends].
  - intros s r loc. apply (ordered_loop_step emit_off_duty "off_duty");
      [apply emit_off_duty_advances|apply emit_off_duty_appends].
Qed.

Lemma ordered_initial start w : ordered (weekly_check (initial_state start w)).
Proof.
  assert (H : ordered (initial_state start w)).
  { unfold ordered. split; [apply initial_state_aligned|].
    unfold initial_state.
    destruct (Qgtb _ _); cbn [day_start current_time daily_logs];
      (split; [apply midnight_le|split; [exact I|constructor]]). }
  unfold weekly_check. destruct (Qgtb _ _); [|exact H].
  apply (ordered_insert_rest _ 34 "34-hour Restart") in H; [|lra].
  exact H.
Qed.

Lemma finish_dates st :
  ordered st -> ascending (map log_date (finish st)).
Proof.
  intros [_ [_ [Hs Hl]]]. unfold finish.
  destruct (Qltb _ _); unfold set_weekly_hours; cbn [daily_logs];
    rewrite map_app; (apply ascending_snoc; [exact Hs|]);
    apply List.Forall_map; exact Hl.
Qed.

(** The dates of the logs returned are strictly ascending. *)
Lemma hos_scheduler_dates_ascending start segs w logs :
  hos_scheduler start segs w = Some logs -> ascending (map log_date logs).
Proof.
  unfold hos_scheduler, hos_scheduler_fuel.
  destruct (process_segments _ _ segs) as [st|] eqn:E; [|discriminate].
  intro H. injection H as <-. apply finish_dates.
  eapply process_segments_inv; [|apply ordered_initial|exact E].
  intros s seg s'. apply ordered_process_segment.
Qed.

(** *** A run without rest accounts for every day *)

Lemma hours_with_snoc sts (l : list entry) (e : entry) :
  hours_with sts (l ++ [e]) ==
  hours_with sts l + (if String.eqb (status e) sts then duration e else 0).
Proof.
  rewrite hours_with_app, hours_with_cons.
  change (hours_with sts []) with 0.
  destruct (String.eqb (status e) sts); lra.
Qed.

Lemma total_hours_snoc (l : list entry) (e : entry) :
  total_hours (l ++ [e]) == total_hours l + duration e.
Proof. rewrite total_hours_app. simpl. lra. Qed.

Lemma day_ok_new_day_check s : day_ok s -> day_ok (new_day_check s).
Proof.
  intros [Ha [Hlo [Hhi [Hsum [Htot [[Hd [Ho Hf]] Hlogs]]]]]].
  unfold new_day_check.
  destruct (Z.eqb _ _) eqn:E.
  { repeat split; assumption. }
  apply Z.eqb_neq in E.
  assert (Hend := other_date_day_end _ _ Ha Hlo Hhi E).
  assert (Hm := midnight_of_day_end _ _ Ha Hend).
  destruct (Qgtb _ _) eqn:G.
  { apply Qgtb_true in G. lra. }
  unfold day_ok, aligned, totals_of_entries, close_day.
  cbn [day_start current_time daily_logs daily_entries daily_driving
       daily_on_duty daily_off_duty entries driving_hours on_duty_hours
       off_duty_hours].
  split; [apply midnight_idem|].
  split; [lra|]. split; [lra|]. split; [lra|].
  split; [simpl; lra|].
  split; [simpl; repeat split; lra|].
  apply List.Forall_app. split; [exact Hlogs|].
  constructor; [|constructor].
  unfold log_ok, totals_of_entries, close_day in *.
  cbn [entries driving_hours on_duty_hours off_duty_hours] in *.
  repeat split; try assumption; lra.
Qed.

Lemma day_ok_loop_step_drive loc s r :
  day_ok s -> 0 < r -> day_ok (loop_step emit_drive loc s r).
Proof.
  intros Hs Hr.
  destruct (chunk_bounds s r (proj1 Hs) Hr) as [Hpos [_ Hle]].
  apply day_ok_new_day_check in Hs.
  destruct Hs as [Ha [Hlo [Hhi [Hsum [Htot [[Hd [Ho Hf]] Hlogs]]]]]].
  unfold loop_step.
  set (chunk := Qmin r (time_left_in_day (new_day_check s))) in *.
  unfold time_left_in_day, one_day in Hle.
  unfold day_ok, aligned, totals_of_entries, close_day, emit_drive in *.
  cbn [day_start current_time daily_logs daily_entries daily_driving
       daily_on_duty daily_off_duty entries driving_hours on_duty_hours
       off_duty_hours] in *.
  rewrite !hours_with_snoc, total_hours_snoc.
  cbn [status duration timed_entry]. status_tests.
  repeat split; try assumption; lra.
Qed.

Lemma day_ok_loop_step_on_duty loc s r :
  day_ok s -> 0 < r -> day_ok (loop_step emit_on_duty loc s r).
Proof.
  intros Hs Hr.
  destruct (chunk_bounds s r (proj1 Hs) Hr) as [Hpos [_ Hle]].
  apply day_ok_new_day_check in Hs.
  destruct Hs as [Ha [Hlo [Hhi [Hsum [Htot [[Hd [Ho Hf]] Hlogs]]]]]].
  unfold loop_step.
  set (chunk := Qmin r (time_left_in_day (new_day_check s))) in *.
  unfold time_left_in_day, one_day in Hle.
  unfold day_ok, aligned, totals_of_entries, close_day, emit_on_duty in *.
  cbn [day_start current_time daily_logs daily_entries daily_driving
       daily_on_duty daily_off_duty entries driving_hours on_duty_hours
       off_duty_hours] in *.
  rewrite !hours_with_snoc, total_hours_snoc.
  cbn [status duration timed_entry]. status_tests.
  repeat split; try assumption; lra.
Qed.

Lemma day_ok_loop_step_off_duty loc s r :
  day_ok s -> 0 < r -> day_ok (loop_step emit_off_duty loc s r).
Proof.
  intros Hs Hr.
  destruct (chunk_bounds s r (proj1 Hs) Hr) as [Hpos [_ Hle]].
  apply day_ok_new_day_check in Hs.
  destruct Hs as [Ha [Hlo [Hhi [Hsum [Htot [[Hd [Ho Hf]] Hlogs]]]]]].
  unfold loop_step.
  set (chunk := Qmin r (time_left_in_day (new_day_check s))) in *.
  unfold time_left_in_day, one_day in Hle.
  unfold day_ok, aligned, totals_of_entries, close_day, emit_off_duty in *.
  cbn [day_start current_time daily_logs daily_entries daily_driving
       daily_on_duty daily_off_duty entries driving_hours on_duty_hours
       off_duty_hours] in *.
  rewrite !hours_with_snoc, total_hours_snoc.
  cbn [status duration timed_entry]. status_tests.
  repeat split; try assumption; lra.
Qed.

Lemma day_ok_initial start w : day_ok (initial_state start w).
Proof.
  assert (Hlo := midnight_le start). assert (Hhi := midnight_gt start).
  unfold day_ok, aligned, totals_of_entries, close_day, initial_state.
  destruct (Qgtb _ _) eqn:G;
    [apply Qgtb_true in G|apply Qgtb_false in G];
    cbn [day_start current_time daily_logs daily_entries daily_driving
         daily_on_duty daily_off_duty entries driving_hours on_duty_hours
         off_duty_hours];
    (split; [apply midnight_idem|]);
    simpl; repeat split; try lra; apply List.Forall_nil.
Qed.

Lemma day_ok_quiet_segment fuel st seg st' :
  rest_due st seg = false ->
  day_ok st -> process_segment fuel st seg = Some st' -> day_ok st'.
Proof.
  apply process_segment_quiet_inv.
  - apply day_ok_new_day_check.
  - intros s r loc. apply day_ok_loop_step_drive.
  - intros s r loc. apply day_ok_loop_step_on_duty.
  - intros s r loc. apply day_ok_loop_step_off_duty.
Qed.

Lemma day_ok_quiet_run fuel segs :
  forall st st',
    no_rest_along fuel st segs = true ->
    day_ok st -> process_segments fuel st segs = Some st' -> day_ok st'.
Proof.
  induction segs as [|seg rest IH]; intros st st' Hq Hok Hrun;
    simpl in Hq, Hrun.
  - injection Hrun as <-. exact Hok.
  - apply andb_true_iff in Hq. destruct Hq as [Hq1 Hq2].
    apply negb_true_iff in Hq1.
    destruct (process_segment fuel st seg) as [st1|] eqn:E; [|discriminate].
    eapply IH; [exact Hq2| |exact Hrun].
    eapply day_ok_quiet_segment; [exact Hq1|exact Hok|exact E].
Qed.

Lemma finish_ok st : day_ok st -> List.Forall log_ok (finish st).
Proof.
  intros [Ha [Hlo [Hhi [Hsum [Htot [[Hd [Ho Hf]] Hlogs]]]]]].
  unfold finish. apply List.Forall_app.
  destruct (Qltb _ _) eqn:G;
    [apply Qltb_true in G|apply Qltb_false in G];
    unfold set_weekly_hours; cbn [daily_logs];
    (split; [exact Hlogs|]); (constructor; [|constructor]);
    unfold log_ok, totals_of_entries, close_day, one_day in *;
    cbn [day_start current_time daily_logs daily_entries daily_driving
         daily_on_duty daily_off_duty entries driving_hours on_duty_hours
         off_duty_hours] in *.
  - rewrite !hours_with_snoc, total_hours_snoc.
    cbn [status duration]. status_tests.
    repeat split; try assumption; lra.
  - repeat split; try assumption; lra.
Qed.

(** *** The totals of a day stay within 58 hours *)

Lemma within_weaken (b b' : Q) (s : state) :
  b <= b' -> within b s -> within b' s.
Proof.
  intros Hb [Ha [Hlo [Hhi H]]].
  split; [exact Ha|]. split; [exact Hlo|]. split; [lra|exact H].
Qed.

Lemma within_new_day_check s : within 58 s -> within 24 (new_day_check s).
Proof.
  intros [Ha [Hlo [Hhi [Hd [Ho [Hf Hlogs]]]]]].
  destruct (new_day_check_in_day s Ha) as [Hin1 Hin2].
  assert (Hal := new_day_check_aligned s Ha).
  unfold within. split; [exact Hal|]. split; [exact Hin1|]. split; [lra|].
  unfold new_day_check in *.
  destruct (Z.eqb _ _); [repeat (split; [assumption|]); exact Hlogs|].
  assert (Hclosed : List.Forall day_within (daily_logs s ++ [close_day s])).
  { apply List.Forall_app. split; [exact Hlogs|].
    constructor; [|constructor]. unfold day_within, close_day.
    cbn [driving_hours on_duty_hours off_duty_hours].
    repeat split; lra. }
  destruct (Qgtb _ _);
    cbn [day_start current_time daily_logs daily_driving daily_on_duty
         daily_off_duty] in *;
    (split; [split; lra|]); (split; [split; lra|]);
    (split; [split; lra|exact Hclosed]).
Qed.

Lemma within_insert_rest (b d : Q) s loc :
  0 <= d -> within b s -> within (b + d) (insert_rest s d loc).
Proof.
  intros Hd [Ha [Hlo [Hhi [[Hd1 Hd2] [[Ho1 Ho2] [[Hf1 Hf2] Hlogs]]]]]].
  unfold within, insert_rest.
  cbn [day_start current_time daily_logs daily_driving daily_on_duty
       daily_off_duty].
  split; [exact Ha|].
  repeat (split; [lra|]). exact Hlogs.
Qed.

Lemma within_drive_checks s d : within 24 s -> within 58 (drive_checks s d).
Proof.
  intro H. unfold drive_checks.
  assert (H1 : within 34 (eleven_hour_check s d)).
  { unfold eleven_hour_check. destruct (Qgtb _ _);
      [|apply (within_weaken 24); [lra|exact H]].
    assert (Hr := within_insert_rest 24 10 s "Rest Break (10 hours)"
                    ltac:(lra) H).
    destruct Hr as [Ha [Hlo [Hhi [[Hd1 Hd2] [Ho [Hf Hlogs]]]]]].
    unfold within, set_consecutive_driving, set_daily_driving.
    cbn [day_start current_time daily_logs daily_driving daily_on_duty
         daily_off_duty] in *.
    split; [exact Ha|]. split; [exact Hlo|]. split; [lra|].
    split; [split; lra|]. split; [exact Ho|]. split; [exact Hf|exact Hlogs]. }
  unfold eight_hour_check. destruct (Qgtb _ _);
    [|apply (within_weaken 34); [lra|exact H1]].
  apply (within_weaken (34 + (1 # 2))); [lra|].
  apply (within_insert_rest 34 (1 # 2) _ "30-min Break"); [lra|exact H1].
Qed.

Lemma within_on_duty_checks s d :
  within 24 s -> within 58 (on_duty_checks s d).
Proof.
  intro H. unfold on_duty_checks. destruct (Qgtb _ _);
    [|apply (within_weaken 24); [lra|exact H]].
  assert (Hr := within_insert_rest 24 10 s "14-hour Reset" ltac:(lra) H).
  destruct Hr as [Ha [Hlo [Hhi [Hd [[Ho1 Ho2] [Hf Hlogs]]]]]].
  unfold within, set_daily_on_duty.
  cbn [day_start current_time daily_logs daily_driving daily_on_duty
       daily_off_duty] in *.
  split; [exact Ha|]. split; [exact Hlo|]. split; [lra|].
  split; [exact Hd|]. split; [split; lra|]. split; [exact Hf|exact Hlogs].
Qed.

Lemma within_loop_step_drive loc s r :
  within 58 s -> 0 < r -> within 58 (loop_step emit_drive loc s r).
Proof.
  intros Hs Hr.
  destruct (chunk_bounds s r (proj1 Hs) Hr) as [Hpos [_ Hle]].
  apply within_new_day_check in Hs.
  destruct Hs as [Ha [Hlo [Hhi [[Hd1 Hd2] [[Ho1 Ho2] [[Hf1 Hf2] Hlogs]]]]]].
  unfold loop_step.
  set (chunk := Qmin r (time_left_in_day (new_day_check s))) in *.
  unfold time_left_in_day, one_day in Hle.
  unfold within, emit_drive.
  cbn [day_start current_time daily_logs daily_driving daily_on_duty
       daily_off_duty] in *.
  split; [exact Ha|]. repeat (split; [lra|]). exact Hlogs.
Qed.

Lemma within_loop_step_on_duty loc s r :
  within 58 s -> 0 < r -> within 58 (loop_step emit_on_duty loc s r).
Proof.
  intros Hs Hr.
  destruct (chunk_bounds s r (proj1 Hs) Hr) as [Hpos [_ Hle]].
  apply within_new_day_check in Hs.
  destruct Hs as [Ha [Hlo [Hhi [[Hd1 Hd2] [[Ho1 Ho2] [[Hf1 Hf2] Hlogs]]]]]].
  unfold loop_step.
  set (chunk := Qmin r (time_left_in_day (new_day_check s))) in *.
  unfold time_left_in_day, one_day in Hle.
  unfold within, emit_on_duty.
  cbn [day_start current_time daily_logs daily_driving daily_on_duty
       daily_off_duty] in *.
  split; [exact Ha|]. repeat (split; [lra|]). exact Hlogs.
Qed.

Lemma within_loop_step_off_duty loc s r :
  within 58 s -> 0 < r -> within 58 (loop_step emit_off_duty loc s r).
Proof.
  intros Hs Hr.
  destruct (chunk_bounds s r (proj1 Hs) Hr) as [Hpos [_ Hle]].
  apply within_new_day_check in Hs.
  destruct Hs as [Ha [Hlo [Hhi [[Hd1 Hd2] [[Ho1 Ho2] [[Hf1 Hf2] Hlogs]]]]]].
  unfold loop_step.
  set (chunk := Qmin r (time_left_in_day (new_day_check s))) in *.
  unfold time_left_in_day, one_day in Hle.
  unfold within, emit_off_duty.
  cbn [day_start current_time daily_logs daily_driving daily_on_duty
       daily_off_duty] in *.
  split; [exact Ha|]. repeat (split; [lra|]). exact Hlogs.
Qed.

(** The tests that insert a rest are made when the clock is inside the
    open day, so that a rest ends less than 58 hours after its midnight. *)
Lemma within_process_segment fuel st seg st' :
  within 58 st -> process_segment fuel st seg = Some st' -> within 58 st'.
Proof.
  intro H. apply within_new_day_check in H. unfold process_segment.
  destruct (String.eqb (seg_type seg) "drive").
  { apply split_loop_inv; [|apply within_drive_checks, H].
    intros s r. apply within_loop_step_drive. }
  destruct (String.eqb (seg_type seg) "on_duty").
  { apply split_loop_inv; [|apply within_on_duty_checks, H].
    intros s r. apply within_loop_step_on_duty. }
  destruct (String.eqb (seg_type seg) "off_duty").
  { apply split_loop_inv; [|apply (within_weaken 24); [lra|exact H]].
    intros s r. apply within_loop_step_off_duty. }
  intro E. injection E as <-. apply (within_weaken 24); [lra|exact H].
Qed.

Lemma within_initial start w : within 58 (weekly_check (initial_state start w)).
Proof.
  assert (H : within 24 (initial_state start w)).
  { assert (Hlo := midnight_le start). assert (Hhi := midnight_gt start).
    split; [apply initial_state_aligned|].
    unfold initial_state.
    destruct (Qgtb _ _);
      cbn [day_start current_time daily_logs daily_driving daily_on_duty
           daily_off_duty];
      repeat (split; [lra|]); apply List.Forall_nil. }
  unfold weekly_check. destruct (Qgtb _ _);
    [|apply (within_weaken 24); [lra|exact H]].
  apply (within_insert_rest 24 34 _ "34-hour Restart"); [lra|exact H].
Qed.

(** The three totals of every log returned lie between 0 and 58 hours. *)
Lemma totals_stay_within_58 start segs w logs :
  hos_scheduler start segs w = Some logs -> List.Forall day_within logs.
Proof.
  unfold hos_scheduler, hos_scheduler_fuel.
  destruct (process_segments _ _ segs) as [st|] eqn:E; [|discriminate].
  intro H. injection H as <-.
  assert (Hst : within 58 st).
  { refine (process_segments_inv (within 58) _ segs _ _ st
              (within_initial start w) E).
    intros s seg s'. apply within_process_segment. }
  destruct Hst as [Ha [Hlo [Hhi [[Hd1 Hd2] [[Ho1 Ho2] [[Hf1 Hf2] Hlogs]]]]]].
  unfold finish.
  destruct (Qltb _ _) eqn:G;
    [apply Qltb_true in G|apply Qltb_false in G];
    unfold set_weekly_hours; cbn [daily_logs];
    apply List.Forall_app; (split; [exact Hlogs|]);
    (constructor; [|constructor]); unfold day_within, close_day, one_day in *;
    cbn [day_start current_time daily_logs daily_driving daily_on_duty
         daily_off_duty driving_hours on_duty_hours off_duty_hours] in *;
    repeat split; lra.
Qed.

End HosInvariants.

(** * The claims *)

Import Clock ClockFacts Hos HosSpec HosFacts HosEntries HosInvariants Examples.

(** ** The 11-hour rule *)

Lemma eight_hour_check_entries st d :
  exists short,
    all_entries (eight_hour_check st d) = all_entries st ++ short /\
    List.Forall (fun e => status e = "off_duty" /\ location e = "30-min Break") short.
Proof.
  unfold eight_hour_check. destruct (Qgtb _ _).
  - eexists. split.
    + unfold set_consecutive_driving, all_entries. cbn [daily_logs daily_entries].
      apply (insert_rest_entries st (1 # 2) "30-min Break").
    + constructor; [split; reflexivity|constructor].
  - exists []. split; [symmetry; apply app_nil_r|constructor].
Qed.

Lemma hours_with_none sts (l : list entry) :
  List.Forall (fun e => String.eqb (status e) sts = false) l ->
  hours_with sts l == 0.
Proof.
  induction 1 as [|e l He _ IH]; simpl.
  - reflexivity.
  - rewrite He. exact IH.
Qed.

(** What follows the tests of a drive segment: at most a break of 30
    minutes, then the pieces of the segment with the fillers of the days
    they open, the pieces making up the hours of the segment. *)
Lemma drive_segment_after_checks fuel st d loc st' :
  0 <= d ->
  split_loop emit_drive loc fuel (eight_hour_check st d) d = Some st' ->
  exists later,
    all_entries st' = all_entries st ++ later /\
    List.Forall (labelled ["30-min Break"; "Off Duty"; loc]) later /\
    hours_with "driving" later == d.
Proof.
  intros Hd Hrun.
  destruct (split_loop_hours emit_drive "driving" loc fuel _ d st'
              emit_drive_appends eq_refl Hd Hrun) as [ext [He [Hf Hh]]].
  destruct (eight_hour_check_entries st d) as [short [Hs Hsf]].
  exists (short ++ ext). split; [|split].
  - rewrite He, Hs. symmetry. apply app_assoc.
  - apply List.Forall_app. split.
    + eapply List.Forall_impl; [|exact Hsf].
      intros e [_ Hl]. unfold labelled. rewrite Hl. simpl. auto.
    + eapply List.Forall_impl; [|exact Hf].
      intros e [[_ Hl]|[_ Hl]]; unfold labelled; rewrite Hl; simpl; auto.
  - rewrite hours_with_app, Hh.
    rewrite (hours_with_none "driving" short); [lra|].
    eapply List.Forall_impl; [|exact Hsf].
    intros e [Hst _]. rewrite Hst. reflexivity.
Qed.

(** C2 (as amended): the 11-hour test is made once for a drive segment,
    before its first piece, on the driving hours of the open day plus the
    whole duration of the segment.  When the sum is above 11 (strictly, with
    no tolerance) the scheduler first emits an off-duty entry of 10 hours
    labelled "Rest Break (10 hours)" and sets the driving hours of the day
    and the consecutive driving hours to zero, the on-duty hours of the day
    being kept; when it is not, no such entry is inserted.  In both cases
    the whole segment is then driven: what follows holds a 30-minute break
    and midnight fillers at most, and driving pieces that make up the
    duration of the segment. *)
Theorem rest_before_drive_segment (fuel : nat) (st : state) (seg : segment)
        (st' : state) :
  seg_type seg = "drive" ->
  0 <= seg_duration seg ->
  process_segment fuel st seg = Some st' ->
  let st1 := new_day_check st in
  let rest := rest_entry (current_time st1) 10 "Rest Break (10 hours)" in
  let st_r :=
    mkState (day_start st1) (current_time st1 + 10) (daily_logs st1)
            (daily_entries st1 ++ [rest])
            0 (daily_on_duty st1) (daily_off_duty st1 + 10)
            (weekly_hours st1) 0 in
  exists later,
    List.Forall (labelled ["30-min Break"; "Off Duty"; seg_location seg]) later /\
    hours_with "driving" later == seg_duration seg /\
    (11 < daily_driving st1 + seg_duration seg ->
     process_segment fuel st seg =
       split_loop emit_drive (seg_location seg) fuel
                  (eight_hour_check st_r (seg_duration seg)) (seg_duration seg) /\
     all_entries st' = all_entries st1 ++ rest :: later) /\
    (daily_driving st1 + seg_duration seg <= 11 ->
     all_entries st' = all_entries st1 ++ later).
Proof.
  intros Hty Hd Hrun st1 rest st_r.
  assert (Hdef : process_segment fuel st seg =
                 split_loop emit_drive (seg_location seg) fuel
                   (eight_hour_check (eleven_hour_check st1 (seg_duration seg))
                                     (seg_duration seg))
                   (seg_duration seg)).
  { unfold process_segment. rewrite Hty. reflexivity. }
  rewrite Hdef in Hrun.
  destruct (drive_segment_after_checks _ _ _ _ _ Hd Hrun) as [later [He [Hf Hh]]].
  exists later. split; [exact Hf|]. split; [exact Hh|]. split.
  - intro Hgt. apply Qgtb_true in Hgt.
    assert (Hr : eleven_hour_check st1 (seg_duration seg) = st_r).
    { unfold eleven_hour_check. rewrite Hgt. reflexivity. }
    split.
    + rewrite Hdef, Hr. reflexivity.
    + rewrite He, Hr. unfold all_entries, st_r.
      cbn [daily_logs daily_entries].
      rewrite <- !app_assoc. reflexivity.
  - intro Hle. apply Qgtb_false in Hle.
    rewrite He. unfold eleven_hour_check. rewrite Hle. reflexivity.
Qed.

Lemma rest_before_drive_segment_witness :
  exists later,
    List.Forall (labelled ["30-min Break"; "Off Duty"; "Route"]) later /\
    hours_with "driving" later == 12 /\
    (11 < daily_driving (new_day_check before_long_drive) + 12 ->
     process_segment 3 before_long_drive long_drive =
       split_loop emit_drive "Route" 3
         (eight_hour_check
            (mkState 0 (0 + 10) []
                     [rest_entry 0 10 "Rest Break (10 hours)"]
                     0 0 (0 + 10) 0 0) 12) 12 /\
     all_entries after_long_drive =
       all_entries (new_day_check before_long_drive) ++
         rest_entry (current_time (new_day_check before_long_drive)) 10
                    "Rest Break (10 hours)" :: later) /\
    (daily_driving (new_day_check before_long_drive) + 12 <= 11 ->
     all_entries after_long_drive =
       all_entries (new_day_check before_long_drive) ++ later).
Proof.
  apply (rest_before_drive_segment 3 before_long_drive long_drive after_long_drive).
  - reflexivity.
  - vm_compute. discriminate.
  - vm_compute. reflexivity.
Defined.

(** C2 (as stated) fails.  A drive segment of 11 hours that starts with no
    driving done reaches the threshold of the claim, 11 minus the
    tolerance, and no entry "Rest Break (10 hours)" is emitted.  A drive
    segment of 12 hours is driven in one piece of 12 hours after the rest:
    the test is not made again inside the segment, and the driving since
    the last rest of 10 hours passes 11 hours. *)
Lemma eleven_hour_rule_counterexample :
  option_map (fun logs => map entry_view (entries_of logs))
             (hos_scheduler 8 [mkSegment "drive" 11 "Route"] 0) =
    Some [("00:00", "08:00", "off_duty", "Off Duty", 8);
          ("08:00", "08:30", "off_duty", "30-min Break", 1 # 2);
          ("08:30", "19:30", "driving", "Route", 11);
          ("19:30", "24:00", "off_duty", "Off Duty", 9 # 2)] /\
  option_map (fun logs => map entry_view (entries_of logs))
             (hos_scheduler 0 [long_drive] 0) =
    Some [("00:00", "10:00", "off_duty", "Rest Break (10 hours)", 10);
          ("10:00", "10:30", "off_duty", "30-min Break", 1 # 2);
          ("10:30", "22:30", "driving", "Route", 12);
          ("22:30", "24:00", "off_duty", "Off Duty", 3 # 2)] /\
  option_map (fun logs => driving_within_limit 0 (entries_of logs))
             (hos_scheduler 0 [long_drive] 0) = Some false.
Proof. repeat split; vm_compute; reflexivity. Qed.

(** ** The 24 hours of a day *)

(** C1: the code fails the claim on a rest that straddles midnight.  A trip
    of 9 hours that starts at 22:45: after the pickup, at 23:45, the 8-hour
    test inserts the break of 30 minutes whole in the open day.  The log of
    day 0 then ends with an entry from 23:45 to 00:15, its entries sum to
    24.25 hours and do not reach "24:00"; day 1 starts with a filler from
    00:00 to 00:15 that covers the end of the same break again. *)
Theorem rest_across_midnight_overfills_day :
  option_map (map (fun log => (log_view log, Qred (total_hours (entries log)),
                               full_day log)))
             (hos_scheduler quarter_to_eleven_pm nine_hour_trip 0) =
  Some [((0%Z,
          [("00:00", "22:45", "off_duty", "Off Duty", 91 # 4);
           ("22:45", "23:45", "on_duty", "Pickup Location", 1);
           ("23:45", "00:15", "off_duty", "30-min Break", 1 # 2)],
          (0, 1, 93 # 4)), 97 # 4, false);
        ((1%Z,
          [("00:00", "00:15", "off_duty", "Off Duty", 1 # 4);
           ("00:15", "09:15", "driving", "Route Segment 1 (450.0 mi)", 9);
           ("09:15", "10:15", "on_duty", "Dropoff Location", 1);
           ("10:15", "24:00", "off_duty", "Off Duty", 55 # 4)],
          (9, 10, 14)), 24, true)].
Proof. vm_compute. reflexivity. Qed.

(** ** The days covered *)

(** C4: the code fails the claim on a restart of 34 hours that starts late
    in the day.  With 75 weekly hours used and a start at 20:00 on day 0,
    the restart ends at 06:00 on day 2 and is entered whole in the log of
    day 0 (54 hours); the next log is the one of day 2: no log is returned
    for day 1. *)
Theorem restart_skips_a_day :
  option_map (map (fun log => (log_date log, Qred (total_hours (entries log)))))
             (hos_scheduler eight_pm nine_hour_trip 75) =
  Some [(0%Z, 54); (2%Z, 24)].
Proof. vm_compute. reflexivity. Qed.

(** ** The 70-hour rule *)

Lemma initial_state_weekly start w : weekly_hours (initial_state start w) = w.
Proof. unfold initial_state. destruct (Qgtb _ _); reflexivity. Qed.

Lemma initial_state_current start w : current_time (initial_state start w) = start.
Proof. unfold initial_state. destruct (Qgtb _ _); reflexivity. Qed.

Lemma initial_state_entries start w :
  all_entries (initial_state start w) = daily_entries (initial_state start w) /\
  List.Forall is_filler (daily_entries (initial_state start w)).
Proof.
  unfold initial_state, all_entries.
  destruct (Qgtb _ _); cbn [daily_logs daily_entries entries_of flat_map app];
    (split; [reflexivity|]).
  - constructor; [split; reflexivity|constructor].
  - constructor.
Qed.

(** The entries that a run returns: those of the state before the first
    segment, then entries that carry a label of a segment or of the
    scheduler. *)
Lemma hos_scheduler_entries start segs w logs :
  hos_scheduler start segs w = Some logs ->
  exists later,
    entries_of logs =
      all_entries (weekly_check (initial_state start w)) ++ later /\
    List.Forall (labelled (map seg_location segs ++ scheduler_labels)) later.
Proof.
  unfold hos_scheduler, hos_scheduler_fuel.
  destruct (process_segments _ _ segs) as [st|] eqn:E; [|discriminate].
  intro H. injection H as <-.
  destruct (process_segments_extends _ _ _ _ E) as [ext [He Hf]].
  destruct (finish_entries st) as [last [Hl Hlf]].
  exists (ext ++ last). split.
  - rewrite Hl, He. symmetry. apply app_assoc.
  - apply List.Forall_app. split; [exact Hf|].
    eapply List.Forall_impl; [|exact Hlf].
    intros e [_ Hloc]. unfold labelled. rewrite Hloc.
    apply in_or_app. right. simpl. auto.
Qed.

(** C3 (as amended): the 70-hour rule is tested once, before the first
    segment, on [weekly_used] alone; the segments are then processed from
    the state that the test leaves, and no restart is inserted after it:
    a later entry carries the label "34-hour Restart" only if a segment
    does.  When [weekly_used] is above 70, that
    state has its weekly hours set to zero and its clock 34 hours after
    the start, and the first entry after the filler that opens the first
    day is an off-duty entry of 34 hours labelled "34-hour Restart", which
    starts at the start instant.  When it is not, the test changes
    nothing, and the scheduler inserts no restart, whatever the hours on
    duty that the segments add: an entry of the result carries that label
    only if a segment does. *)
Theorem weekly_rule_tested_before_trip (start : Q) (segs : list segment) (w : Q) :
  exists logs st,
    process_segments (enough_fuel segs)
                     (weekly_check (initial_state start w)) segs = Some st /\
    hos_scheduler start segs w = Some logs /\
    logs = finish st /\
    (exists later,
       entries_of logs =
         all_entries (weekly_check (initial_state start w)) ++ later /\
       forall e, In e later ->
                 location e = "34-hour Restart" ->
                 In "34-hour Restart" (map seg_location segs)) /\
    (70 < w ->
     weekly_hours (weekly_check (initial_state start w)) = 0 /\
     current_time (weekly_check (initial_state start w)) = start + 34 /\
     exists later,
       entries_of logs =
         daily_entries (initial_state start w) ++
           rest_entry start 34 "34-hour Restart" :: later) /\
    (w <= 70 ->
     weekly_check (initial_state start w) = initial_state start w /\
     forall e, In e (entries_of logs) ->
               location e = "34-hour Restart" ->
               In "34-hour Restart" (map seg_location segs)).
Proof.
  destruct (hos_scheduler_total start segs w) as [logs Hlogs].
  assert (Hrun := Hlogs). unfold hos_scheduler, hos_scheduler_fuel in Hrun.
  destruct (process_segments _ _ segs) as [st|] eqn:E; [|discriminate].
  injection Hrun as Hfin.
  exists logs, st. split; [reflexivity|]. split; [exact Hlogs|].
  split; [symmetry; exact Hfin|].
  destruct (hos_scheduler_entries _ _ _ _ Hlogs) as [later [He Hf]].
  destruct (initial_state_entries start w) as [Hi Hif].
  assert (Hlater : forall e, In e later ->
                     location e = "34-hour Restart" ->
                     In "34-hour Restart" (map seg_location segs)).
  { intros e Hin Hloc.
    rewrite List.Forall_forall in Hf. specialize (Hf e Hin).
    unfold labelled in Hf. rewrite Hloc in Hf.
    apply in_app_or in Hf. destruct Hf as [Hf|Hf]; [exact Hf|].
    simpl in Hf. repeat (destruct Hf as [Hf|Hf]; [discriminate|]).
    contradiction. }
  split; [exists later; split; [exact He|exact Hlater]|].
  split.
  - intro Hw. apply Qgtb_true in Hw.
    assert (Hwc : weekly_check (initial_state start w) =
                  set_weekly_hours
                    (insert_rest (initial_state start w) 34 "34-hour Restart") 0).
    { unfold weekly_check. rewrite initial_state_weekly, Hw. reflexivity. }
    rewrite Hwc. split; [reflexivity|]. split.
    { cbn [set_weekly_hours insert_rest current_time].
      rewrite initial_state_current. reflexivity. }
    exists later.
    rewrite He, Hwc.
    unfold set_weekly_hours, all_entries at 1. cbn [daily_logs daily_entries].
    fold (all_entries (insert_rest (initial_state start w) 34 "34-hour Restart")).
    rewrite insert_rest_entries, initial_state_current, Hi.
    rewrite <- app_assoc. reflexivity.
  - intros Hw. apply Qgtb_false in Hw.
    assert (Hwc : weekly_check (initial_state start w) = initial_state start w).
    { unfold weekly_check. rewrite initial_state_weekly, Hw. reflexivity. }
    split; [exact Hwc|].
    intros e Hin Hloc.
    rewrite He, Hwc, Hi in Hin.
    apply in_app_or in Hin. destruct Hin as [Hin|Hin].
    + rewrite List.Forall_forall in Hif. destruct (Hif e Hin) as [_ Hl].
      rewrite Hl in Hloc. discriminate.
    + exact (Hlater e Hin Hloc).
Qed.

Lemma weekly_rule_tested_before_trip_witness :
  exists logs,
    hos_scheduler eight_pm nine_hour_trip 75 = Some logs /\
    weekly_hours (weekly_check (initial_state eight_pm 75)) = 0 /\
    exists later,
      entries_of logs =
        daily_entries (initial_state eight_pm 75) ++
          rest_entry eight_pm 34 "34-hour Restart" :: later.
Proof.
  destruct (weekly_rule_tested_before_trip eight_pm nine_hour_trip 75)
    as [logs [st [_ [Hlogs [_ [_ [Hrestart _]]]]]]].
  exists logs. split; [exact Hlogs|].
  destruct (Hrestart ltac:(reflexivity)) as [Hzero [_ Hentries]].
  split; [exact Hzero|exact Hentries].
Defined.

(** C3 (as stated) fails: 69 weekly hours used and an on-duty segment of 5
    hours take the running total to 74 hours, and the schedule holds no
    restart. *)
Lemma weekly_limit_counterexample :
  option_map (fun logs => (map entry_view (entries_of logs),
                           weekly_within_limit 69 (entries_of logs)))
             (hos_scheduler eight_am [mkSegment "on_duty" 5 "Load"] 69) =
  Some ([("00:00", "08:00", "off_duty", "Off Duty", 8);
         ("08:00", "13:00", "on_duty", "Load", 5);
         ("13:00", "24:00", "off_duty", "Off Duty", 11)], false).
Proof. vm_compute. reflexivity. Qed.

(** ** The totals of a day *)

Lemma no_entry_at_snoc loc (es : list entry) (e : entry) :
  no_entry_at loc (es ++ [e]) -> no_entry_at loc es /\ location e <> loc.
Proof.
  unfold no_entry_at. intro H. apply List.Forall_app in H.
  destruct H as [H1 H2]. split; [exact H1|].
  inversion H2; assumption.
Qed.

(** An off-duty entry that is appended, with its hours added to the
    off-duty total. *)
Lemma totals_follow_off_duty es drv on off s t loc d :
  totals_follow es drv on off ->
  totals_follow (es ++ [mkEntry s t "off_duty" loc d]) drv on (off + d).
Proof.
  intros [Hf [Hd Ho]]. unfold totals_follow.
  rewrite !hours_with_snoc, total_hours_snoc. cbn [status duration].
  status_tests. split; [lra|]. split.
  - intro Hn. apply no_entry_at_snoc in Hn. destruct Hn as [Hn _].
    specialize (Hd Hn). lra.
  - intro Hn. apply no_entry_at_snoc in Hn. destruct Hn as [Hn _].
    destruct (Ho Hn) as [Ho1 Ho2]. split; lra.
Qed.

Lemma totals_follow_driving es drv on off s t loc d :
  totals_follow es drv on off ->
  totals_follow (es ++ [mkEntry s t "driving" loc d]) (drv + d) (on + d) off.
Proof.
  intros [Hf [Hd Ho]]. unfold totals_follow.
  rewrite !hours_with_snoc, total_hours_snoc. cbn [status duration].
  status_tests. split; [lra|]. split.
  - intro Hn. apply no_entry_at_snoc in Hn. destruct Hn as [Hn _].
    specialize (Hd Hn). lra.
  - intro Hn. apply no_entry_at_snoc in Hn. destruct Hn as [Hn _].
    destruct (Ho Hn) as [Ho1 Ho2]. split; lra.
Qed.

Lemma totals_follow_on_duty es drv on off s t loc d :
  totals_follow es drv on off ->
  totals_follow (es ++ [mkEntry s t "on_duty" loc d]) drv (on + d) off.
Proof.
  intros [Hf [Hd Ho]]. unfold totals_follow.
  rewrite !hours_with_snoc, total_hours_snoc. cbn [status duration].
  status_tests. split; [lra|]. split.
  - intro Hn. apply no_entry_at_snoc in Hn. destruct Hn as [Hn _].
    specialize (Hd Hn). lra.
  - intro Hn. apply no_entry_at_snoc in Hn. destruct Hn as [Hn _].
    destruct (Ho Hn) as [Ho1 Ho2]. split; lra.
Qed.

(** After an entry labelled "Rest Break (10 hours)" the driving hours
    may be anything; after one labelled "14-hour Reset", the hours on
    duty. *)
Lemma totals_follow_reset_driving es s t sts d drv drv' on off :
  totals_follow (es ++ [mkEntry s t sts "Rest Break (10 hours)" d]) drv on off ->
  totals_follow (es ++ [mkEntry s t sts "Rest Break (10 hours)" d]) drv' on off.
Proof.
  intros [Hf [_ Ho]]. split; [exact Hf|]. split; [|exact Ho].
  intro Hn. apply no_entry_at_snoc in Hn. destruct Hn as [_ Hn].
  exfalso. apply Hn. reflexivity.
Qed.

Lemma totals_follow_reset_on_duty es s t sts d drv on on' off :
  totals_follow (es ++ [mkEntry s t sts "14-hour Reset" d]) drv on off ->
  totals_follow (es ++ [mkEntry s t sts "14-hour Reset" d]) drv on' off.
Proof.
  intros [Hf [Hd _]]. split; [exact Hf|]. split; [exact Hd|].
  intro Hn. apply no_entry_at_snoc in Hn. destruct Hn as [_ Hn].
  exfalso. apply Hn. reflexivity.
Qed.

Ltac ledger_fields :=
  cbn [day_start current_time daily_logs daily_entries daily_driving
       daily_on_duty daily_off_duty entries driving_hours on_duty_hours
       off_duty_hours log_date] in *.

Lemma ledger_new_day_check s : ledger s -> ledger (new_day_check s).
Proof.
  intros [Ha [Hlo [Htot [Hday Hlogs]]]].
  unfold ledger. split; [apply new_day_check_aligned, Ha|].
  unfold new_day_check.
  destruct (Z.eqb _ _) eqn:E;
    [split; [exact Hlo|]; split; [exact Htot|]; split; [exact Hday|exact Hlogs]|].
  apply Z.eqb_neq in E.
  assert (Hnext := next_date_later _ _ Ha Hlo E).
  assert (Hm := midnight_le (current_time s)).
  assert (Hclosed : List.Forall day_ledger (daily_logs s ++ [close_day s])).
  { apply List.Forall_app. split; [exact Hlogs|].
    constructor; [|constructor]. unfold day_ledger, close_day.
    ledger_fields. split; [exact Hday|lra]. }
  destruct (Qgtb _ _) eqn:G;
    [apply Qgtb_true in G|apply Qgtb_false in G]; ledger_fields.
  - split; [exact Hm|]. split; [cbn [total_hours fold_right duration]; lra|].
    split; [|exact Hclosed].
    apply (totals_follow_off_duty [] 0 0 0).
    unfold totals_follow. cbn [hours_with total_hours fold_right].
    repeat split; lra.
  - split; [exact Hm|]. split; [cbn [total_hours fold_right]; lra|].
    split; [|exact Hclosed].
    unfold totals_follow. cbn [hours_with total_hours fold_right].
    repeat split; lra.
Qed.

Lemma ledger_insert_rest s d loc :
  0 <= d -> ledger s -> ledger (insert_rest s d loc).
Proof.
  intros Hd [Ha [Hlo [Htot [Hday Hlogs]]]]. unfold ledger, insert_rest.
  split; [exact Ha|]. ledger_fields.
  split; [lra|]. split; [rewrite total_hours_snoc; cbn [duration timed_entry]; lra|].
  split; [|exact Hlogs].
  unfold timed_entry. apply totals_follow_off_duty. exact Hday.
Qed.

Lemma ledger_drive_checks s d : ledger s -> ledger (drive_checks s d).
Proof.
  intro H. unfold drive_checks.
  assert (H1 : ledger (eleven_hour_check s d)).
  { unfold eleven_hour_check. destruct (Qgtb _ _); [|exact H].
    assert (Hr := ledger_insert_rest s 10 "Rest Break (10 hours)"
                    ltac:(lra) H).
    destruct Hr as [Ha [Hlo [Htot [Hday Hlogs]]]].
    unfold ledger, set_consecutive_driving, set_daily_driving.
    unfold insert_rest, timed_entry in *. ledger_fields.
    repeat (split; [assumption|]). split; [|exact Hlogs].
    eapply totals_follow_reset_driving. exact Hday. }
  unfold eight_hour_check. destruct (Qgtb _ _); [|exact H1].
  apply (ledger_insert_rest _ (1 # 2) "30-min Break"); [lra|exact H1].
Qed.

Lemma ledger_on_duty_checks s d : ledger s -> ledger (on_duty_checks s d).
Proof.
  intro H. unfold on_duty_checks. destruct (Qgtb _ _); [|exact H].
  assert (Hr := ledger_insert_rest s 10 "14-hour Reset" ltac:(lra) H).
  destruct Hr as [Ha [Hlo [Htot [Hday Hlogs]]]].
  unfold ledger, set_daily_on_duty.
  unfold insert_rest, timed_entry in *. ledger_fields.
  repeat (split; [assumption|]). split; [|exact Hlogs].
  eapply totals_follow_reset_on_duty. exact Hday.
Qed.

Lemma ledger_loop_step_drive loc s r :
  ledger s -> 0 < r -> ledger (loop_step emit_drive loc s r).
Proof.
  intros Hs Hr.
  destruct (chunk_bounds s r (proj1 Hs) Hr) as [Hpos _].
  apply ledger_new_day_check in Hs.
  destruct Hs as [Ha [Hlo [Htot [Hday Hlogs]]]].
  unfold loop_step.
  set (chunk := Qmin r (time_left_in_day (new_day_check s))) in *.
  unfold ledger, emit_drive, timed_entry. split; [exact Ha|]. ledger_fields.
  split; [lra|]. split; [rewrite total_hours_snoc; cbn [duration]; lra|].
  split; [|exact Hlogs]. apply totals_follow_driving. exact Hday.
Qed.

Lemma ledger_loop_step_on_duty loc s r :
  ledger s -> 0 < r -> ledger (loop_step emit_on_duty loc s r).
Proof.
  intros Hs Hr.
  destruct (chunk_bounds s r (proj1 Hs) Hr) as [Hpos _].
  apply ledger_new_day_check in Hs.
  destruct Hs as [Ha [Hlo [Htot [Hday Hlogs]]]].
  unfold loop_step.
  set (chunk := Qmin r (time_left_in_day (new_day_check s))) in *.
  unfold ledger, emit_on_duty, timed_entry. split; [exact Ha|]. ledger_fields.
  split; [lra|]. split; [rewrite total_hours_snoc; cbn [duration]; lra|].
  split; [|exact Hlogs]. apply totals_follow_on_duty. exact Hday.
Qed.

Lemma ledger_loop_step_off_duty loc s r :
  ledger s -> 0 < r -> ledger (loop_step emit_off_duty loc s r).
Proof.
  intros Hs Hr.
  destruct (chunk_bounds s r (proj1 Hs) Hr) as [Hpos _].
  apply ledger_new_day_check in Hs.
  destruct Hs as [Ha [Hlo [Htot [Hday Hlogs]]]].
  unfold loop_step.
  set (chunk := Qmin r (time_left_in_day (new_day_check s))) in *.
  unfold ledger, emit_off_duty, timed_entry. split; [exact Ha|]. ledger_fields.
  split; [lra|]. split; [rewrite total_hours_snoc; cbn [duration]; lra|].
  split; [|exact Hlogs]. apply totals_follow_off_duty. exact Hday.
Qed.

Lemma ledger_initial start w : ledger (weekly_check (initial_state start w)).
Proof.
  assert (H : ledger (initial_state start w)).
  { assert (Hm := midnight_le start).
    split; [apply initial_state_aligned|].
    unfold initial_state.
    destruct (Qgtb _ _) eqn:G;
      [apply Qgtb_true in G|apply Qgtb_false in G]; ledger_fields.
    - split; [exact Hm|]. split; [cbn [total_hours fold_right duration]; lra|].
      split; [|apply List.Forall_nil].
      apply (totals_follow_off_duty [] 0 0 0).
      unfold totals_follow. cbn [hours_with total_hours fold_right].
      repeat split; lra.
    - split; [exact Hm|]. split; [cbn [total_hours fold_right]; lra|].
      split; [|apply List.Forall_nil].
      unfold totals_follow. cbn [hours_with total_hours fold_right].
      repeat split; lra. }
  unfold weekly_check. destruct (Qgtb _ _); [|exact H].
  apply (ledger_insert_rest _ 34 "34-hour Restart"); [lra|exact H].
Qed.

Lemma ledger_finish st : ledger st -> List.Forall day_ledger (finish st).
Proof.
  intros [Ha [Hlo [Htot [Hday Hlogs]]]]. unfold finish.
  destruct (Qltb _ _) eqn:G;
    [apply Qltb_true in G|apply Qltb_false in G];
    unfold set_weekly_hours; cbn [daily_logs];
    apply List.Forall_app; (split; [exact Hlogs|]);
    (constructor; [|constructor]); unfold day_ledger, close_day, one_day in *;
    ledger_fields.
  - split; [apply totals_follow_off_duty; exact Hday|].
    rewrite total_hours_snoc. cbn [duration]. lra.
  - split; [exact Hday|lra].
Qed.

(** C5 (as amended): the hours on duty of a log include its driving
    hours, so the three totals do not partition the day.  For every log
    returned, whatever the run: the off-duty hours are those of its
    off-duty entries, and its entries account for 24 hours at least;
    unless the day holds an entry labelled "14-hour Reset", the hours on
    duty are those of its driving and on-duty entries, they make with the
    off-duty hours the hours of the entries, and the three totals sum to
    24 plus the driving hours when the entries account for 24 hours;
    unless the day holds an entry labelled "Rest Break (10 hours)", the
    driving hours are those of its driving entries. *)
Theorem totals_of_every_day (start : Q) (segs : list segment) (w : Q) :
  exists logs,
    hos_scheduler start segs w = Some logs /\
    List.Forall
      (fun log =>
         day_ledger log /\
         (no_entry_at "14-hour Reset" (entries log) ->
          total_hours (entries log) == 24 ->
          on_duty_hours log + off_duty_hours log == 24 /\
          driving_hours log + on_duty_hours log + off_duty_hours log ==
            24 + driving_hours log))
      logs.
Proof.
  destruct (hos_scheduler_total start segs w) as [logs Hlogs].
  exists logs. split; [exact Hlogs|].
  unfold hos_scheduler, hos_scheduler_fuel in Hlogs.
  destruct (process_segments _ _ segs) as [st|] eqn:E; [|discriminate].
  injection Hlogs as <-.
  assert (Hst : ledger st).
  { refine (process_segments_inv ledger _ segs _ _ st (ledger_initial start w) E).
    intros s seg s'. apply process_segment_inv.
    - apply ledger_new_day_check.
    - apply ledger_drive_checks.
    - apply ledger_on_duty_checks.
    - intros s0 r loc. apply ledger_loop_step_drive.
    - intros s0 r loc. apply ledger_loop_step_on_duty.
    - intros s0 r loc. apply ledger_loop_step_off_duty. }
  eapply List.Forall_impl; [|apply ledger_finish, Hst].
  intros log Hl. split; [exact Hl|].
  intros Hn H24. destruct Hl as [[_ [_ Ho]] _].
  destruct (Ho Hn) as [_ Hsum]. split; lra.
Qed.

(** The day of the trip of 9 hours that starts at 08:00, in which a
    30-minute break is inserted: 9 driving hours, 11 hours on duty, 13
    hours off duty. *)
Lemma totals_of_every_day_witness :
  exists log,
    hos_scheduler eight_am nine_hour_trip 0 = Some [log] /\
    on_duty_hours log + off_duty_hours log == 24 /\
    driving_hours log + on_duty_hours log + off_duty_hours log ==
      24 + driving_hours log.
Proof.
  destruct (totals_of_every_day eight_am nine_hour_trip 0)
    as [logs [Hrun Hall]].
  assert (Hlogs : exists log, logs = [log]).
  { vm_compute in Hrun. injection Hrun as <-. eexists. reflexivity. }
  destruct Hlogs as [log ->]. exists log. split; [exact Hrun|].
  inversion Hall as [|? ? [_ Hsum] _]; subst.
  apply Hsum.
  - vm_compute in Hrun. injection Hrun as <-.
    unfold no_entry_at. cbn [entries].
    repeat (constructor; [cbn [location]; discriminate|]). constructor.
  - vm_compute in Hrun. injection Hrun as <-. vm_compute. reflexivity.
Defined.

(** C5 (as stated) fails on the first scenario of the specification: the
    log has 5 driving hours, 7 hours on duty (the 5 driving hours and the
    two hours of pickup and drop-off) and 17 hours off duty, 29 in all. *)
Lemma totals_counterexample :
  option_map (map (fun log =>
                     (Qred (driving_hours log), Qred (on_duty_hours log),
                      Qred (off_duty_hours log),
                      Qred (driving_hours log + on_duty_hours log +
                            off_duty_hours log))))
             (hos_scheduler eight_am scenario_1 0) =
  Some [(5, 7, 17, 29)].
Proof. vm_compute. reflexivity. Qed.

(** ** Off-duty segments *)

Lemma new_day_check_weekly st : weekly_hours (new_day_check st) = weekly_hours st.
Proof.
  unfold new_day_check. destruct (Z.eqb _ _); [reflexivity|].
  destruct (Qgtb _ _); reflexivity.
Qed.

Lemma new_day_check_same_day st :
  aligned st -> day_start st <= current_time st ->
  current_time st < day_start st + 24 -> new_day_check st = st.
Proof.
  intros Ha Hlo Hhi. unfold new_day_check.
  assert (Hd : date (current_time st) = date (day_start st)).
  { apply date_unique; unfold aligned, midnight in Ha; rewrite Ha; assumption. }
  rewrite Hd, Z.eqb_refl. reflexivity.
Qed.

(** An off-duty segment that ends within the open day: one piece, no new
    day. *)
Lemma off_duty_within_day fuel loc st d st' :
  aligned st -> 0 <= d -> day_start st <= current_time st ->
  current_time st + d <= day_start st + 24 ->
  split_loop emit_off_duty loc fuel st d = Some st' ->
  day_start st' = day_start st /\
  daily_driving st' = daily_driving st /\
  daily_on_duty st' = daily_on_duty st /\
  daily_off_duty st' == daily_off_duty st + d /\
  current_time st' == current_time st + d.
Proof.
  intros Ha Hd Hlo Hhi Hrun.
  destruct (split_loop_inv_rem
              (fun s q =>
                 0 <= q /\ day_start s = day_start st /\
                 day_start st <= current_time s /\
                 current_time s + q == current_time st + d /\
                 daily_driving s = daily_driving st /\
                 daily_on_duty s = daily_on_duty st /\
                 daily_off_duty s + q == daily_off_duty st + d)
              emit_off_duty loc) with (fuel := fuel) (st := st) (r := d) (st' := st')
    as [q [Hq [Hq0 [Hds [_ [Hc [Hdd [Hdo Hoff]]]]]]]].
  - intros s q [Hq0 [Hds [Hcl [Hc [Hdd [Hdo Hoff]]]]]] Hpos.
    assert (Has : aligned s) by (unfold aligned; rewrite Hds; exact Ha).
    assert (Hsame : new_day_check s = s).
    { apply new_day_check_same_day; [exact Has|rewrite Hds; exact Hcl|].
      rewrite Hds. lra. }
    destruct (chunk_bounds s q Has Hpos) as [Hcp [Hcq _]].
    unfold loop_step. rewrite Hsame in *.
    set (chunk := Qmin q (time_left_in_day s)) in *.
    unfold emit_off_duty.
    cbn [day_start current_time daily_driving daily_on_duty daily_off_duty].
    repeat split; try assumption; lra.
  - repeat split; try reflexivity; try assumption; lra.
  - exact Hrun.
  - repeat split; try assumption; lra.
Qed.

(** C6 (as amended): an off-duty segment of positive duration sets the
    consecutive driving hours to zero whatever its length, and leaves the
    weekly hours as they were, also when it lasts 34 hours or more.  When
    it ends within the open day, it adds its duration to the off-duty hours
    of the day and leaves the driving and on-duty hours of the day as they
    were, also when it lasts 10 hours or more: a planned rest does not
    reset the counters of the 11-hour and 14-hour tests. *)
Theorem off_duty_segment_effect (fuel : nat) (st : state) (seg : segment)
        (st' : state) :
  aligned st ->
  seg_type seg = "off_duty" ->
  0 < seg_duration seg ->
  process_segment fuel st seg = Some st' ->
  consecutive_driving st' = 0 /\
  weekly_hours st' = weekly_hours st /\
  (day_start st <= current_time st ->
   current_time st + seg_duration seg <= day_start st + 24 ->
   day_start st' = day_start st /\
   daily_driving st' = daily_driving st /\
   daily_on_duty st' = daily_on_duty st /\
   daily_off_duty st' == daily_off_duty st + seg_duration seg /\
   current_time st' == current_time st + seg_duration seg).
Proof.
  intros Ha Hty Hd Hrun.
  assert (Hdef : process_segment fuel st seg =
                 split_loop emit_off_duty (seg_location seg) fuel
                            (new_day_check st) (seg_duration seg)).
  { unfold process_segment. rewrite Hty. reflexivity. }
  rewrite Hdef in Hrun.
  split; [|split].
  - destruct fuel as [|fuel].
    + simpl in Hrun. apply Qgtb_true in Hd. rewrite Hd in Hrun. discriminate.
    + rewrite split_loop_unfold in Hrun.
      apply Qgtb_true in Hd. rewrite Hd in Hrun.
      refine (split_loop_inv (fun s => consecutive_driving s = 0)
                emit_off_duty (seg_location seg) _ _ _ _ _ _ Hrun).
      * intros s r _ _. reflexivity.
      * reflexivity.
  - rewrite <- (new_day_check_weekly st).
    refine (split_loop_inv
              (fun s => weekly_hours s = weekly_hours (new_day_check st))
              emit_off_duty (seg_location seg) _ _ _ _ _ eq_refl Hrun).
    intros s r Hs _. unfold loop_step, emit_off_duty. cbn [weekly_hours].
    rewrite new_day_check_weekly. exact Hs.
  - intros Hlo Hhi.
    assert (Hsame : new_day_check st = st).
    { apply new_day_check_same_day; [exact Ha|exact Hlo|lra]. }
    rewrite Hsame in Hrun.
    eapply off_duty_within_day; [exact Ha| |exact Hlo|exact Hhi|exact Hrun].
    lra.
Qed.

Lemma off_duty_segment_effect_witness :
  consecutive_driving after_planned_rest = 0 /\
  weekly_hours after_planned_rest = weekly_hours after_six_hours /\
  (day_start after_six_hours <= current_time after_six_hours ->
   current_time after_six_hours + 10 <= day_start after_six_hours + 24 ->
   day_start after_planned_rest = day_start after_six_hours /\
   daily_driving after_planned_rest = daily_driving after_six_hours /\
   daily_on_duty after_planned_rest = daily_on_duty after_six_hours /\
   daily_off_duty after_planned_rest == daily_off_duty after_six_hours + 10 /\
   current_time after_planned_rest == current_time after_six_hours + 10).
Proof.
  apply (off_duty_segment_effect 3 after_six_hours planned_rest after_planned_rest).
  - vm_compute. reflexivity.
  - reflexivity.
  - vm_compute. reflexivity.
  - vm_compute. reflexivity.
Defined.

(** C6 (as stated) fails.  After 5 hours of driving, an off-duty segment of
    15 minutes sets the consecutive driving hours to zero, though it is
    shorter than half an hour.  And a planned rest of 10 hours after 6
    hours of driving leaves the driving hours of the day at 6: the drive
    segment of 6 hours that follows is over the 11 hours of the test, and
    the scheduler inserts a rest of 10 hours of its own after the planned
    one. *)
Lemma off_duty_reset_counterexample :
  option_map (fun st => Qred (consecutive_driving st))
             (process_segments 3 (initial_state 0 0)
                               [mkSegment "drive" 5 "A"]) = Some 5 /\
  option_map (fun st => Qred (consecutive_driving st))
             (process_segments 3 (initial_state 0 0)
                               [mkSegment "drive" 5 "A";
                                mkSegment "off_duty" (1 # 4) "Stop"]) = Some 0 /\
  Qred (daily_driving after_planned_rest) = 6 /\
  option_map (fun logs => map entry_view (entries_of logs))
             (hos_scheduler 0 [mkSegment "drive" 6 "A"; planned_rest;
                               mkSegment "drive" 6 "B"] 0) =
  Some [("00:00", "06:00", "driving", "A", 6);
        ("06:00", "16:00", "off_duty", "Rest", 10);
        ("16:00", "02:00", "off_duty", "Rest Break (10 hours)", 10);
        ("00:00", "02:00", "off_duty", "Off Duty", 2);
        ("02:00", "08:00", "driving", "B", 6);
        ("08:00", "24:00", "off_duty", "Off Duty", 16)].
Proof. repeat split; vm_compute; reflexivity. Qed.

(** ** The weekly hours of a driver *)

Import Views ViewsSpec.

Lemma sum_on_duty_hours_from (rows : list (Z * Z * daily_rod)) (a : Q) :
  fold_left (fun acc row => acc + rod_on_duty_hours (snd row)) rows a ==
  a + sum_on_duty_hours rows.
Proof.
  unfold sum_on_duty_hours. revert a.
  induction rows as [|row rows IH]; intro a; simpl.
  - lra.
  - rewrite (IH (a + _)), (IH (0 + _)). lra.
Qed.

Lemma sum_on_duty_hours_cons (row : Z * Z * daily_rod) rows :
  sum_on_duty_hours (row :: rows) ==
  rod_on_duty_hours (snd row) + sum_on_duty_hours rows.
Proof.
  unfold sum_on_duty_hours at 1. simpl.
  rewrite sum_on_duty_hours_from. lra.
Qed.

(** A sum over selected rows splits along a further test. *)
Lemma sum_on_duty_hours_split (p p1 p2 : Z * Z * daily_rod -> bool) rows :
  (forall row, p row = p1 row || p2 row) ->
  (forall row, p1 row && p2 row = false) ->
  sum_on_duty_hours (List.filter p rows) ==
  sum_on_duty_hours (List.filter p1 rows) +
  sum_on_duty_hours (List.filter p2 rows).
Proof.
  intros Hor Hand. induction rows as [|row rows IH].
  - reflexivity.
  - cbn [List.filter]. rewrite (Hor row).
    specialize (Hand row).
    destruct (p1 row), (p2 row); try discriminate; cbn [orb];
      rewrite ?sum_on_duty_hours_cons, IH; lra.
Qed.

(** C7: the code fails the claim.  The weekly figure of the view is
    meant for the last 8 days (line 75), but the records are selected by
    [date__gte] alone: the figure is the sum over the records dated from 8
    days before the day of the request to the day itself, which is the
    figure of the claim, plus the sum over the records of the driver dated
    after that day.  The figure is a function of the store, which the
    computation cannot change. *)
Theorem weekly_used_counts_later_records (db : database) (driver today : Z) :
  weekly_used_of db driver today ==
  weekly_on_duty_spec db driver today +
  sum_on_duty_hours (rows_after db driver today).
Proof.
  unfold weekly_used_of, weekly_on_duty_spec, recent_rods, rows_between,
    rows_after.
  apply sum_on_duty_hours_split; intros [[drv dt] rod]; cbn [fst snd].
  - destruct (drv =? driver)%Z; [cbn [andb]|reflexivity].
    destruct (Z.leb_spec (today - 8) dt), (Z.leb_spec dt today),
      (Z.ltb_spec today dt); cbn; try reflexivity; lia.
  - destruct (drv =? driver)%Z; [cbn [andb]|reflexivity].
    destruct (Z.leb_spec (today - 8) dt), (Z.leb_spec dt today),
      (Z.ltb_spec today dt); cbn; try reflexivity; lia.
Qed.

(** C7, the failing input: with a single record of the driver, dated
    three days after the day of the request and holding 5 hours on duty,
    the figure of the view is 5 and the figure of the claim is 0. *)
Lemma weekly_used_counterexample :
  Qred (weekly_used_of store_with_later_record 1 10) = 5 /\
  Qred (weekly_on_duty_spec store_with_later_record 1 10) = 0.
Proof. split; vm_compute; reflexivity. Qed.

(** ** The slices of the route *)

(** C8: the code fails the claim on the number of slices.  For a route of
    12 hours it returns one slice of 12 hours, where the claim has the
    two slices of the ceiling of 12/11: the count is [int(duration / 11)],
    which rounds down. *)
Theorem twelve_hours_in_one_slice :
  option_map (map slice_view) (split_route_segments twelve_hour_route) =
    Some [(1%Z, 0, 600, 600, 12, [(0, 0); (1, 1); (2, 2)])] /\
  Qceiling (route_duration twelve_hour_route / 11) = 2%Z.
Proof. split; vm_compute; reflexivity. Qed.

(** ** The providers of the route *)

Import RouteClient RouteSpec.

Section Estimate.

Variable config : settings.
Variable mapbox_get : coord -> coord -> coord -> reply mapbox_body.
Variable ors_post : coord -> coord -> coord -> reply ors_body.
Variable haversine_a : coord -> coord -> Q.
Variable central_angle : Q -> Q.

Lemma mapbox_failure_gives_estimate c p d :
  attempt_failed mapbox_unusable (mapbox_get c p d) ->
  _get_mapbox_route mapbox_get haversine_a central_angle c p d =
  _get_mock_route haversine_a central_angle c p d.
Proof.
  intro H. unfold _get_mapbox_route.
  inversion H as [|code json Hs|code|code data Hu]; subst; try reflexivity.
  - rewrite Hs. reflexivity.
  - destruct (raise_for_status code); reflexivity.
  - destruct (raise_for_status code); [reflexivity|].
    unfold mapbox_unusable in Hu.
    destruct (routes data) as [[|route rest]|]; try reflexivity.
    destruct Hu as [Hu|[Hu|Hu]]; rewrite Hu; try reflexivity.
    + destruct (mb_distance route); reflexivity.
    + destruct (mb_distance route), (mb_duration route); reflexivity.
Qed.

Lemma ors_failure_gives_estimate c p d :
  attempt_failed ors_unusable (ors_post c p d) ->
  _get_ors_route ors_post haversine_a central_angle c p d =
  _get_mock_route haversine_a central_angle c p d.
Proof.
  intro H. unfold _get_ors_route.
  inversion H as [|code json Hs|code|code data Hu]; subst; try reflexivity.
  - rewrite Hs. reflexivity.
  - destruct (raise_for_status code); reflexivity.
  - destruct (raise_for_status code); [reflexivity|].
    unfold ors_unusable in Hu.
    destruct (features data) as [[|feature rest]|]; try reflexivity.
    destruct Hu as [Hu|[Hu|Hu]]; rewrite Hu; try reflexivity.
    + destruct (ors_distance feature); reflexivity.
    + destruct (ors_distance feature), (ors_duration feature); reflexivity.
Qed.

(** An answer of a provider that raises nothing is a failed attempt. *)
Lemma mapbox_raises_only_by_estimate c p d :
  _get_mapbox_route mapbox_get haversine_a central_angle c p d = ValueError ->
  attempt_failed mapbox_unusable (mapbox_get c p d).
Proof.
  unfold _get_mapbox_route.
  destruct (mapbox_get c p d) as [|code json]; [intros _; apply failed_raised|].
  destruct (raise_for_status code) eqn:Es;
    [intros _; apply failed_status, Es|].
  destruct json as [data|]; [|intros _; apply failed_malformed].
  intro H. apply failed_unusable. unfold mapbox_unusable.
  destruct (routes data) as [[|route rest]|]; try exact I.
  destruct (mb_distance route); [|left; reflexivity].
  destruct (mb_duration route); [|right; left; reflexivity].
  destruct (mb_geometry route); [discriminate|right; right; reflexivity].
Qed.

Lemma ors_raises_only_by_estimate c p d :
  _get_ors_route ors_post haversine_a central_angle c p d = ValueError ->
  attempt_failed ors_unusable (ors_post c p d).
Proof.
  unfold _get_ors_route.
  destruct (ors_post c p d) as [|code json]; [intros _; apply failed_raised|].
  destruct (raise_for_status code) eqn:Es;
    [intros _; apply failed_status, Es|].
  destruct json as [data|]; [|intros _; apply failed_malformed].
  intro H. apply failed_unusable. unfold ors_unusable.
  destruct (features data) as [[|feature rest]|]; try exact I.
  destruct (ors_distance feature); [|left; reflexivity].
  destruct (ors_duration feature); [|right; left; reflexivity].
  destruct (ors_geometry feature) as [[geom|]|];
    [discriminate|discriminate|right; right; reflexivity].
Qed.

Lemma haversine_distance_raises (coord1 coord2 : coord) :
  haversine_distance haversine_a central_angle coord1 coord2 = None <->
  leg_raises haversine_a coord1 coord2.
Proof.
  unfold haversine_distance, leg_raises. cbn zeta.
  destruct (Qltb (haversine_a coord1 coord2) 0) eqn:L;
    [apply Qltb_true in L|apply Qltb_false in L]; cbn [orb].
  - split; [intros _; left; exact L|reflexivity].
  - destruct (Qltb (1 - haversine_a coord1 coord2) 0) eqn:G;
      [apply Qltb_true in G|apply Qltb_false in G].
    + split; [intros _; right; lra|reflexivity].
    + split; [discriminate|]. intros [H|H]; lra.
Qed.

Lemma mock_route_raises (c p d : coord) :
  _get_mock_route haversine_a central_angle c p d = ValueError <->
  leg_raises haversine_a c p \/ leg_raises haversine_a p d.
Proof.
  unfold _get_mock_route.
  destruct (haversine_distance haversine_a central_angle c p) as [leg1|] eqn:E1.
  - destruct (haversine_distance haversine_a central_angle p d) as [leg2|] eqn:E2.
    + split; [discriminate|]. intros [H|H];
        apply haversine_distance_raises in H; congruence.
    + split; [|reflexivity]. intros _. right.
      apply haversine_distance_raises. exact E2.
  - split; [|reflexivity]. intros _. left.
    apply haversine_distance_raises. exact E1.
Qed.

(** C9: the code fails the claim.  The client tries one provider only,
    the first that is configured in the order Mapbox, OpenRouteService;
    when that attempt fails - the call raises, the status is an error
    status, the body is malformed or holds no usable result - or when no
    provider is configured, the answer of the client is the answer of the
    estimate (a failure of Mapbox is not retried against
    OpenRouteService).  And the estimate can raise: the client ends in a
    [ValueError] exactly when it comes to the estimate and the argument of
    a square root is negative for one of the two legs. *)
Theorem get_route_raises_with_the_estimate (c p d : coord) :
  (uses_the_estimate config mapbox_get ors_post c p d ->
   get_route config mapbox_get ors_post haversine_a central_angle c p d =
   _get_mock_route haversine_a central_angle c p d) /\
  (get_route config mapbox_get ors_post haversine_a central_angle c p d =
     ValueError <->
   uses_the_estimate config mapbox_get ors_post c p d /\
   (leg_raises haversine_a c p \/ leg_raises haversine_a p d)).
Proof.
  assert (Hest : uses_the_estimate config mapbox_get ors_post c p d ->
                 get_route config mapbox_get ors_post haversine_a central_angle
                           c p d =
                 _get_mock_route haversine_a central_angle c p d).
  { unfold get_route. intros [[-> H]|[[-> [-> H]]|[-> ->]]].
    - apply mapbox_failure_gives_estimate, H.
    - apply ors_failure_gives_estimate, H.
    - reflexivity. }
  split; [exact Hest|]. split.
  - intro Hraise.
    assert (Huse : uses_the_estimate config mapbox_get ors_post c p d).
    { unfold get_route in Hraise. unfold uses_the_estimate.
      destruct (configured (MAPBOX_ACCESS_TOKEN config)).
      - left. split; [reflexivity|].
        apply mapbox_raises_only_by_estimate, Hraise.
      - destruct (configured (ORS_API_KEY config)).
        + right. left. split; [reflexivity|]. split; [reflexivity|].
          apply ors_raises_only_by_estimate, Hraise.
        + right. right. split; reflexivity. }
    split; [exact Huse|].
    apply mock_route_raises. rewrite <- (Hest Huse). exact Hraise.
  - intros [Huse Hleg]. rewrite (Hest Huse).
    apply mock_route_raises, Hleg.
Qed.

End Estimate.

(** C9, the failing input: both keys are set and Mapbox is down; between
    the positions (-86, 8) and (94, -8) the floats of the source give
    [a = 1 + 2^-52], and the client raises. *)
Lemma get_route_raises_with_the_estimate_witness :
  get_route both_keys mapbox_down ors_up a_of_the_floats angle_of_100_miles
            (0, 0) (-86, 8) (94, -8) = ValueError.
Proof.
  apply (proj2 (get_route_raises_with_the_estimate
                  both_keys mapbox_down ors_up a_of_the_floats
                  angle_of_100_miles (0, 0) (-86, 8) (94, -8))).
  split.
  - left. split; [reflexivity|apply failed_raised].
  - right. right. vm_compute. reflexivity.
Defined.

(** With both keys set, Mapbox down and OpenRouteService answering with a
    route of 621.37 miles in 5 hours, the client returns the estimate of
    200 miles in 4 hours; OpenRouteService is not asked. *)
Lemma mapbox_failure_counterexample :
  result_view (get_route both_keys mapbox_down ors_up a_of_short_legs
                         angle_of_100_miles (0, 0) (0, 1) (1, 1)) =
    Some (200, 4, [(0, 0); (0, 1); (1, 1)]) /\
  result_view (_get_ors_route ors_up a_of_short_legs angle_of_100_miles
                              (0, 0) (0, 1) (1, 1)) =
    Some (621.37, 5, [(0, 0); (0, 1); (1, 0); (1, 1)]).
Proof. split; vm_compute; reflexivity. Qed.

(** ** The loops of the view reach their end *)

Lemma iterations_cover (x step : Q) :
  0 < step -> x <= step * Qnat (iterations x step).
Proof.
  intro Hs. unfold iterations. rewrite Qnat_S. unfold Qnat.
  assert (H := Qle_ceiling (x / step)).
  assert (Hz : (Qceiling (x / step) <= Z.of_nat (Z.to_nat (Qceiling (x / step))))%Z)
    by lia.
  rewrite Zle_Qle in Hz.
  assert (Hx : x == step * (x / step)) by (field; lra).
  remember (inject_Z (Qceiling (x / step))) as c eqn:Ec. clear Ec.
  remember (inject_Z (Z.of_nat (Z.to_nat (Qceiling (x / step))))) as n eqn:En.
  clear En.
  remember (x / step) as q eqn:Eq. clear Eq.
  assert (Hq : step * q <= step * n) by (apply Qmult_le_l; [exact Hs|lra]).
  lra.
Qed.

Lemma short_trip_segments_total (total dur : Q) :
  forall (fuel : nat) (current : Q) (n : Z),
    total - current <= 1000 * Qnat fuel ->
    exists segs, short_trip_segments fuel total dur current n = Some segs.
Proof.
  induction fuel as [|fuel IH]; intros current n Hf.
  - simpl. change (Qnat 0) with 0 in Hf.
    assert (Hle : total <= current) by lra.
    apply Qltb_false in Hle. rewrite Hle. eauto.
  - cbn [short_trip_segments].
    destruct (Qltb current total) eqn:E; [|eauto].
    apply Qltb_true in E.
    destruct (IH (current + Qmin (total - current) 1000) (n + 1)%Z) as [rest Hrest].
    + rewrite Qnat_S in Hf.
      destruct (Qmin_cases (total - current) 1000) as [[_ Hm]|[_ Hm]];
        rewrite Hm; [|lra].
      assert (H0 : 0 <= Qnat fuel) by (apply (Qnat_le 0), Nat.le_0_l).
      lra.
    + rewrite Hrest. eauto.
Qed.

Lemma long_trip_segments_total (total dur : Q) :
  forall (fuel : nat) (remaining : Q) (n : Z),
    remaining <= 11 * Qnat fuel ->
    exists segs, long_trip_segments fuel total dur remaining n = Some segs.
Proof.
  induction fuel as [|fuel IH]; intros remaining n Hf.
  - simpl. change (Qnat 0) with 0 in Hf.
    assert (Hle : remaining <= 0) by lra.
    apply Qgtb_false in Hle. rewrite Hle. eauto.
  - cbn [long_trip_segments].
    destruct (Qgtb remaining 0) eqn:E; [|eauto].
    apply Qgtb_true in E.
    destruct (IH (remaining - Qmin remaining 11) (n + 1)%Z) as [rest Hrest].
    + rewrite Qnat_S in Hf.
      destruct (Qmin_cases remaining 11) as [[_ Hm]|[_ Hm]];
        rewrite Hm; [|lra].
      assert (H0 : 0 <= Qnat fuel) by (apply (Qnat_le 0), Nat.le_0_l).
      lra.
    + rewrite Hrest. eauto.
Qed.

(** The view builds its list of segments for every route. *)
Lemma build_segments_total (route_data : route_data) :
  exists segs, build_segments route_data = Some segs.
Proof.
  unfold build_segments.
  destruct (Qle_bool (route_duration route_data) 11).
  - destruct (short_trip_segments_total (route_distance route_data)
                (route_duration route_data)
                (iterations (route_distance route_data) 1000) 0 1) as [segs ->].
    + assert (H := iterations_cover (route_distance route_data) 1000 eq_refl).
      lra.
    + eauto.
  - destruct (long_trip_segments_total (route_distance route_data)
                (route_duration route_data)
                (iterations (route_duration route_data) 11)
                (route_duration route_data) 1) as [segs ->].
    + apply iterations_cover. reflexivity.
    + eauto.
Qed.

Section ViewCases.

Variable get_route : coord -> coord -> coord -> route_result.
Variable to_decimal : Q -> Q.
Variable now_at_history now_at_start : Q.

(** The weekly hours are missing exactly for a driver that the store
    does not know. *)
Lemma weekly_used_for_cases (req : request) (db : database) :
  match driver_given req with
  | Some driver =>
      (driver ∈ drivers db /\
       weekly_used_for now_at_history req db =
         Some (weekly_used_of db driver (date now_at_history))) \/
      ((driver ∉ drivers db) /\ weekly_used_for now_at_history req db = None)
  | None => exists h, weekly_used_for now_at_history req db = Some h
  end.
Proof.
  unfold weekly_used_for. destruct (driver_given req) as [driver|].
  - destruct (decide (driver ∈ drivers db)); [left|right]; split;
      first [assumption|reflexivity].
  - eexists. reflexivity.
Qed.

(** A route with its coordinates: the segments are built, the logs are
    planned and persisted, and the response is made, unless the distance
    is zero. *)
Lemma plan_route_cases (req : request) (db : database) (weekly : Q)
      (route_data : route_data) :
  exists segments logs,
    build_segments route_data = Some segments /\
    hos_scheduler (start_datetime_of req now_at_start) segments weekly =
      Some logs /\
    snd (plan_route to_decimal now_at_start req db weekly route_data) =
      persist_logs to_decimal req logs db /\
    match split_route_segments route_data with
    | None =>
        fst (plan_route to_decimal now_at_start req db weekly route_data) =
        Uncaught_exception
    | Some slices =>
        fst (plan_route to_decimal now_at_start req db weekly route_data) =
        HTTP_200_OK (mkResponse route_data (route_statistics_of route_data)
                                logs true (calculate_rest_stops route_data)
                                slices)
    end.
Proof.
  unfold plan_route.
  destruct (build_segments_total route_data) as [segments Hb].
  destruct (hos_scheduler_total (start_datetime_of req now_at_start) segments
                                weekly) as [logs Hl].
  exists segments, logs. split; [exact Hb|]. split; [exact Hl|].
  rewrite Hb, Hl.
  destruct (split_route_segments route_data); split; reflexivity.
Qed.

(** A route without its coordinates: an exception in every case, before
    the scheduler is called or after the logs are persisted. *)
Lemma plan_route_without_coordinates_cases (req : request) (db : database)
      (weekly distance duration : Q) :
  fst (plan_route_without_coordinates to_decimal now_at_start req db weekly
                                      distance duration) =
    Uncaught_exception /\
  (snd (plan_route_without_coordinates to_decimal now_at_start req db weekly
                                       distance duration) = db \/
   exists segments logs,
     build_segments (mkRoute distance duration []) = Some segments /\
     hos_scheduler (start_datetime_of req now_at_start) segments weekly =
       Some logs /\
     snd (plan_route_without_coordinates to_decimal now_at_start req db weekly
                                         distance duration) =
       persist_logs to_decimal req logs db).
Proof.
  unfold plan_route_without_coordinates.
  destruct (build_segments_total (mkRoute distance duration []))
    as [segments Hb]. rewrite Hb.
  destruct (existsb reads_coordinates segments); [split; [reflexivity|left; reflexivity]|].
  destruct (hos_scheduler_total (start_datetime_of req now_at_start) segments
                                weekly) as [logs Hl]. rewrite Hl.
  split; [reflexivity|]. right. exists segments, logs.
  repeat split; first [reflexivity|assumption].
Qed.

(** The ways in which the view ends. *)
Lemma plan_trip_cases (req : request) (db : database) :
  let result :=
    plan_trip get_route to_decimal now_at_history now_at_start req db in
  result = (HTTP_400_BAD_REQUEST, db) \/
  exists c p d,
    validate_coordinates (current_location req) = Some c /\
    validate_coordinates (Views.pickup req) = Some p /\
    validate_coordinates (Views.dropoff req) = Some d /\
    ((get_route c p d = ValueError /\ result = (Uncaught_exception, db)) \/
     (get_route c p d <> ValueError /\
      weekly_used_for now_at_history req db = None /\
      result = (HTTP_404_NOT_FOUND, db)) \/
     exists weekly,
       weekly_used_for now_at_history req db = Some weekly /\
       ((exists route_data,
           get_route c p d = Route route_data /\
           result = plan_route to_decimal now_at_start req db weekly route_data) \/
        (exists distance duration,
           get_route c p d = Route_without_coordinates distance duration /\
           result = plan_route_without_coordinates to_decimal now_at_start
                      req db weekly distance duration))).
Proof.
  cbn zeta. unfold plan_trip.
  destruct (negb (is_valid req)); [left; reflexivity|].
  destruct (validate_coordinates (current_location req)) as [c|];
    [|left; reflexivity].
  destruct (validate_coordinates (Views.pickup req)) as [p|];
    [|left; reflexivity].
  destruct (validate_coordinates (Views.dropoff req)) as [d|];
    [|left; reflexivity].
  right. exists c, p, d. repeat (split; [reflexivity|]).
  destruct (get_route c p d) as [route_data|distance duration|] eqn:Er.
  - destruct (weekly_used_for now_at_history req db) as [weekly|].
    + right. right. exists weekly. split; [reflexivity|].
      left. exists route_data. split; reflexivity.
    + right. left. split; [discriminate|]. split; reflexivity.
  - destruct (weekly_used_for now_at_history req db) as [weekly|].
    + right. right. exists weekly. split; [reflexivity|].
      right. exists distance, duration. split; reflexivity.
    + right. left. split; [discriminate|]. split; reflexivity.
  - left. split; reflexivity.
Qed.

(** The view ends with a response or with an exception: the loops of
    the model never lack fuel. *)
Lemma plan_trip_ends (req : request) (db : database) :
  fst (plan_trip get_route to_decimal now_at_history now_at_start req db) <>
  Out_of_fuel.
Proof.
  destruct (plan_trip_cases req db) as [->|[c [p [d [_ [_ [_ H]]]]]]];
    [discriminate|].
  destruct H as [[_ ->]|[[_ [_ ->]]|[weekly [_ [[r [_ ->]]|[ds [du [_ ->]]]]]]]];
    try discriminate.
  - destruct (plan_route_cases req db weekly r) as [segs [logs [_ [_ [_ H]]]]].
    destruct (split_route_segments r); rewrite H; discriminate.
  - destruct (plan_route_without_coordinates_cases req db weekly ds du)
      as [-> _]. discriminate.
Qed.

(** What stands behind a response 200. *)
Lemma plan_trip_ok (req : request) (db : database) (resp : response) :
  fst (plan_trip get_route to_decimal now_at_history now_at_start req db) =
    HTTP_200_OK resp ->
  exists c p d weekly segments slices,
    validate_coordinates (current_location req) = Some c /\
    validate_coordinates (Views.pickup req) = Some p /\
    validate_coordinates (Views.dropoff req) = Some d /\
    get_route c p d = Route (route resp) /\
    weekly_used_for now_at_history req db = Some weekly /\
    build_segments (route resp) = Some segments /\
    hos_scheduler (start_datetime_of req now_at_start) segments weekly =
      Some (response_daily_logs resp) /\
    split_route_segments (route resp) = Some slices /\
    snd (plan_trip get_route to_decimal now_at_history now_at_start req db) =
      persist_logs to_decimal req (response_daily_logs resp) db.
Proof.
  destruct (plan_trip_cases req db) as [->|[c [p [d [Hc [Hp [Hd H]]]]]]];
    [discriminate|].
  destruct H as [[_ ->]|[[_ [_ ->]]|[weekly [Hw [[r [Hr ->]]|[ds [du [_ ->]]]]]]]];
    try discriminate.
  - destruct (plan_route_cases req db weekly r)
      as [segments [logs [Hb [Hrun [Hsnd Hfst]]]]].
    destruct (split_route_segments r) as [slices|] eqn:Es;
      rewrite Hfst; [|discriminate].
    intro H. injection H as <-. cbn [route response_daily_logs].
    exists c, p, d, weekly, segments, slices.
    repeat (split; [assumption|]). exact Hsnd.
  - destruct (plan_route_without_coordinates_cases req db weekly ds du)
      as [-> _]. discriminate.
Qed.

End ViewCases.

(** The number of slices is the duration over 11, rounded down, and 1 at
    least. *)
Lemma split_route_segments_length (route_data : route_data) segs :
  split_route_segments route_data = Some segs ->
  length segs =
  Z.to_nat (Z.max 1 (py_int (route_duration route_data / 11))).
Proof.
  unfold split_route_segments.
  destruct (Qeq_bool _ _); [discriminate|].
  intro H. injection H as <-. rewrite length_map, length_seq. reflexivity.
Qed.

(** The statistics of the response. *)
Lemma route_statistics_values (route_data : route_data) :
  estimated_fuel_cost (route_statistics_of route_data) =
    route_distance route_data * 0.15 /\
  estimated_tolls (route_statistics_of route_data) =
    route_distance route_data * 0.05 /\
  (0 < route_duration route_data ->
   average_speed (route_statistics_of route_data) =
     route_distance route_data / route_duration route_data) /\
  (route_duration route_data <= 0 ->
   average_speed (route_statistics_of route_data) = 0).
Proof.
  unfold route_statistics_of. cbn [estimated_fuel_cost estimated_tolls average_speed].
  repeat split.
  - intro H. apply Qgtb_true in H. rewrite H. reflexivity.
  - intro H. apply Qgtb_false in H. rewrite H. reflexivity.
Qed.

(** ** The store *)

Lemma ascending_NoDup (l : list Z) : ascending l -> List.NoDup l.
Proof.
  induction l as [|x l IH]; simpl.
  - intros _. constructor.
  - intros [Hx Hl]. constructor; [|apply IH, Hl].
    intro Hin. rewrite List.Forall_forall in Hx. specialize (Hx x Hin). lia.
Qed.

Section StoreFacts.

Variable to_decimal : Q -> Q.

(** The upserts of a plan leave the other keys as they were. *)
Lemma persist_other_keys (driver : Z) (logs : list daily_log) :
  forall (rods : gmap (Z * Z) daily_rod) (key : Z * Z),
    (forall log, In log logs -> key <> (driver, log_date log)) ->
    fold_left (fun rods log => update_or_create to_decimal driver log rods)
              logs rods !! key =
    rods !! key.
Proof.
  induction logs as [|l logs IH]; intros rods key Hkey; simpl.
  - reflexivity.
  - rewrite IH.
    + unfold update_or_create. apply lookup_insert_ne.
      intro Heq. apply (Hkey l); [left; reflexivity|]. symmetry. exact Heq.
    + intros log Hin. apply Hkey. right. exact Hin.
Qed.

(** With one log per date, the record of a date is the one of its log. *)
Lemma persist_log_key (driver : Z) (logs : list daily_log) :
  forall (rods : gmap (Z * Z) daily_rod) (log : daily_log),
    List.NoDup (map log_date logs) -> In log logs ->
    fold_left (fun rods log => update_or_create to_decimal driver log rods)
              logs rods
      !! (driver, log_date log) = Some (rod_of_log to_decimal log).
Proof.
  induction logs as [|l logs IH]; intros rods log Hnd Hin; simpl.
  - destruct Hin.
  - inversion Hnd as [|? ? Hnot Hnd']; subst.
    destruct Hin as [->|Hin].
    + rewrite persist_other_keys.
      * unfold update_or_create. apply lookup_insert_eq.
      * intros log' Hin' Heq. apply Hnot.
        injection Heq as Heq. rewrite Heq. apply in_map. exact Hin'.
    + apply IH; assumption.
Qed.

(** What the upserts of the logs of a run make of the store. *)
Lemma persist_scheduled (driver : Z) (db : database) start segs w logs :
  hos_scheduler start segs w = Some logs ->
  logs <> [] /\
  List.NoDup (map log_date logs) /\
  drivers (persist to_decimal driver logs db) = drivers db /\
  (forall log, In log logs ->
     daily_rods (persist to_decimal driver logs db) !! (driver, log_date log) =
     Some (rod_of_log to_decimal log)) /\
  (forall key, (forall log, In log logs -> key <> (driver, log_date log)) ->
     daily_rods (persist to_decimal driver logs db) !! key =
     daily_rods db !! key).
Proof.
  intro Hrun.
  assert (Hnd : List.NoDup (map log_date logs)).
  { apply ascending_NoDup. eapply hos_scheduler_dates_ascending. exact Hrun. }
  split.
  { unfold hos_scheduler, hos_scheduler_fuel in Hrun.
    destruct (process_segments _ _ _) as [st|]; [|discriminate].
    injection Hrun as <-. unfold finish. intro Hnil.
    apply app_eq_nil in Hnil. destruct Hnil as [_ Hnil]. discriminate. }
  split; [exact Hnd|]. split; [reflexivity|]. split.
  - intros log Hl. unfold persist. cbn [daily_rods].
    apply persist_log_key; assumption.
  - intros key Hkey. unfold persist. cbn [daily_rods].
    apply persist_other_keys. exact Hkey.
Qed.

End StoreFacts.

(** C10: a request that the view rejects, with status 400 or 404, leaves
    the store as it was, and so does every request that names no driver.
    A response 200 to a request that names a driver comes with the store
    written: the driver is known, the logs of the response are those that
    the scheduler returned for the segments of the route, they are not
    empty, their dates differ and their totals lie between 0 and 58 hours
    (in the range of the columns), and the store is the old one with one
    upsert per log under the key of the driver and the date of the log:
    every such key holds the record of its log, all other keys and the
    drivers are as they were.  In every outcome the store is the old one
    or the old one with the upserts of the full list of logs of a run of
    the scheduler: nothing is written before the scheduler returns. *)
Theorem plan_trip_persists_after_scheduling
        (get_route : coord -> coord -> coord -> route_result)
        (to_decimal : Q -> Q)
        (now_at_history now_at_start : Q) (req : request) (db : database) :
  let result :=
    plan_trip get_route to_decimal now_at_history now_at_start req db in
  ((fst result = HTTP_400_BAD_REQUEST \/ fst result = HTTP_404_NOT_FOUND) ->
   snd result = db) /\
  (driver_given req = None -> snd result = db) /\
  (forall resp driver,
     fst result = HTTP_200_OK resp ->
     driver_given req = Some driver ->
     driver ∈ drivers db /\
     (exists segments,
        build_segments (route resp) = Some segments /\
        hos_scheduler (start_datetime_of req now_at_start) segments
                      (weekly_used_of db driver (date now_at_history)) =
          Some (response_daily_logs resp)) /\
     response_daily_logs resp <> [] /\
     List.NoDup (map log_date (response_daily_logs resp)) /\
     List.Forall day_within (response_daily_logs resp) /\
     snd result = persist to_decimal driver (response_daily_logs resp) db /\
     drivers (snd result) = drivers db /\
     (forall log, In log (response_daily_logs resp) ->
        daily_rods (snd result) !! (driver, log_date log) =
        Some (rod_of_log to_decimal log)) /\
     (forall key,
        (forall log, In log (response_daily_logs resp) ->
                     key <> (driver, log_date log)) ->
        daily_rods (snd result) !! key = daily_rods db !! key)) /\
  (snd result = db \/
   exists driver route_data segments logs,
     driver_given req = Some driver /\
     driver ∈ drivers db /\
     build_segments route_data = Some segments /\
     hos_scheduler (start_datetime_of req now_at_start) segments
                   (weekly_used_of db driver (date now_at_history)) = Some logs /\
     snd result = persist to_decimal driver logs db).
Proof.
  cbn zeta.
  assert (Hw := weekly_used_for_cases now_at_history req db).
  destruct (plan_trip_cases get_route to_decimal now_at_history now_at_start
                            req db)
    as [->|[c [p [d [_ [_ [_ H]]]]]]].
  { cbn [fst snd]. split; [intros _; reflexivity|].
    split; [intros _; reflexivity|].
    split; [intros resp driver H; discriminate H|left; reflexivity]. }
  destruct H as [[_ ->]|[[_ [_ ->]]|[weekly [Hweekly H]]]].
  { cbn [fst snd]. split; [intros _; reflexivity|].
    split; [intros _; reflexivity|].
    split; [intros resp driver H; discriminate H|left; reflexivity]. }
  { cbn [fst snd]. split; [intros _; reflexivity|].
    split; [intros _; reflexivity|].
    split; [intros resp driver H; discriminate H|left; reflexivity]. }
  destruct H as [[route_data [_ ->]]|[distance [duration [_ ->]]]].
  - destruct (plan_route_cases to_decimal now_at_start req db weekly route_data)
      as [segments [logs [Hb [Hrun [Hsnd Hfst]]]]].
    rewrite Hsnd. unfold persist_logs.
    destruct (driver_given req) as [driver|] eqn:Eg.
    + destruct Hw as [[Hin Hw]|[_ Hw]]; [|congruence].
      rewrite Hw in Hweekly. injection Hweekly as <-.
      destruct (persist_scheduled to_decimal driver db _ _ _ _ Hrun)
        as [Hne [Hnd [Hdrv [Hkeys Hother]]]].
      assert (Hfit := totals_stay_within_58 _ _ _ _ Hrun).
      split.
      { intros [H|H]; destruct (split_route_segments route_data);
          rewrite Hfst in H; discriminate. }
      split; [discriminate|]. split.
      * intros resp driver' Hok Hd. injection Hd as <-.
        destruct (split_route_segments route_data) as [slices|];
          rewrite Hfst in Hok; [|discriminate].
        injection Hok as <-. cbn [route response_daily_logs].
        split; [exact Hin|]. split; [exists segments; split; assumption|].
        repeat (split; [first [assumption|reflexivity]|]). exact Hother.
      * right. exists driver, route_data, segments, logs.
        repeat (split; [first [assumption|reflexivity]|]). reflexivity.
    + split; [reflexivity|]. split; [reflexivity|]. split.
      * intros resp driver _ H. discriminate H.
      * left. reflexivity.
  - destruct (plan_route_without_coordinates_cases to_decimal now_at_start
                req db weekly distance duration) as [Hfst Hsnd].
    rewrite Hfst.
    split; [intros [H|H]; discriminate|].
    split.
    { intro Hg. destruct Hsnd as [Hsnd|[segs [logs [_ [_ Hsnd]]]]];
        [exact Hsnd|]. rewrite Hsnd. unfold persist_logs. rewrite Hg.
      reflexivity. }
    split; [intros resp driver H; discriminate H|].
    destruct Hsnd as [Hsnd|[segments [logs [Hb [Hrun Hsnd]]]]];
      [left; exact Hsnd|].
    rewrite Hsnd. unfold persist_logs.
    destruct (driver_given req) as [driver|] eqn:Eg; [|left; reflexivity].
    destruct Hw as [[Hin Hw]|[_ Hw]]; [|congruence].
    rewrite Hw in Hweekly. injection Hweekly as <-.
    right. exists driver, (mkRoute distance duration []), segments, logs.
    repeat (split; [first [assumption|reflexivity]|]). reflexivity.
Qed.

Lemma plan_trip_persists_after_scheduling_witness :
  snd (plan_trip ViewsMore.fixed_route ViewsMore.two_places 10 10
                 ViewsMore.request_of_driver_1 store_with_later_record) =
    persist ViewsMore.two_places 1
            (response_daily_logs ViewsMore.response_for_driver_1)
            store_with_later_record /\
  forall log, In log (response_daily_logs ViewsMore.response_for_driver_1) ->
    daily_rods
      (snd (plan_trip ViewsMore.fixed_route ViewsMore.two_places 10 10
                      ViewsMore.request_of_driver_1 store_with_later_record))
      !! (1%Z, log_date log) =
    Some (rod_of_log ViewsMore.two_places log).
Proof.
  destruct (proj1 (proj2 (proj2
              (plan_trip_persists_after_scheduling
                 ViewsMore.fixed_route ViewsMore.two_places 10 10
                 ViewsMore.request_of_driver_1 store_with_later_record)))
              ViewsMore.response_for_driver_1 1%Z)
    as [_ [_ [_ [_ [_ [Hstore [_ [Hkeys _]]]]]]]].
  - vm_compute. reflexivity.
  - vm_compute. reflexivity.
  - split; [exact Hstore|exact Hkeys].
Defined.


(** * Further properties of the scheduler *)

Module HosMoreFacts.

Import Clock ClockFacts Hos HosSpec HosFacts HosEntries HosInvariants HosMore.

(** ** The days of the result *)

Lemma starts_on_new_day_check day st :
  starts_on day st -> starts_on day (new_day_check st).
Proof.
  unfold starts_on, new_day_check.
  destruct (Z.eqb _ _); [auto|].
  destruct (Qgtb _ _); cbn [daily_logs day_start];
    destruct (daily_logs st); simpl; auto.
Qed.

Lemma starts_on_same day st st' :
  daily_logs st' = daily_logs st -> day_start st' = day_start st ->
  starts_on day st -> starts_on day st'.
Proof. unfold starts_on. intros -> ->. auto. Qed.

Lemma starts_on_drive_checks day st d :
  starts_on day st -> starts_on day (drive_checks st d).
Proof.
  apply starts_on_same;
    unfold drive_checks, eight_hour_check, eleven_hour_check;
    destruct (Qgtb (daily_driving st + d) 11);
    match goal with |- context [if ?c then _ else _] => destruct c end;
    reflexivity.
Qed.

Lemma starts_on_on_duty_checks day st d :
  starts_on day st -> starts_on day (on_duty_checks st d).
Proof.
  apply starts_on_same; unfold on_duty_checks;
    destruct (Qgtb _ _); reflexivity.
Qed.

Lemma starts_on_loop_step emit sts loc day st r :
  advances emit -> appends emit sts ->
  starts_on day st -> starts_on day (loop_step emit loc st r).
Proof.
  intros Hadv Happ H. apply starts_on_new_day_check in H.
  unfold loop_step. revert H. apply starts_on_same.
  - apply Happ.
  - apply Hadv.
Qed.

Lemma starts_on_process_segment day fuel st seg st' :
  starts_on day st -> process_segment fuel st seg = Some st' -> starts_on day st'.
Proof.
  apply process_segment_inv.
  - apply starts_on_new_day_check.
  - intros s d. apply starts_on_drive_checks.
  - intros s d. apply starts_on_on_duty_checks.
  - intros s r loc H _. revert H.
    apply (starts_on_loop_step emit_drive "driving");
      [apply emit_drive_advances|apply emit_drive_appends].
  - intros s r loc H _. revert H.
    apply (starts_on_loop_step emit_on_duty "on_duty");
      [apply emit_on_duty_advances|apply emit_on_duty_appends].
  - intros s r loc H _. revert H.
    apply (starts_on_loop_step emit_off_duty "off_duty");
      [apply emit_off_duty_advances|apply emit_off_duty_appends].
Qed.

Lemma starts_on_initial start w :
  starts_on (date start) (weekly_check (initial_state start w)).
Proof.
  unfold starts_on, weekly_check, initial_state.
  destruct (Qgtb start (midnight start));
    cbn [weekly_hours]; destruct (Qgtb w 70);
    cbn [daily_logs day_start set_weekly_hours insert_rest];
    apply date_midnight.
Qed.

(** X1: for every start, list of segments and weekly hours, the scheduler
    returns a list of logs that is not empty, whose first log is the one of
    the day of the start, and whose dates are strictly ascending. *)
Theorem logs_start_on_the_first_day (start : Q) (segs : list segment) (w : Q) :
  exists first others,
    hos_scheduler start segs w = Some (first :: others) /\
    log_date first = date start /\
    ascending (map log_date (first :: others)).
Proof.
  destruct (hos_scheduler_total start segs w) as [logs Hlogs].
  assert (Hasc := hos_scheduler_dates_ascending _ _ _ _ Hlogs).
  unfold hos_scheduler, hos_scheduler_fuel in Hlogs.
  destruct (process_segments _ _ segs) as [st|] eqn:E; [|discriminate].
  injection Hlogs as Hlogs.
  assert (Hs : starts_on (date start) st).
  { eapply process_segments_inv; [|apply starts_on_initial|exact E].
    intros s seg s'. apply starts_on_process_segment. }
  assert (Hfirst : exists first others,
             finish st = first :: others /\ log_date first = date start).
  { unfold finish, starts_on in *.
    destruct (Qltb _ _); unfold set_weekly_hours; cbn [daily_logs];
      destruct (daily_logs st) as [|g gs]; simpl; eauto. }
  destruct Hfirst as [first [others [Hf Hd]]].
  exists first, others. unfold hos_scheduler, hos_scheduler_fuel.
  rewrite E, Hf. rewrite <- Hlogs, Hf in Hasc. auto.
Qed.

(** ** The entries of the result *)

Lemma rest_entry_well_formed t d loc :
  0 < d -> d <= 34 -> well_formed_entry (rest_entry t d loc).
Proof. intros H1 H2. unfold well_formed_entry. simpl. auto. Qed.

Lemma new_day_check_well_formed st :
  extends well_formed_entry st (new_day_check st).
Proof.
  unfold new_day_check, extends, all_entries.
  destruct (Z.eqb _ _).
  { exists []. split; [symmetry; apply app_nil_r|constructor]. }
  destruct (Qgtb _ _) eqn:G; cbn [daily_logs daily_entries];
    rewrite entries_of_snoc; cbn [entries close_day].
  - eexists. split; [reflexivity|].
    constructor; [|constructor].
    apply Qgtb_true in G. assert (H := midnight_gt (current_time st)).
    unfold well_formed_entry. cbn [status duration]. repeat split; auto; lra.
  - exists []. split; [rewrite !app_nil_r; reflexivity|constructor].
Qed.

Lemma checks_well_formed st d :
  extends well_formed_entry st (drive_checks st d) /\
  extends well_formed_entry st (on_duty_checks st d).
Proof.
  split.
  - unfold drive_checks. eapply extends_trans with (st2 := eleven_hour_check st d).
    + unfold eleven_hour_check. destruct (Qgtb _ _); [|apply extends_refl].
      apply (insert_rest_extends well_formed_entry st 10).
      apply rest_entry_well_formed; lra.
    + unfold eight_hour_check. destruct (Qgtb _ _); [|apply extends_refl].
      apply (insert_rest_extends well_formed_entry _ (1 # 2)).
      apply rest_entry_well_formed; lra.
  - unfold on_duty_checks. destruct (Qgtb _ _); [|apply extends_refl].
    apply (insert_rest_extends well_formed_entry st 10).
    apply rest_entry_well_formed; lra.
Qed.

Lemma loop_step_well_formed emit sts loc st r :
  advances emit -> appends emit sts ->
  (sts = "driving" \/ sts = "on_duty" \/ sts = "off_duty") ->
  aligned st -> 0 < r ->
  extends well_formed_entry st (loop_step emit loc st r).
Proof.
  intros Hadv Happ Hsts Ha Hr.
  eapply extends_trans; [apply new_day_check_well_formed|].
  destruct (chunk_bounds st r Ha Hr) as [Hpos [_ Hle]].
  destruct (new_day_check_in_day st Ha) as [Hlo _].
  unfold loop_step. eexists. split; [apply (emit_entries emit sts), Happ|].
  constructor; [|constructor].
  unfold well_formed_entry, timed_entry. cbn [status duration].
  unfold time_left_in_day, one_day in *.
  split; [exact Hsts|]. split; [exact Hpos|]. lra.
Qed.

Lemma split_loop_well_formed emit sts loc fuel st r st' :
  advances emit -> appends emit sts ->
  (sts = "driving" \/ sts = "on_duty" \/ sts = "off_duty") ->
  aligned st -> split_loop emit loc fuel st r = Some st' ->
  extends well_formed_entry st st'.
Proof.
  intros Hadv Happ Hsts Ha Hrun.
  refine (proj2 (split_loop_inv
                   (fun s => aligned s /\ extends well_formed_entry st s)
                   emit loc _ fuel st r st' _ Hrun)).
  - intros s q [Has He] Hq. split; [apply loop_step_aligned; assumption|].
    eapply extends_trans; [exact He|].
    apply (loop_step_well_formed emit sts); assumption.
  - split; [exact Ha|apply extends_refl].
Qed.

Lemma process_segment_well_formed fuel st seg st' :
  aligned st -> process_segment fuel st seg = Some st' ->
  extends well_formed_entry st st'.
Proof.
  intros Ha. unfold process_segment.
  assert (Ha1 := new_day_check_aligned st Ha).
  assert (He1 := new_day_check_well_formed st).
  destruct (checks_well_formed (new_day_check st) (seg_duration seg)) as [Hcd Hco].
  destruct (String.eqb (seg_type seg) "drive").
  { intro Hrun. eapply extends_trans; [exact He1|].
    eapply extends_trans; [exact Hcd|].
    eapply (split_loop_well_formed emit_drive "driving");
      [apply emit_drive_advances|apply emit_drive_appends|auto|
       apply drive_checks_aligned, Ha1|exact Hrun]. }
  destruct (String.eqb (seg_type seg) "on_duty").
  { intro Hrun. eapply extends_trans; [exact He1|].
    eapply extends_trans; [exact Hco|].
    eapply (split_loop_well_formed emit_on_duty "on_duty");
      [apply emit_on_duty_advances|apply emit_on_duty_appends|auto|
       apply on_duty_checks_aligned, Ha1|exact Hrun]. }
  destruct (String.eqb (seg_type seg) "off_duty").
  { intro Hrun. eapply extends_trans; [exact He1|].
    eapply (split_loop_well_formed emit_off_duty "off_duty");
      [apply emit_off_duty_advances|apply emit_off_duty_appends|auto|
       exact Ha1|exact Hrun]. }
  intro H. injection H as <-. exact He1.
Qed.

Lemma process_segments_well_formed fuel segs :
  forall st st',
    aligned st -> process_segments fuel st segs = Some st' ->
    extends well_formed_entry st st'.
Proof.
  induction segs as [|seg rest IH]; intros st st' Ha Hrun; simpl in Hrun.
  - injection Hrun as <-. apply extends_refl.
  - destruct (process_segment fuel st seg) as [st1|] eqn:E; [|discriminate].
    eapply extends_trans; [apply (process_segment_well_formed _ _ _ _ Ha E)|].
    apply IH; [|exact Hrun]. eapply process_segment_aligned; [exact Ha|exact E].
Qed.

Lemma initial_entries_well_formed start w :
  List.Forall well_formed_entry
              (all_entries (weekly_check (initial_state start w))).
Proof.
  assert (Hi : List.Forall well_formed_entry (all_entries (initial_state start w))).
  { unfold initial_state, all_entries.
    destruct (Qgtb _ _) eqn:G; cbn [daily_logs daily_entries entries_of flat_map app];
      [|constructor].
    apply Qgtb_true in G. assert (H := midnight_gt start).
    constructor; [|constructor].
    unfold well_formed_entry. cbn [status duration]. repeat split; auto; lra. }
  unfold weekly_check. destruct (Qgtb _ _); [|exact Hi].
  unfold set_weekly_hours, all_entries. cbn [daily_logs daily_entries].
  fold (all_entries (insert_rest (initial_state start w) 34 "34-hour Restart")).
  rewrite insert_rest_entries. apply List.Forall_app. split; [exact Hi|].
  constructor; [|constructor]. apply rest_entry_well_formed; lra.
Qed.

(** X2: every entry of every log returned has one of the three statuses
    and a duration that is positive and of 34 hours at most: no empty
    entry is emitted, whatever the segments. *)
Theorem entries_are_well_formed (start : Q) (segs : list segment) (w : Q) :
  exists logs,
    hos_scheduler start segs w = Some logs /\
    List.Forall well_formed_entry (entries_of logs).
Proof.
  destruct (hos_scheduler_total start segs w) as [logs Hlogs].
  exists logs. split; [exact Hlogs|].
  unfold hos_scheduler, hos_scheduler_fuel in Hlogs.
  destruct (process_segments _ _ segs) as [st|] eqn:E; [|discriminate].
  injection Hlogs as <-.
  assert (Ha0 : aligned (weekly_check (initial_state start w)))
    by apply weekly_check_aligned, initial_state_aligned.
  destruct (process_segments_well_formed _ _ _ _ Ha0 E) as [ext [He Hf]].
  assert (Hord : ordered st).
  { eapply process_segments_inv; [|apply ordered_initial|exact E].
    intros s seg s'. apply ordered_process_segment. }
  destruct Hord as [_ [Hlo _]].
  unfold finish.
  destruct (Qltb _ _) eqn:G; unfold set_weekly_hours; cbn [daily_logs];
    rewrite entries_of_snoc; unfold close_day; cbn [entries daily_entries].
  - apply Qltb_true in G. rewrite app_assoc.
    fold (all_entries st). rewrite He.
    apply List.Forall_app. split.
    + apply List.Forall_app. split; [apply initial_entries_well_formed|exact Hf].
    + constructor; [|constructor].
      unfold well_formed_entry, one_day in *. cbn [status duration].
      repeat split; auto; lra.
  - fold (all_entries st). rewrite He.
    apply List.Forall_app. split; [apply initial_entries_well_formed|exact Hf].
Qed.

(** ** The hours of the segments *)

Lemma off_duty_hours_none sts (l : list entry) :
  String.eqb "off_duty" sts = false ->
  List.Forall is_off_duty l -> hours_with sts l == 0.
Proof.
  intros Hs Hf. apply hours_with_none.
  eapply List.Forall_impl; [|exact Hf].
  intros e He. unfold is_off_duty in He. rewrite He. exact Hs.
Qed.

Lemma checks_off_duty st d :
  extends is_off_duty st (drive_checks st d) /\
  extends is_off_duty st (on_duty_checks st d).
Proof.
  split.
  - unfold drive_checks. eapply extends_trans with (st2 := eleven_hour_check st d).
    + unfold eleven_hour_check. destruct (Qgtb _ _); [|apply extends_refl].
      apply (insert_rest_extends is_off_duty st 10). reflexivity.
    + unfold eight_hour_check. destruct (Qgtb _ _); [|apply extends_refl].
      apply (insert_rest_extends is_off_duty _ (1 # 2)). reflexivity.
  - unfold on_duty_checks. destruct (Qgtb _ _); [|apply extends_refl].
    apply (insert_rest_extends is_off_duty st 10). reflexivity.
Qed.

Lemma new_day_check_off_duty st : extends is_off_duty st (new_day_check st).
Proof.
  eapply extends_impl; [|apply new_day_check_extends]. intros e [H _]. exact H.
Qed.

(** The pieces of a loop count for their own status only. *)
Lemma split_loop_other_hours emit sts loc fuel st r st' other :
  appends emit sts ->
  String.eqb "off_duty" other = false -> String.eqb sts other = false ->
  split_loop emit loc fuel st r = Some st' ->
  exists ext, all_entries st' = all_entries st ++ ext /\ hours_with other ext == 0.
Proof.
  intros Happ Ho Hs Hrun.
  destruct (split_loop_extends _ _ _ _ _ _ _ Happ Hrun) as [ext [He Hf]].
  exists ext. split; [exact He|]. apply hours_with_none.
  eapply List.Forall_impl; [|exact Hf].
  intros e [[H _]|[H _]]; rewrite H; assumption.
Qed.

Lemma extends_hours_none sts st st' :
  String.eqb "off_duty" sts = false -> extends is_off_duty st st' ->
  exists ext, all_entries st' = all_entries st ++ ext /\ hours_with sts ext == 0.
Proof.
  intros Hs [ext [He Hf]]. exists ext. split; [exact He|].
  apply off_duty_hours_none; assumption.
Qed.

(** What a segment adds to the driving hours and to the on-duty hours of
    the entries: its duration under its own status, nothing else. *)
Lemma process_segment_hours fuel st seg st' :
  0 <= seg_duration seg ->
  process_segment fuel st seg = Some st' ->
  exists ext,
    all_entries st' = all_entries st ++ ext /\
    hours_with "driving" ext ==
      (if String.eqb (seg_type seg) "drive" then seg_duration seg else 0) /\
    hours_with "on_duty" ext ==
      (if String.eqb (seg_type seg) "on_duty" then seg_duration seg else 0).
Proof.
  intros Hd. unfold process_segment.
  destruct (extends_hours_none "driving" _ _ eq_refl (new_day_check_off_duty st))
    as [e1 [He1 Hd1]].
  destruct (extends_hours_none "on_duty" _ _ eq_refl (new_day_check_off_duty st))
    as [e1' [He1' Ho1]].
  assert (e1' = e1) by (eapply app_inv_head; rewrite <- He1, <- He1'; reflexivity).
  subst e1'.
  destruct (checks_off_duty (new_day_check st) (seg_duration seg)) as [Hcd Hco].
  destruct (String.eqb (seg_type seg) "drive") eqn:Ty.
  { apply String.eqb_eq in Ty. rewrite Ty. cbn [String.eqb Ascii.eqb Bool.eqb].
    intro Hrun.
    destruct Hcd as [e2 [He2 Hf2]].
    destruct (split_loop_hours _ "driving" _ _ _ _ _ emit_drive_appends eq_refl
                Hd Hrun) as [e3 [He3 [_ Hh3]]].
    destruct (split_loop_other_hours _ "driving" _ _ _ _ _ "on_duty"
                emit_drive_appends eq_refl eq_refl Hrun) as [e3' [He3' Ho3]].
    assert (e3' = e3) by (eapply app_inv_head; rewrite <- He3, <- He3'; reflexivity).
    subst e3'.
    exists (e1 ++ e2 ++ e3). split; [|split].
    - rewrite He3, He2, He1. rewrite <- !app_assoc. reflexivity.
    - rewrite !hours_with_app, Hd1, Hh3.
      rewrite (off_duty_hours_none "driving" e2 eq_refl Hf2). lra.
    - rewrite !hours_with_app, Ho1, Ho3.
      rewrite (off_duty_hours_none "on_duty" e2 eq_refl Hf2). lra. }
  destruct (String.eqb (seg_type seg) "on_duty") eqn:Ty2.
  { intro Hrun.
    destruct Hco as [e2 [He2 Hf2]].
    destruct (split_loop_hours _ "on_duty" _ _ _ _ _ emit_on_duty_appends eq_refl
                Hd Hrun) as [e3 [He3 [_ Hh3]]].
    destruct (split_loop_other_hours _ "on_duty" _ _ _ _ _ "driving"
                emit_on_duty_appends eq_refl eq_refl Hrun) as [e3' [He3' Ho3]].
    assert (e3' = e3) by (eapply app_inv_head; rewrite <- He3, <- He3'; reflexivity).
    subst e3'.
    exists (e1 ++ e2 ++ e3). split; [|split].
    - rewrite He3, He2, He1. rewrite <- !app_assoc. reflexivity.
    - rewrite !hours_with_app, Hd1, Ho3.
      rewrite (off_duty_hours_none "driving" e2 eq_refl Hf2). lra.
    - rewrite !hours_with_app, Ho1, Hh3.
      rewrite (off_duty_hours_none "on_duty" e2 eq_refl Hf2). lra. }
  destruct (String.eqb (seg_type seg) "off_duty").
  { intro Hrun.
    destruct (split_loop_extends _ _ _ _ _ _ _ emit_off_duty_appends Hrun)
      as [e3 [He3 Hf3]].
    assert (Hoff : List.Forall is_off_duty e3).
    { eapply List.Forall_impl; [|exact Hf3]. intros e [[H _]|[H _]]; exact H. }
    exists (e1 ++ e3). split; [|split].
    - rewrite He3, He1. rewrite <- !app_assoc. reflexivity.
    - rewrite !hours_with_app, Hd1.
      rewrite (off_duty_hours_none "driving" e3 eq_refl Hoff). lra.
    - rewrite !hours_with_app, Ho1.
      rewrite (off_duty_hours_none "on_duty" e3 eq_refl Hoff). lra. }
  intro H. injection H as <-. exists e1. auto.
Qed.

Lemma process_segments_hours fuel segs :
  List.Forall (fun seg => 0 <= seg_duration seg) segs ->
  forall st st',
    process_segments fuel st segs = Some st' ->
    exists ext,
      all_entries st' = all_entries st ++ ext /\
      hours_with "driving" ext == planned_hours "drive" segs /\
      hours_with "on_duty" ext == planned_hours "on_duty" segs.
Proof.
  induction 1 as [|seg rest Hseg _ IH]; intros st st' Hrun; simpl in Hrun.
  - injection Hrun as <-. exists []. split; [symmetry; apply app_nil_r|].
    split; reflexivity.
  - destruct (process_segment fuel st seg) as [st1|] eqn:E; [|discriminate].
    destruct (process_segment_hours _ _ _ _ Hseg E) as [e1 [He1 [Hd1 Ho1]]].
    destruct (IH _ _ Hrun) as [e2 [He2 [Hd2 Ho2]]].
    exists (e1 ++ e2). split; [|split].
    + rewrite He2, He1. symmetry. apply app_assoc.
    + rewrite hours_with_app, Hd1, Hd2. cbn [planned_hours fold_right].
      fold (planned_hours "drive" rest).
      destruct (String.eqb (seg_type seg) "drive"); lra.
    + rewrite hours_with_app, Ho1, Ho2. cbn [planned_hours fold_right].
      fold (planned_hours "on_duty" rest).
      destruct (String.eqb (seg_type seg) "on_duty"); lra.
Qed.

Lemma initial_entries_off_duty start w :
  List.Forall is_off_duty (all_entries (weekly_check (initial_state start w))).
Proof.
  assert (Hi : List.Forall is_off_duty (all_entries (initial_state start w))).
  { destruct (initial_state_entries start w) as [-> Hf].
    eapply List.Forall_impl; [|exact Hf]. intros e [H _]. exact H. }
  unfold weekly_check. destruct (Qgtb _ _); [|exact Hi].
  unfold set_weekly_hours, all_entries. cbn [daily_logs daily_entries].
  fold (all_entries (insert_rest (initial_state start w) 34 "34-hour Restart")).
  rewrite insert_rest_entries. apply List.Forall_app. split; [exact Hi|].
  constructor; [reflexivity|constructor].
Qed.

Lemma hos_scheduler_hours (start : Q) (segs : list segment) (w : Q) logs :
  List.Forall (fun seg => 0 <= seg_duration seg) segs ->
  hos_scheduler start segs w = Some logs ->
  hours_with "driving" (entries_of logs) == planned_hours "drive" segs /\
  hours_with "on_duty" (entries_of logs) == planned_hours "on_duty" segs.
Proof.
  intros Hpos Hlogs.
  unfold hos_scheduler, hos_scheduler_fuel in Hlogs.
  destruct (process_segments _ _ segs) as [st|] eqn:E; [|discriminate].
  injection Hlogs as <-.
  destruct (process_segments_hours _ _ Hpos _ _ E) as [ext [He [Hd Ho]]].
  destruct (finish_entries st) as [last [Hl Hlf]].
  assert (Hlast : List.Forall is_off_duty last).
  { eapply List.Forall_impl; [|exact Hlf]. intros e [H _]. exact H. }
  assert (Hinit := initial_entries_off_duty start w).
  rewrite Hl, He, !hours_with_app.
  rewrite (off_duty_hours_none "driving" _ eq_refl Hinit),
    (off_duty_hours_none "driving" _ eq_refl Hlast),
    (off_duty_hours_none "on_duty" _ eq_refl Hinit),
    (off_duty_hours_none "on_duty" _ eq_refl Hlast).
  split; lra.
Qed.

(** X3: when no segment has a negative duration, the driving entries of
    the logs returned sum to the hours of the drive segments, and the
    on-duty entries to the hours of the on-duty segments: the scheduler
    neither drops nor adds driving or on-duty time, whatever rests it
    inserts and wherever midnight falls. *)
Theorem duty_hours_are_conserved (start : Q) (segs : list segment) (w : Q) :
  List.Forall (fun seg => 0 <= seg_duration seg) segs ->
  exists logs,
    hos_scheduler start segs w = Some logs /\
    hours_with "driving" (entries_of logs) == planned_hours "drive" segs /\
    hours_with "on_duty" (entries_of logs) == planned_hours "on_duty" segs.
Proof.
  intro Hpos.
  destruct (hos_scheduler_total start segs w) as [logs Hlogs].
  exists logs. split; [exact Hlogs|].
  apply (hos_scheduler_hours start segs w); assumption.
Qed.

Lemma duty_hours_are_conserved_witness :
  exists logs,
    hos_scheduler Examples.eight_am Examples.scenario_1 0 = Some logs /\
    hours_with "driving" (entries_of logs) ==
      planned_hours "drive" Examples.scenario_1 /\
    hours_with "on_duty" (entries_of logs) ==
      planned_hours "on_duty" Examples.scenario_1.
Proof.
  apply (duty_hours_are_conserved Examples.eight_am Examples.scenario_1 0).
  repeat constructor; vm_compute; discriminate.
Defined.

(** ** The weekly hours *)

Lemma new_day_check_set_weekly st v :
  new_day_check (set_weekly_hours st v) = set_weekly_hours (new_day_check st) v.
Proof.
  unfold new_day_check, set_weekly_hours.
  cbn [current_time day_start daily_logs].
  destruct (Z.eqb _ _); [reflexivity|].
  destruct (Qgtb _ _); reflexivity.
Qed.

Lemma eleven_hour_check_set_weekly st d v :
  eleven_hour_check (set_weekly_hours st v) d =
  set_weekly_hours (eleven_hour_check st d) v.
Proof.
  unfold eleven_hour_check.
  change (daily_driving (set_weekly_hours st v)) with (daily_driving st).
  destruct (Qgtb _ _); reflexivity.
Qed.

Lemma eight_hour_check_set_weekly st d v :
  eight_hour_check (set_weekly_hours st v) d =
  set_weekly_hours (eight_hour_check st d) v.
Proof.
  unfold eight_hour_check.
  change (consecutive_driving (set_weekly_hours st v))
    with (consecutive_driving st).
  destruct (Qgtb _ _); reflexivity.
Qed.

Lemma drive_checks_set_weekly st d v :
  drive_checks (set_weekly_hours st v) d = set_weekly_hours (drive_checks st d) v.
Proof.
  unfold drive_checks.
  rewrite eleven_hour_check_set_weekly, eight_hour_check_set_weekly.
  reflexivity.
Qed.

Lemma on_duty_checks_set_weekly st d v :
  on_duty_checks (set_weekly_hours st v) d =
  set_weekly_hours (on_duty_checks st d) v.
Proof.
  unfold on_duty_checks.
  change (daily_on_duty (set_weekly_hours st v)) with (daily_on_duty st).
  destruct (Qgtb _ _); reflexivity.
Qed.

Lemma split_loop_set_weekly emit loc v :
  ignores_weekly emit ->
  forall fuel st r,
    split_loop emit loc fuel (set_weekly_hours st v) r =
    option_map (fun s => set_weekly_hours s v) (split_loop emit loc fuel st r).
Proof.
  intros Hig fuel. induction fuel as [|fuel IH]; intros st r.
  - simpl. destruct (Qgtb r 0); reflexivity.
  - rewrite !split_loop_unfold. destruct (Qgtb r 0); [|reflexivity].
    unfold loop_step. rewrite new_day_check_set_weekly.
    change (time_left_in_day (set_weekly_hours (new_day_check st) v))
      with (time_left_in_day (new_day_check st)).
    rewrite Hig. apply IH.
Qed.

Lemma process_segment_set_weekly fuel st seg v :
  process_segment fuel (set_weekly_hours st v) seg =
  option_map (fun s => set_weekly_hours s v) (process_segment fuel st seg).
Proof.
  unfold process_segment. rewrite new_day_check_set_weekly.
  destruct (String.eqb (seg_type seg) "drive").
  { rewrite drive_checks_set_weekly. apply split_loop_set_weekly.
    intros s d loc w. reflexivity. }
  destruct (String.eqb (seg_type seg) "on_duty").
  { rewrite on_duty_checks_set_weekly. apply split_loop_set_weekly.
    intros s d loc w. reflexivity. }
  destruct (String.eqb (seg_type seg) "off_duty").
  { apply split_loop_set_weekly. intros s d loc w. reflexivity. }
  reflexivity.
Qed.

Lemma process_segments_set_weekly fuel segs v :
  forall st,
    process_segments fuel (set_weekly_hours st v) segs =
    option_map (fun s => set_weekly_hours s v) (process_segments fuel st segs).
Proof.
  induction segs as [|seg rest IH]; intro st; simpl.
  - reflexivity.
  - rewrite process_segment_set_weekly.
    destruct (process_segment fuel st seg) as [st1|]; simpl; [apply IH|reflexivity].
Qed.

Lemma finish_set_weekly st v : finish (set_weekly_hours st v) = finish st.
Proof.
  unfold finish, set_weekly_hours. cbn [day_start current_time].
  destruct (Qltb _ _); reflexivity.
Qed.

Lemma weekly_check_as_set start w :
  weekly_check (initial_state start w) =
  set_weekly_hours
    (if Qgtb w 70
     then insert_rest (initial_state start 0) 34 "34-hour Restart"
     else initial_state start 0)
    (if Qgtb w 70 then 0 else w).
Proof.
  unfold weekly_check, initial_state.
  destruct (Qgtb start (midnight start)); cbn [weekly_hours];
    destruct (Qgtb w 70); reflexivity.
Qed.

(** X4: the weekly hours used before the trip reach the result through
    the test of the 70 hours only: two runs on the same start and segments
    return the same logs as soon as their weekly hours are on the same
    side of 70.  The hours on duty of the trip itself, which the scheduler
    adds to its weekly counter at the end, are never read. *)
Theorem weekly_hours_matter_through_the_test_only
        (start : Q) (segs : list segment) (w w' : Q) :
  Qgtb w 70 = Qgtb w' 70 ->
  hos_scheduler start segs w = hos_scheduler start segs w'.
Proof.
  intro Hsame. unfold hos_scheduler, hos_scheduler_fuel.
  rewrite !weekly_check_as_set, !process_segments_set_weekly, <- Hsame.
  destruct (process_segments _ _ segs) as [st|]; [|reflexivity].
  simpl. rewrite !finish_set_weekly. reflexivity.
Qed.

Lemma weekly_hours_matter_through_the_test_only_witness :
  hos_scheduler Examples.eight_am Examples.scenario_1 0 =
  hos_scheduler Examples.eight_am Examples.scenario_1 69.
Proof.
  apply (weekly_hours_matter_through_the_test_only
           Examples.eight_am Examples.scenario_1 0 69).
  reflexivity.
Defined.

(** ** Segments across midnight *)

Lemma Qmin_left (x y : Q) : x <= y -> Qmin x y = x.
Proof.
  intro H. unfold Qmin, GenericMinMax.gmin.
  destruct (x ?= y) eqn:E; try reflexivity.
  exfalso. apply (proj1 (Qle_alt x y) H). exact E.
Qed.

Lemma Qmin_right (x y : Q) : y < x -> Qmin x y = y.
Proof.
  intro H. unfold Qmin, GenericMinMax.gmin.
  apply Qgt_alt in H. rewrite H. reflexivity.
Qed.

Lemma date_proper (t u : Q) : t == u -> date t = date u.
Proof.
  intro H. unfold date. apply Qfloor_comp. rewrite H. reflexivity.
Qed.

Lemma strftime_HM_proper (t u : Q) : t == u -> strftime_HM t = strftime_HM u.
Proof.
  intro H. unfold strftime_HM, midnight. rewrite (date_proper t u H).
  assert (H1 : t - inject_Z (24 * date u) == u - inject_Z (24 * date u))
    by (rewrite H; reflexivity).
  assert (H2 : (t - inject_Z (24 * date u)) * 60 ==
               (u - inject_Z (24 * date u)) * 60) by (rewrite H; reflexivity).
  rewrite (Qfloor_comp _ _ H1), (Qfloor_comp _ _ H2). reflexivity.
Qed.

Lemma strftime_HM_midnight (t : Q) : midnight t == t -> strftime_HM t = "00:00".
Proof.
  intro H. unfold strftime_HM.
  assert (H1 : t - midnight t == 0) by lra.
  assert (H2 : (t - midnight t) * 60 == 0) by lra.
  rewrite (Qfloor_comp _ _ H1), (Qfloor_comp _ _ H2). reflexivity.
Qed.

(** The midnight block on a clock that stands at the end of the open day:
    the day is saved and the next one opens with nothing in it. *)
Lemma new_day_check_at_midnight st :
  aligned st -> current_time st == day_start st + 24 ->
  new_day_check st =
  mkState (midnight (current_time st)) (current_time st)
          (daily_logs st ++ [close_day st]) [] 0 0 0
          (weekly_hours st) (consecutive_driving st).
Proof.
  intros Ha Hc. unfold new_day_check.
  assert (Hd : date (current_time st) = (date (day_start st) + 1)%Z).
  { apply date_day_end. unfold aligned in Ha. rewrite Ha. exact Hc. }
  assert (Hm := midnight_of_day_end _ _ Ha Hc).
  destruct (Z.eqb_spec (date (current_time st)) (date (day_start st))); [lia|].
  destruct (Qgtb _ _) eqn:G; [|reflexivity].
  apply Qgtb_true in G. lra.
Qed.

(** A loop that starts inside the open day with hours that end in the
    next day makes two pieces, cut at midnight. *)
Lemma split_loop_across_midnight emit sts loc fuel st d st' :
  advances emit -> appends emit sts ->
  aligned st -> day_start st <= current_time st ->
  current_time st < day_start st + 24 ->
  day_start st + 24 < current_time st + d ->
  current_time st + d <= day_start st + 48 ->
  split_loop emit loc fuel st d = Some st' ->
  map dated_entries (daily_logs st') =
    map dated_entries (daily_logs st) ++
      [(date (day_start st),
        daily_entries st ++
          [mkEntry (strftime_HM (current_time st)) "00:00" sts loc
                   (time_left_in_day st)])] /\
  daily_entries st' =
    [mkEntry "00:00" (strftime_HM (current_time st + d)) sts loc
             (d - time_left_in_day st)] /\
  date (day_start st') = (date (day_start st) + 1)%Z.
Proof.
  intros Hadv Happ Ha Hlo Hhi Hcross Hend Hrun.
  assert (Hsame := new_day_check_same_day st Ha Hlo Hhi).
  assert (Hd : Qgtb d 0 = true) by (apply Qgtb_true; lra).
  assert (Htl : time_left_in_day st < d)
    by (unfold time_left_in_day, one_day; lra).
  destruct fuel as [|fuel]; [simpl in Hrun; rewrite Hd in Hrun; discriminate|].
  rewrite split_loop_unfold, Hd in Hrun. unfold loop_step in Hrun.
  rewrite Hsame, (Qmin_right _ _ Htl) in Hrun.
  set (s1 := emit st (time_left_in_day st) loc) in *.
  destruct (Hadv st (time_left_in_day st) loc) as [Hds1 Hct1].
  destruct (Happ st (time_left_in_day st) loc) as [Hlg1 Hen1].
  fold s1 in Hds1, Hct1, Hlg1, Hen1.
  assert (Ha1 : aligned s1) by (unfold aligned; rewrite Hds1; exact Ha).
  assert (Hc1 : current_time s1 == day_start s1 + 24).
  { rewrite Hds1, Hct1. unfold time_left_in_day, one_day. lra. }
  assert (Hr1 : Qgtb (d - time_left_in_day st) 0 = true)
    by (apply Qgtb_true; lra).
  destruct fuel as [|fuel]; [simpl in Hrun; rewrite Hr1 in Hrun; discriminate|].
  rewrite split_loop_unfold, Hr1 in Hrun. unfold loop_step in Hrun.
  rewrite (new_day_check_at_midnight s1 Ha1 Hc1) in Hrun.
  set (s2 := mkState (midnight (current_time s1)) (current_time s1)
                     (daily_logs s1 ++ [close_day s1]) [] 0 0 0
                     (weekly_hours s1) (consecutive_driving s1)) in *.
  assert (Hm1 := midnight_of_day_end _ _ Ha1 Hc1).
  assert (Hle2 : d - time_left_in_day st <= time_left_in_day s2).
  { unfold s2, time_left_in_day at 2, one_day. cbn [day_start current_time].
    unfold time_left_in_day, one_day. lra. }
  rewrite (Qmin_left _ _ Hle2) in Hrun.
  set (r1 := d - time_left_in_day st) in *.
  assert (Hr2 : Qgtb (r1 - r1) 0 = false) by (apply Qgtb_false; lra).
  assert (Hst' : emit s2 r1 loc = st').
  { destruct fuel; simpl in Hrun; rewrite Hr2 in Hrun; congruence. }
  destruct (Hadv s2 r1 loc) as [Hds3 Hct3].
  destruct (Happ s2 r1 loc) as [Hlg3 Hen3].
  rewrite Hst' in Hds3, Hct3, Hlg3, Hen3.
  assert (Hzero : strftime_HM (current_time s1) = "00:00")
    by (apply strftime_HM_midnight, Hm1).
  split; [|split].
  - rewrite Hlg3. unfold s2. cbn [daily_logs].
    rewrite map_app, Hlg1. f_equal.
    unfold dated_entries, close_day. cbn [map log_date entries].
    rewrite Hds1, Hen1. unfold timed_entry.
    rewrite <- Hct1, Hzero. reflexivity.
  - rewrite Hen3. unfold s2 at 1. cbn [daily_entries app].
    unfold timed_entry, s2. cbn [current_time]. rewrite Hzero.
    f_equal. f_equal. apply strftime_HM_proper.
    rewrite Hct1. unfold r1. lra.
  - rewrite Hds3. unfold s2. cbn [day_start].
    rewrite date_midnight. apply date_day_end.
    unfold aligned in Ha. rewrite Ha, Hct1.
    unfold time_left_in_day, one_day. lra.
Qed.

(** X5: a segment of a known type for which no rest is due, which starts
    inside the open day and ends in the next day, is cut at midnight.  The
    open day is saved with a last entry that runs from the time of the
    clock to "00:00" and lasts the time left in the day; the next day
    opens with one entry, of the same status and location, from "00:00"
    to the end of the segment, which lasts the rest of the duration. *)
Theorem segment_is_split_at_midnight (fuel : nat) (st : state) (seg : segment)
        (st' : state) :
  aligned st ->
  known_type (seg_type seg) ->
  rest_due st seg = false ->
  day_start st <= current_time st ->
  current_time st < day_start st + 24 ->
  day_start st + 24 < current_time st + seg_duration seg ->
  current_time st + seg_duration seg <= day_start st + 48 ->
  process_segment fuel st seg = Some st' ->
  map dated_entries (daily_logs st') =
    map dated_entries (daily_logs st) ++
      [(date (day_start st),
        daily_entries st ++
          [mkEntry (strftime_HM (current_time st)) "00:00"
                   (status_of_type (seg_type seg)) (seg_location seg)
                   (time_left_in_day st)])] /\
  daily_entries st' =
    [mkEntry "00:00" (strftime_HM (current_time st + seg_duration seg))
             (status_of_type (seg_type seg)) (seg_location seg)
             (seg_duration seg - time_left_in_day st)] /\
  date (day_start st') = (date (day_start st) + 1)%Z.
Proof.
  intros Ha Hty Hq Hlo Hhi Hcross Hend.
  assert (Hsame := new_day_check_same_day st Ha Hlo Hhi).
  unfold process_segment, rest_due in *. rewrite Hsame in *.
  destruct Hty as [Hty|[Hty|Hty]]; rewrite Hty in *;
    cbn [String.eqb Ascii.eqb Bool.eqb] in *; unfold status_of_type;
    cbn [String.eqb Ascii.eqb Bool.eqb].
  - apply orb_false_iff in Hq. destruct Hq as [Hq1 Hq2].
    unfold drive_checks, eleven_hour_check. rewrite Hq1.
    unfold eight_hour_check. rewrite Hq2.
    apply (split_loop_across_midnight emit_drive "driving");
      [apply emit_drive_advances|apply emit_drive_appends|assumption..].
  - unfold on_duty_checks. rewrite Hq.
    apply (split_loop_across_midnight emit_on_duty "on_duty");
      [apply emit_on_duty_advances|apply emit_on_duty_appends|assumption..].
  - apply (split_loop_across_midnight emit_off_duty "off_duty");
      [apply emit_off_duty_advances|apply emit_off_duty_appends|assumption..].
Qed.

Lemma segment_is_split_at_midnight_witness :
  map dated_entries (daily_logs after_night_drive) =
    map dated_entries (daily_logs at_ten_pm) ++
      [(date (day_start at_ten_pm),
        daily_entries at_ten_pm ++
          [mkEntry (strftime_HM (current_time at_ten_pm)) "00:00"
                   (status_of_type "drive") "Night"
                   (time_left_in_day at_ten_pm)])] /\
  daily_entries after_night_drive =
    [mkEntry "00:00" (strftime_HM (current_time at_ten_pm + 4))
             (status_of_type "drive") "Night"
             (4 - time_left_in_day at_ten_pm)] /\
  date (day_start after_night_drive) = (date (day_start at_ten_pm) + 1)%Z.
Proof.
  apply (segment_is_split_at_midnight 3 at_ten_pm night_drive after_night_drive).
  - vm_compute. reflexivity.
  - left. reflexivity.
  - vm_compute. reflexivity.
  - vm_compute. discriminate.
  - vm_compute. reflexivity.
  - vm_compute. reflexivity.
  - vm_compute. discriminate.
  - vm_compute. reflexivity.
Defined.

(** ** The totals of a day against its entries *)

Ltac books_fields :=
  unfold totals_bounded, close_day in *;
  cbn [day_start current_time daily_logs daily_entries daily_driving
       daily_on_duty daily_off_duty entries driving_hours on_duty_hours
       off_duty_hours log_date] in *.

Lemma books_new_day_check s : books_kept s -> books_kept (new_day_check s).
Proof.
  intros [Ha [Hday Hlogs]]. unfold books_kept.
  split; [apply new_day_check_aligned, Ha|].
  unfold new_day_check.
  destruct (Z.eqb _ _); [split; assumption|].
  destruct (Qgtb _ _);
    (split;
     [books_fields; rewrite ?hours_with_cons; cbn [status duration];
      status_tests; change (hours_with _ []) with 0; repeat split; lra
     |cbn [daily_logs]; apply List.Forall_app; split;
      [exact Hlogs|constructor; [exact Hday|constructor]]]).
Qed.

Lemma books_insert_rest s d loc :
  books_kept s -> books_kept (insert_rest s d loc).
Proof.
  intros [Ha [Hday Hlogs]]. unfold books_kept.
  split; [exact Ha|]. split; [|exact Hlogs].
  unfold insert_rest. books_fields.
  rewrite !hours_with_snoc. cbn [status duration timed_entry]. status_tests.
  repeat split; lra.
Qed.

Lemma books_set_weekly s v : books_kept s -> books_kept (set_weekly_hours s v).
Proof. intro H. exact H. Qed.

Lemma books_set_consecutive s v :
  books_kept s -> books_kept (set_consecutive_driving s v).
Proof. intro H. exact H. Qed.

Lemma books_reset_driving s :
  books_kept s -> books_kept (set_daily_driving s 0).
Proof.
  intros [Ha [Hday Hlogs]]. unfold books_kept.
  split; [exact Ha|]. split; [|exact Hlogs].
  unfold set_daily_driving. books_fields. repeat split; lra.
Qed.

Lemma books_reset_on_duty s :
  books_kept s -> books_kept (set_daily_on_duty s 0).
Proof.
  intros [Ha [Hday Hlogs]]. unfold books_kept.
  split; [exact Ha|]. split; [|exact Hlogs].
  unfold set_daily_on_duty. books_fields. repeat split; lra.
Qed.

Lemma books_drive_checks s d : books_kept s -> books_kept (drive_checks s d).
Proof.
  intro H. unfold drive_checks.
  assert (H1 : books_kept (eleven_hour_check s d)).
  { unfold eleven_hour_check. destruct (Qgtb _ _); [|exact H].
    apply books_set_consecutive, books_reset_driving, books_insert_rest, H. }
  unfold eight_hour_check. destruct (Qgtb _ _); [|exact H1].
  apply books_set_consecutive, books_insert_rest, H1.
Qed.

Lemma books_on_duty_checks s d :
  books_kept s -> books_kept (on_duty_checks s d).
Proof.
  intro H. unfold on_duty_checks. destruct (Qgtb _ _); [|exact H].
  apply books_reset_on_duty, books_insert_rest, H.
Qed.

Lemma books_loop_step_drive loc s r :
  books_kept s -> 0 < r -> books_kept (loop_step emit_drive loc s r).
Proof.
  intros Hs Hr.
  destruct (chunk_bounds s r (proj1 Hs) Hr) as [Hpos _].
  apply books_new_day_check in Hs. destruct Hs as [Ha [Hday Hlogs]].
  unfold loop_step.
  set (chunk := Qmin r (time_left_in_day (new_day_check s))) in *.
  split; [exact Ha|]. split; [|exact Hlogs].
  unfold emit_drive. books_fields.
  rewrite !hours_with_snoc. cbn [status duration timed_entry]. status_tests.
  repeat split; lra.
Qed.

Lemma books_loop_step_on_duty loc s r :
  books_kept s -> 0 < r -> books_kept (loop_step emit_on_duty loc s r).
Proof.
  intros Hs Hr.
  destruct (chunk_bounds s r (proj1 Hs) Hr) as [Hpos _].
  apply books_new_day_check in Hs. destruct Hs as [Ha [Hday Hlogs]].
  unfold loop_step.
  set (chunk := Qmin r (time_left_in_day (new_day_check s))) in *.
  split; [exact Ha|]. split; [|exact Hlogs].
  unfold emit_on_duty. books_fields.
  rewrite !hours_with_snoc. cbn [status duration timed_entry]. status_tests.
  repeat split; lra.
Qed.

Lemma books_loop_step_off_duty loc s r :
  books_kept s -> 0 < r -> books_kept (loop_step emit_off_duty loc s r).
Proof.
  intros Hs Hr.
  destruct (chunk_bounds s r (proj1 Hs) Hr) as [Hpos _].
  apply books_new_day_check in Hs. destruct Hs as [Ha [Hday Hlogs]].
  unfold loop_step.
  set (chunk := Qmin r (time_left_in_day (new_day_check s))) in *.
  split; [exact Ha|]. split; [|exact Hlogs].
  unfold emit_off_duty. books_fields.
  rewrite !hours_with_snoc. cbn [status duration timed_entry]. status_tests.
  repeat split; lra.
Qed.

Lemma books_initial start w : books_kept (weekly_check (initial_state start w)).
Proof.
  assert (H : books_kept (initial_state start w)).
  { split; [apply initial_state_aligned|].
    unfold initial_state.
    destruct (Qgtb _ _) eqn:G;
      [apply Qgtb_true in G|apply Qgtb_false in G];
      (split; [|apply List.Forall_nil]);
      books_fields; rewrite ?hours_with_cons; cbn [status duration];
      status_tests; change (hours_with _ []) with 0; repeat split; lra. }
  unfold weekly_check. destruct (Qgtb _ _); [|exact H].
  apply books_set_weekly, books_insert_rest, H.
Qed.

Lemma books_finish st : books_kept st -> List.Forall totals_bounded (finish st).
Proof.
  intros [Ha [Hday Hlogs]]. unfold finish.
  destruct (Qltb _ _); unfold set_weekly_hours; cbn [daily_logs];
    apply List.Forall_app; (split; [exact Hlogs|]);
    (constructor; [|constructor]); books_fields.
  - rewrite !hours_with_snoc. cbn [status duration]. status_tests.
    repeat split; lra.
  - exact Hday.
Qed.

(** X10: in every log that the scheduler returns, for any start, segments
    and weekly hours, the off-duty total is the sum of the off-duty
    entries of the day, the driving total is at most the sum of its
    driving entries and the on-duty total at most the sum of its driving
    and on-duty entries, and neither is negative.  (The two can be less
    than the entries show: an inserted rest of 10 hours sets the counter
    of the open day back to zero.) *)
Theorem totals_never_exceed_entries (start : Q) (segs : list segment) (w : Q) :
  exists logs,
    hos_scheduler start segs w = Some logs /\
    List.Forall totals_bounded logs.
Proof.
  destruct (hos_scheduler_total start segs w) as [logs Hrun].
  exists logs. split; [exact Hrun|].
  unfold hos_scheduler, hos_scheduler_fuel in Hrun.
  destruct (process_segments _ _ _) as [st|] eqn:E; [|discriminate].
  injection Hrun as <-. apply books_finish.
  refine (process_segments_inv books_kept _ segs _ _ st (books_initial start w) E).
  intros s seg s'. apply process_segment_inv.
  - apply books_new_day_check.
  - apply books_drive_checks.
  - apply books_on_duty_checks.
  - intros s0 r loc. apply books_loop_step_drive.
  - intros s0 r loc. apply books_loop_step_on_duty.
  - intros s0 r loc. apply books_loop_step_off_duty.
Qed.

(** ** The entries of a day follow one another *)

Lemma chained_one from s t sts loc d to :
  chained from [mkEntry s t sts loc d] to = String.eqb s from && String.eqb t to.
Proof. reflexivity. Qed.

Lemma chained_cons from s t sts loc d (es : list entry) to :
  chained from (mkEntry s t sts loc d :: es) to =
  String.eqb s from && chained t es to.
Proof. reflexivity. Qed.

Lemma chained_snoc from (es : list entry) s t sts loc d to :
  chained from (es ++ [mkEntry s t sts loc d]) to =
  chained from es s && String.eqb t to.
Proof.
  revert from. induction es as [|a es IH]; intro from; cbn [app].
  - rewrite chained_one. cbn [chained]. rewrite (String.eqb_sym from).
    reflexivity.
  - destruct a as [sa ta stsa loca da].
    rewrite !chained_cons, IH, andb_assoc. reflexivity.
Qed.

Ltac timeline_fields :=
  cbn [day_start current_time daily_logs daily_entries daily_driving
       daily_on_duty daily_off_duty entries driving_hours on_duty_hours
       off_duty_hours log_date duration timed_entry] in *.

Lemma timeline_new_day_check s : timeline s -> timeline (new_day_check s).
Proof.
  intros [Ha [Hlo [Hch [Htot Hlogs]]]].
  unfold timeline. split; [apply new_day_check_aligned, Ha|].
  unfold new_day_check.
  destruct (Z.eqb _ _) eqn:E; [repeat split; assumption|].
  apply Z.eqb_neq in E.
  assert (Hnext := next_date_later _ _ Ha Hlo E).
  assert (Hm := midnight_le (current_time s)).
  assert (Hclosed : List.Forall day_covered (daily_logs s ++ [close_day s])).
  { apply List.Forall_app. split; [exact Hlogs|].
    constructor; [|constructor]. unfold day_covered, close_day.
    timeline_fields. split; [eexists; exact Hch|lra]. }
  destruct (Qgtb _ _) eqn:G;
    [apply Qgtb_true in G|apply Qgtb_false in G]; timeline_fields.
  - split; [exact Hm|]. split; [|split; [|exact Hclosed]].
    + rewrite chained_one, !String.eqb_refl. reflexivity.
    + cbn [total_hours fold_right duration]. lra.
  - split; [exact Hm|]. split; [|split; [|exact Hclosed]].
    + cbn [chained]. rewrite strftime_HM_midnight by lra.
      apply String.eqb_refl.
    + cbn [total_hours fold_right]. lra.
Qed.

Lemma timeline_insert_rest s d loc :
  0 <= d -> timeline s -> timeline (insert_rest s d loc).
Proof.
  intros Hd [Ha [Hlo [Hch [Htot Hlogs]]]]. unfold timeline, insert_rest.
  split; [exact Ha|]. timeline_fields.
  split; [lra|]. split; [|split; [|exact Hlogs]].
  - unfold timed_entry. rewrite chained_snoc, Hch, String.eqb_refl.
    reflexivity.
  - rewrite total_hours_snoc. timeline_fields. lra.
Qed.

Lemma timeline_drive_checks s d : timeline s -> timeline (drive_checks s d).
Proof.
  intro H. unfold drive_checks.
  assert (H1 : timeline (eleven_hour_check s d)).
  { unfold eleven_hour_check. destruct (Qgtb _ _); [|exact H].
    apply (timeline_insert_rest s 10 "Rest Break (10 hours)"); [lra|exact H]. }
  unfold eight_hour_check. destruct (Qgtb _ _); [|exact H1].
  apply (timeline_insert_rest _ (1 # 2) "30-min Break"); [lra|exact H1].
Qed.

Lemma timeline_on_duty_checks s d :
  timeline s -> timeline (on_duty_checks s d).
Proof.
  intro H. unfold on_duty_checks. destruct (Qgtb _ _); [|exact H].
  apply (timeline_insert_rest s 10 "14-hour Reset"); [lra|exact H].
Qed.

Lemma timeline_loop_step emit sts loc s r :
  advances emit -> appends emit sts ->
  timeline s -> 0 < r -> timeline (loop_step emit loc s r).
Proof.
  intros Hadv Happ Hs Hr.
  destruct (chunk_bounds s r (proj1 Hs) Hr) as [Hpos _].
  apply timeline_new_day_check in Hs.
  destruct Hs as [Ha [Hlo [Hch [Htot Hlogs]]]].
  unfold loop_step.
  set (chunk := Qmin r (time_left_in_day (new_day_check s))) in *.
  destruct (Hadv (new_day_check s) chunk loc) as [Hds Hct].
  destruct (Happ (new_day_check s) chunk loc) as [Hdl Hde].
  unfold timeline, aligned. rewrite Hds, Hct, Hdl, Hde.
  split; [exact Ha|]. split; [lra|]. split; [|split; [|exact Hlogs]].
  - unfold timed_entry. rewrite chained_snoc, Hch, String.eqb_refl.
    reflexivity.
  - rewrite total_hours_snoc. timeline_fields. lra.
Qed.

Lemma timeline_initial start w : timeline (weekly_check (initial_state start w)).
Proof.
  assert (H : timeline (initial_state start w)).
  { assert (Hm := midnight_le start).
    split; [apply initial_state_aligned|].
    unfold initial_state.
    destruct (Qgtb _ _) eqn:G;
      [apply Qgtb_true in G|apply Qgtb_false in G]; timeline_fields.
    - split; [exact Hm|]. split; [|split; [|apply List.Forall_nil]].
      + rewrite chained_one, !String.eqb_refl. reflexivity.
      + cbn [total_hours fold_right duration]. lra.
    - split; [exact Hm|]. split; [|split; [|apply List.Forall_nil]].
      + cbn [chained]. rewrite strftime_HM_midnight by lra.
        apply String.eqb_refl.
      + cbn [total_hours fold_right]. lra. }
  unfold weekly_check. destruct (Qgtb _ _); [|exact H].
  apply (timeline_insert_rest _ 34 "34-hour Restart"); [lra|exact H].
Qed.

Lemma timeline_finish st : timeline st -> List.Forall day_covered (finish st).
Proof.
  intros [Ha [Hlo [Hch [Htot Hlogs]]]]. unfold finish.
  destruct (Qltb _ _) eqn:G;
    [apply Qltb_true in G|apply Qltb_false in G];
    unfold set_weekly_hours; cbn [daily_logs];
    apply List.Forall_app; (split; [exact Hlogs|]);
    (constructor; [|constructor]); unfold day_covered, close_day, one_day in *;
    timeline_fields.
  - split.
    + exists "24:00". rewrite chained_snoc, Hch. reflexivity.
    + rewrite total_hours_snoc. timeline_fields. lra.
  - split; [eexists; exact Hch|lra].
Qed.

(** X11: in every log that the scheduler returns, for any start, segments
    and weekly hours, the entries follow one another from 00:00 without
    a gap (each starts at the time at which the one before ends, as the
    strings of the entries tell), and their durations add up to 24 hours
    at least: no part of a day is left without an entry. *)
Theorem days_are_covered_from_midnight (start : Q) (segs : list segment) (w : Q) :
  exists logs,
    hos_scheduler start segs w = Some logs /\
    List.Forall day_covered logs.
Proof.
  destruct (hos_scheduler_total start segs w) as [logs Hrun].
  exists logs. split; [exact Hrun|].
  unfold hos_scheduler, hos_scheduler_fuel in Hrun.
  destruct (process_segments _ _ _) as [st|] eqn:E; [|discriminate].
  injection Hrun as <-. apply timeline_finish.
  refine (process_segments_inv timeline _ segs _ _ st (timeline_initial start w) E).
  intros s seg s'. apply process_segment_inv.
  - apply timeline_new_day_check.
  - apply timeline_drive_checks.
  - apply timeline_on_duty_checks.
  - intros s0 r loc.
    apply (timeline_loop_step emit_drive "driving");
      [apply emit_drive_advances|apply emit_drive_appends].
  - intros s0 r loc.
    apply (timeline_loop_step emit_on_duty "on_duty");
      [apply emit_on_duty_advances|apply emit_on_duty_appends].
  - intros s0 r loc.
    apply (timeline_loop_step emit_off_duty "off_duty");
      [apply emit_off_duty_advances|apply emit_off_duty_appends].
Qed.

(** ** The days of a run without rest *)

Lemma consecutive_snoc d0 (logs : list daily_log) (log : daily_log) :
  consecutive_from d0 logs ->
  log_date log = (d0 + Z.of_nat (length logs))%Z ->
  consecutive_from d0 (logs ++ [log]).
Proof.
  unfold consecutive_from. intros Hl Hd.
  rewrite map_app, length_app. cbn [length map].
  rewrite Nat.add_1_r, seq_S, map_app, <- Hl, Hd. reflexivity.
Qed.

Lemma days_new_day_check d0 s :
  day_ok s /\ run_of_days d0 s ->
  day_ok (new_day_check s) /\ run_of_days d0 (new_day_check s).
Proof.
  intros [Hok [Hl Hd]]. split; [apply day_ok_new_day_check, Hok|].
  destruct Hok as [Ha [Hlo [Hhi _]]].
  unfold new_day_check.
  destruct (Z.eqb _ _) eqn:E; [split; assumption|].
  apply Z.eqb_neq in E.
  assert (Hend := other_date_day_end _ _ Ha Hlo Hhi E).
  assert (Hnext : date (midnight (current_time s)) =
                  (d0 + Z.of_nat (length (daily_logs s ++ [close_day s])))%Z).
  { rewrite date_midnight, length_app. cbn [length].
    rewrite (date_day_end (day_start s) (current_time s)).
    - rewrite Hd. lia.
    - unfold aligned in Ha. rewrite Ha. exact Hend. }
  assert (Hsaved : consecutive_from d0 (daily_logs s ++ [close_day s])).
  { apply consecutive_snoc; [exact Hl|exact Hd]. }
  destruct (Qgtb _ _); split; assumption.
Qed.

Lemma days_loop_step emit sts loc d0 s r :
  advances emit -> appends emit sts ->
  (day_ok s -> 0 < r -> day_ok (loop_step emit loc s r)) ->
  day_ok s /\ run_of_days d0 s -> 0 < r ->
  day_ok (loop_step emit loc s r) /\ run_of_days d0 (loop_step emit loc s r).
Proof.
  intros Hadv Happ Hstep [Hok Hrun] Hr. split; [apply Hstep; assumption|].
  destruct (days_new_day_check d0 s (conj Hok Hrun)) as [_ [Hl Hd]].
  unfold loop_step.
  set (chunk := Qmin r (time_left_in_day (new_day_check s))).
  destruct (Hadv (new_day_check s) chunk loc) as [Hds _].
  destruct (Happ (new_day_check s) chunk loc) as [Hdl _].
  unfold run_of_days. rewrite Hds, Hdl. split; assumption.
Qed.

Lemma days_quiet_run d0 fuel segs :
  forall st st',
    no_rest_along fuel st segs = true ->
    day_ok st /\ run_of_days d0 st ->
    process_segments fuel st segs = Some st' ->
    day_ok st' /\ run_of_days d0 st'.
Proof.
  induction segs as [|seg rest IH]; intros st st' Hq Hok Hrun;
    simpl in Hq, Hrun.
  - injection Hrun as <-. exact Hok.
  - apply andb_true_iff in Hq. destruct Hq as [Hq1 Hq2].
    apply negb_true_iff in Hq1.
    destruct (process_segment fuel st seg) as [st1|] eqn:E; [|discriminate].
    eapply IH; [exact Hq2| |exact Hrun].
    refine (process_segment_quiet_inv
              (fun s => day_ok s /\ run_of_days d0 s)
              fuel st seg st1 _ _ _ _ Hq1 Hok E).
    + apply days_new_day_check.
    + intros s r loc.
      apply (days_loop_step emit_drive "driving");
        [apply emit_drive_advances|apply emit_drive_appends
        |apply day_ok_loop_step_drive].
    + intros s r loc.
      apply (days_loop_step emit_on_duty "on_duty");
        [apply emit_on_duty_advances|apply emit_on_duty_appends
        |apply day_ok_loop_step_on_duty].
    + intros s r loc.
      apply (days_loop_step emit_off_duty "off_duty");
        [apply emit_off_duty_advances|apply emit_off_duty_appends
        |apply day_ok_loop_step_off_duty].
Qed.

(** X16: in a run in which the scheduler inserts no rest, the logs
    returned are one per calendar day, on consecutive days from the day of
    the start: no day is skipped and none comes twice. *)
Theorem days_without_rest_are_consecutive (start : Q) (segs : list segment)
        (w : Q) :
  no_rest_inserted start segs w = true ->
  exists logs,
    hos_scheduler start segs w = Some logs /\
    consecutive_from (date start) logs.
Proof.
  intro Hq. apply andb_true_iff in Hq. destruct Hq as [Hw Hrun].
  apply negb_true_iff in Hw.
  destruct (hos_scheduler_total start segs w) as [logs Hlogs].
  exists logs. split; [exact Hlogs|].
  unfold hos_scheduler, hos_scheduler_fuel in Hlogs.
  destruct (process_segments _ _ segs) as [st|] eqn:E; [|discriminate].
  injection Hlogs as <-.
  assert (Hweekly : weekly_check (initial_state start w) = initial_state start w).
  { unfold weekly_check.
    assert (Hwh : weekly_hours (initial_state start w) = w).
    { unfold initial_state. destruct (Qgtb start (midnight start)); reflexivity. }
    rewrite Hwh, Hw. reflexivity. }
  rewrite Hweekly in E.
  assert (Hinit : day_ok (initial_state start w) /\
                  run_of_days (date start) (initial_state start w)).
  { split; [apply day_ok_initial|].
    unfold run_of_days, consecutive_from, initial_state.
    destruct (Qgtb start (midnight start)); cbn [daily_logs day_start length];
      (split; [reflexivity|rewrite date_midnight; cbn; lia]). }
  destruct (days_quiet_run (date start) _ segs _ st Hrun Hinit E)
    as [_ [Hl Hd]].
  unfold finish.
  destruct (Qltb _ _); unfold set_weekly_hours; cbn [daily_logs];
    (apply consecutive_snoc; [exact Hl|exact Hd]).
Qed.

Lemma days_without_rest_are_consecutive_witness :
  exists logs,
    hos_scheduler 22 Examples.scenario_1 0 = Some logs /\
    consecutive_from (date 22) logs.
Proof.
  apply (days_without_rest_are_consecutive 22 Examples.scenario_1 0).
  vm_compute. reflexivity.
Defined.

End HosMoreFacts.

(** * Further properties of the view *)

Module ViewsMoreFacts.

Import Clock ClockFacts Hos HosSpec HosFacts HosEntries HosInvariants HosMore
       HosMoreFacts Views ViewsSpec ViewsMore.

(** ** The segments that the view builds *)

Lemma planned_hours_cons ty seg segs :
  planned_hours ty (seg :: segs) =
  if String.eqb (seg_type seg) ty then seg_duration seg + planned_hours ty segs
  else planned_hours ty segs.
Proof. reflexivity. Qed.

Lemma planned_hours_app ty l1 l2 :
  planned_hours ty (l1 ++ l2) == planned_hours ty l1 + planned_hours ty l2.
Proof.
  induction l1 as [|s l1 IH]; simpl.
  - lra.
  - destruct (String.eqb (seg_type s) ty); rewrite IH; lra.
Qed.

Lemma share_bounds (sd total dur : Q) :
  0 < sd -> sd <= total -> dur <= 11 ->
  sd / total * dur <= 11 /\ (0 <= dur -> 0 <= sd / total * dur).
Proof.
  intros Hsd Hle Hd.
  assert (Ht : 0 < total) by lra.
  assert (Hx0 : 0 < sd / total) by (apply Qlt_shift_div_l; lra).
  assert (Hx1 : sd / total <= 1) by (apply Qle_shift_div_r; lra).
  remember (sd / total) as x eqn:Ex. clear Ex.
  split.
  - destruct (Qlt_le_dec dur 0) as [Hn|Hp]; nra.
  - intro Hp. nra.
Qed.

Lemma short_trip_segments_spec (total dur : Q) :
  dur <= 11 ->
  forall (fuel : nat) (current : Q) (n : Z) (segs : list segment),
    0 <= current ->
    short_trip_segments fuel total dur current n = Some segs ->
    List.Forall (planned_between dur) segs /\
    (current <= total -> 0 < total ->
     planned_hours "drive" segs == (total - current) / total * dur) /\
    (total <= current -> segs = []).
Proof.
  intros Hdur fuel. induction fuel as [|fuel IH]; intros current n segs Hc Hrun.
  - simpl in Hrun. destruct (Qltb current total) eqn:E; [discriminate|].
    injection Hrun as <-. apply Qltb_false in E.
    split; [constructor|]. split; [|reflexivity].
    intros Hle Ht. simpl. assert (Heq : total - current == 0) by lra.
    rewrite Heq. field. lra.
  - cbn [short_trip_segments] in Hrun.
    destruct (Qltb current total) eqn:E.
    2:{ injection Hrun as <-. apply Qltb_false in E.
        split; [constructor|]. split; [|reflexivity].
        intros Hle Ht. simpl. assert (Heq : total - current == 0) by lra.
        rewrite Heq. field. lra. }
    apply Qltb_true in E.
    set (sd := Qmin (total - current) 1000) in *.
    assert (Hsd : 0 < sd /\ sd <= total - current).
    { unfold sd. destruct (Qmin_cases (total - current) 1000) as [[_ Hm]|[Hl Hm]];
        rewrite Hm; split; lra. }
    destruct Hsd as [Hsd0 Hsd1].
    destruct (short_trip_segments fuel total dur (current + sd) (n + 1))
      as [rest|] eqn:Er; [|discriminate].
    injection Hrun as <-.
    assert (Hc' : 0 <= current + sd) by lra.
    assert (Hst : sd <= total) by lra.
    destruct (IH _ _ _ Hc' Er) as [Hf [Hsum Hnil]].
    destruct (share_bounds sd total dur Hsd0 Hst Hdur) as [Hb1 Hb2].
    split; [|split].
    + constructor.
      * left. cbn [seg_type seg_duration]. auto.
      * apply List.Forall_app. split; [|exact Hf].
        destruct (Qltb (current + sd) total); constructor; [|constructor].
        right. left. reflexivity.
    + intros _ Ht. rewrite planned_hours_cons. cbn [seg_type seg_duration].
      assert (Hle' : current + sd <= total) by lra.
      status_tests. rewrite planned_hours_app, (Hsum Hle' Ht).
      assert (Hstop : planned_hours "drive"
                (if Qltb (current + sd) total
                 then [mkSegment "on_duty" 0.5 "Fueling Stop"] else []) == 0).
      { destruct (Qltb _ _); reflexivity. }
      rewrite Hstop. field. lra.
    + intro Hle. lra.
Qed.

Lemma long_trip_segments_spec (total dur : Q) :
  forall (fuel : nat) (remaining : Q) (n : Z) (segs : list segment),
    long_trip_segments fuel total dur remaining n = Some segs ->
    List.Forall (planned_between dur) segs /\
    (0 <= remaining -> planned_hours "drive" segs == remaining).
Proof.
  induction fuel as [|fuel IH]; intros remaining n segs Hrun.
  - simpl in Hrun. destruct (Qgtb remaining 0) eqn:E; [discriminate|].
    injection Hrun as <-. apply Qgtb_false in E.
    split; [constructor|]. intro H. simpl. lra.
  - cbn [long_trip_segments] in Hrun.
    destruct (Qgtb remaining 0) eqn:E.
    2:{ injection Hrun as <-. apply Qgtb_false in E.
        split; [constructor|]. intro H. simpl. lra. }
    apply Qgtb_true in E.
    set (dd := Qmin remaining 11) in *.
    assert (Hdd : 0 < dd /\ dd <= remaining /\ dd <= 11).
    { unfold dd. destruct (Qmin_cases remaining 11) as [[Hl Hm]|[Hl Hm]];
        rewrite Hm; repeat split; lra. }
    destruct Hdd as [Hd0 [Hd1 Hd2]].
    destruct (long_trip_segments fuel total dur (remaining - dd) (n + 1))
      as [rest|] eqn:Er; [|discriminate].
    injection Hrun as <-.
    destruct (IH _ _ _ Er) as [Hf Hsum].
    split.
    + constructor.
      * left. cbn [seg_type seg_duration]. repeat split; auto; lra.
      * apply List.Forall_app. split; [|exact Hf].
        destruct (Qgtb (remaining - dd) 0); constructor; [|constructor].
        right. right. reflexivity.
    + intros _. rewrite planned_hours_cons. cbn [seg_type seg_duration].
      assert (Hrem : 0 <= remaining - dd) by lra.
      status_tests. rewrite planned_hours_app, (Hsum Hrem).
      assert (Hstop : planned_hours "drive"
                (if Qgtb (remaining - dd) 0
                 then [mkSegment "off_duty" 10 "Rest Break (10 hours)"]
                 else []) == 0).
      { destruct (Qgtb _ _); reflexivity. }
      rewrite Hstop. lra.
Qed.

(** The segments of a route: the pickup, the planned driving, the
    drop-off. *)
Lemma build_segments_spec (route_data : route_data) :
  exists middle,
    build_segments route_data =
      Some ([mkSegment "on_duty" 1 "Pickup Location"] ++ middle ++
            [mkSegment "on_duty" 1 "Dropoff Location"]) /\
    List.Forall (planned_between (route_duration route_data)) middle /\
    (0 < route_distance route_data \/ 11 < route_duration route_data ->
     planned_hours "drive" middle == route_duration route_data) /\
    (route_distance route_data <= 0 -> route_duration route_data <= 11 ->
     middle = []).
Proof.
  destruct (build_segments_total route_data) as [segs Hsegs].
  unfold build_segments in *.
  destruct (Qle_bool (route_duration route_data) 11) eqn:E.
  - apply Qle_bool_iff in E.
    destruct (short_trip_segments _ _ _ 0 1) as [middle|] eqn:Em; [|discriminate].
    destruct (short_trip_segments_spec _ _ E _ _ _ _ (Qle_refl 0) Em)
      as [Hf [Hsum Hnil]].
    exists middle. split; [reflexivity|]. split; [exact Hf|]. split.
    + intros [Hd|Hd]; [|lra].
      assert (Hle : 0 <= route_distance route_data) by lra.
      rewrite (Hsum Hle Hd). field. lra.
    + intros Hd _. apply Hnil. exact Hd.
  - assert (Hgt : 11 < route_duration route_data).
    { apply Qnot_le_lt. intro H. apply Qle_bool_iff in H. congruence. }
    destruct (long_trip_segments _ _ _ _ 1) as [middle|] eqn:Em; [|discriminate].
    destruct (long_trip_segments_spec _ _ _ _ _ _ Em) as [Hf Hsum].
    exists middle. split; [reflexivity|]. split; [exact Hf|]. split.
    + intros _. apply Hsum. lra.
    + intros _ H. lra.
Qed.

(** X6: for every route the view builds a list of segments that starts
    with the pickup and ends with the drop-off, one hour on duty each.
    Between them are drive segments of 11 hours at most (and not negative
    when the duration of the route is not), fuelling stops of half an hour
    on duty and planned rests of 10 hours off duty.  The drive segments sum
    to the duration of the route when its distance is positive or its
    duration above 11 hours; a route of at most 11 hours whose distance is
    not positive gets no drive segment at all. *)
Theorem segments_cover_the_route (route_data : route_data) :
  exists middle,
    build_segments route_data =
      Some ([mkSegment "on_duty" 1 "Pickup Location"] ++ middle ++
            [mkSegment "on_duty" 1 "Dropoff Location"]) /\
    List.Forall (planned_between (route_duration route_data)) middle /\
    (0 < route_distance route_data \/ 11 < route_duration route_data ->
     planned_hours "drive" middle == route_duration route_data) /\
    (route_distance route_data <= 0 -> route_duration route_data <= 11 ->
     middle = []).
Proof. apply build_segments_spec. Qed.

Lemma planned_between_on_duty dur middle :
  List.Forall (planned_between dur) middle ->
  0 <= planned_hours "on_duty" middle.
Proof.
  induction 1 as [|seg rest Hseg _ IH]; [simpl; lra|].
  rewrite planned_hours_cons.
  destruct Hseg as [[Hty _]|[-> | ->]].
  - rewrite Hty. status_tests. exact IH.
  - cbn [seg_type seg_duration]. status_tests. lra.
  - cbn [seg_type seg_duration]. status_tests. exact IH.
Qed.

Lemma planned_between_nonneg dur middle :
  0 <= dur -> List.Forall (planned_between dur) middle ->
  List.Forall (fun seg => 0 <= seg_duration seg) middle.
Proof.
  intros Hd Hf. eapply List.Forall_impl; [|exact Hf].
  intros seg [[_ [_ H]]|[-> | ->]]; [auto|simpl; lra|simpl; lra].
Qed.

(** X7: in every response with status 200 to a request whose route has a
    distance and a duration that are not negative, the driving entries of
    the daily logs sum to the duration of the route, and the on-duty
    entries to two hours at least, those of the pickup and of the
    drop-off. *)
Theorem plan_holds_the_driving_time
        (get_route : coord -> coord -> coord -> route_result)
        (to_decimal : Q -> Q)
        (now_at_history now_at_start : Q) (req : request) (db : database)
        (resp : response) :
  fst (plan_trip get_route to_decimal now_at_history now_at_start req db) =
    HTTP_200_OK resp ->
  0 <= route_distance (route resp) ->
  0 <= route_duration (route resp) ->
  hours_with "driving" (entries_of (response_daily_logs resp)) ==
    route_duration (route resp) /\
  2 <= hours_with "on_duty" (entries_of (response_daily_logs resp)).
Proof.
  intros Hok Hdist Hdur.
  destruct (plan_trip_ok _ _ _ _ _ _ _ Hok)
    as [c [p [d [weekly [segments [slices [_ [_ [_ [_ [_ [Hb [Eh [Es _]]]]]]]]]]]]]].
  destruct (build_segments_spec (route resp)) as [middle [Hb' [Hf [Hsum _]]]].
  rewrite Hb' in Hb. injection Hb as <-.
  assert (Hpos : 0 < route_distance (route resp)).
  { unfold split_route_segments in Es.
    destruct (Qeq_bool (route_distance (route resp)) 0) eqn:Ez;
      [discriminate|].
    apply Qeq_bool_neq in Ez. lra. }
  assert (Hnn : List.Forall (fun seg => 0 <= seg_duration seg)
                  ([mkSegment "on_duty" 1 "Pickup Location"] ++ middle ++
                   [mkSegment "on_duty" 1 "Dropoff Location"])).
  { apply List.Forall_app. split; [constructor; [simpl; lra|constructor]|].
    apply List.Forall_app. split; [apply (planned_between_nonneg _ _ Hdur Hf)|].
    constructor; [simpl; lra|constructor]. }
  destruct (hos_scheduler_hours _ _ _ _ Hnn Eh) as [Hd Ho].
  rewrite Hd, Ho, !planned_hours_app.
  assert (Hon := planned_between_on_duty _ _ Hf).
  rewrite (Hsum (or_introl Hpos)).
  cbn [planned_hours fold_right seg_type seg_duration]. status_tests.
  split; lra.
Qed.

Lemma plan_holds_the_driving_time_witness :
  hours_with "driving" (entries_of (response_daily_logs response_without_driver)) ==
    route_duration (route response_without_driver) /\
  2 <= hours_with "on_duty" (entries_of (response_daily_logs response_without_driver)).
Proof.
  apply (plan_holds_the_driving_time fixed_route two_places 10 10
           request_without_driver
           store_with_later_record response_without_driver).
  - vm_compute. reflexivity.
  - vm_compute. discriminate.
  - vm_compute. discriminate.
Defined.

(** ** Rest stops and slices *)

Lemma py_int_nonneg (x : Q) : 0 <= x -> py_int x = Qfloor x.
Proof.
  intro H. unfold py_int, Qfloor. destruct x as [n d]. cbn [Qnum Qden].
  apply Z.quot_div_nonneg; [|reflexivity].
  unfold Qle in H. simpl in H. lia.
Qed.

Lemma py_int_le (x : Q) : 0 <= x -> inject_Z (py_int x) <= x.
Proof. intro H. rewrite (py_int_nonneg x H). apply Qfloor_le. Qed.

Lemma py_int_neg (x : Q) : x < 0 -> (py_int x <= 0)%Z.
Proof.
  intro H. unfold py_int. destruct x as [n d]. cbn [Qnum Qden].
  unfold Qlt in H. simpl in H.
  assert (Hn : (n <= 0)%Z) by lia.
  apply Z.quot_le_upper_bound; lia.
Qed.

(** When at least one stop is due, the duration is 8 hours or more. *)
Lemma rest_intervals_bound (dur : Q) (i : nat) :
  (1 <= i)%nat -> (i <= Z.to_nat (py_int (dur / 8)))%nat ->
  8 <= inject_Z (Z.of_nat i) * 8 /\ inject_Z (Z.of_nat i) * 8 <= dur.
Proof.
  intros H1 Hn.
  assert (Hpos : 0 <= dur / 8).
  { destruct (Qlt_le_dec (dur / 8) 0) as [Hneg|Hp]; [|exact Hp].
    apply py_int_neg in Hneg. lia. }
  assert (Hle := py_int_le _ Hpos).
  assert (Hi : inject_Z (Z.of_nat i) <= inject_Z (py_int (dur / 8)))
    by (rewrite <- Zle_Qle; lia).
  assert (H1' : 1 <= inject_Z (Z.of_nat i))
    by (change 1 with (inject_Z 1); rewrite <- Zle_Qle; lia).
  change (dur / 8) with (dur * (1 # 8)) in *.
  remember (inject_Z (py_int (dur * (1 # 8)))) as k eqn:Ek. clear Ek.
  split; lra.
Qed.

Lemma rest_stops_for (route_data : route_data) (l : list nat) :
  route_geometry route_data <> [] ->
  List.Forall (fun i => (1 <= i)%nat /\
                 (i <= Z.to_nat (py_int (route_duration route_data / 8)))%nat) l ->
  let stops :=
    flat_map
      (fun i : nat =>
         let time_from_start := inject_Z (Z.of_nat i) * 8 in
         let distance_ratio := time_from_start / route_duration route_data in
         let distance_from_start := distance_ratio * route_distance route_data in
         let len := Z.of_nat (length (route_geometry route_data)) in
         let coord_index :=
           Z.min (py_int (distance_ratio * inject_Z len)) (len - 1) in
         match nth_error (route_geometry route_data) (Z.to_nat coord_index) with
         | Some location =>
             [mkRestStop location distance_from_start time_from_start
                         ["Fuel"; "Food"; "Restrooms"; "Parking"]]
         | None => []
         end) l in
  map time_from_start stops = map (fun i => inject_Z (Z.of_nat i) * 8) l /\
  List.Forall (stop_on_route route_data) stops.
Proof.
  intros Hne Hl. induction Hl as [|i l [Hi1 Hi2] _ IH]; cbn zeta in *.
  - split; [reflexivity|constructor].
  - cbn [flat_map].
    set (idx := Z.to_nat (Z.min _ _)).
    assert (Hidx : (idx < length (route_geometry route_data))%nat).
    { unfold idx. destruct (route_geometry route_data); [congruence|].
      cbn [length]. lia. }
    destruct (nth_error (route_geometry route_data) idx) as [loc|] eqn:En.
    2:{ apply nth_error_None in En. lia. }
    destruct IH as [IH1 IH2]. cbn [app map time_from_start].
    split; [f_equal; exact IH1|].
    constructor; [|exact IH2].
    destruct (rest_intervals_bound _ i Hi1 Hi2) as [Hb1 Hb2].
    unfold stop_on_route.
    cbn [stop_location time_from_start stop_distance amenities].
    split; [eapply nth_error_In; exact En|].
    repeat split; try assumption.
Qed.

(** X8: the rest stops of a route are one per whole period of 8 hours in
    its duration, in order, at 8, 16, ... hours from the start; each is at
    a point of the geometry, not later than the end of the route, and at
    the share of the distance that its time is of the duration.  A route
    with an empty geometry, or of less than 8 hours, has none. *)
Theorem rest_stops_every_eight_hours (route_data : route_data) :
  map time_from_start (calculate_rest_stops route_data) =
    match route_geometry route_data with
    | [] => []
    | _ :: _ =>
        map (fun i => inject_Z (Z.of_nat i) * 8)
            (seq 1 (Z.to_nat (py_int (route_duration route_data / 8))))
    end /\
  List.Forall (stop_on_route route_data) (calculate_rest_stops route_data).
Proof.
  unfold calculate_rest_stops. cbn zeta.
  destruct (route_geometry route_data) as [|c0 coords] eqn:Eg.
  - assert (Hnil : forall l : list nat,
               flat_map (fun i : nat =>
                 match nth_error (@nil coord)
                         (Z.to_nat
                            (Z.min
                               (py_int (inject_Z (Z.of_nat i) * 8 /
                                        route_duration route_data *
                                        inject_Z (Z.of_nat (length (@nil coord)))))
                               (Z.of_nat (length (@nil coord)) - 1))) with
                 | Some location =>
                     [mkRestStop location
                        (inject_Z (Z.of_nat i) * 8 / route_duration route_data *
                         route_distance route_data)
                        (inject_Z (Z.of_nat i) * 8)
                        ["Fuel"; "Food"; "Restrooms"; "Parking"]]
                 | None => []
                 end) l = []).
    { induction l as [|i l IH]; [reflexivity|].
      cbn [flat_map]. rewrite IH.
      destruct (Z.to_nat _); reflexivity. }
    rewrite Hnil. split; [reflexivity|constructor].
  - rewrite <- Eg.
    apply (rest_stops_for route_data).
    + rewrite Eg. discriminate.
    + apply List.Forall_forall. intros i Hi. apply in_seq in Hi. lia.
Qed.

Lemma slice_incl {A : Type} (l : list A) (a b : Z) : incl (slice l a b) l.
Proof.
  unfold slice. intros x Hx.
  assert (Hf : forall (n : nat) (k : list A), In x (firstn n k) -> In x k).
  { induction n as [|n IH]; intros [|y k] H; cbn in H; try contradiction.
    destruct H as [H|H]; [left; exact H|right; apply IH; exact H]. }
  assert (Hs : forall (n : nat) (k : list A), In x (skipn n k) -> In x k).
  { induction n as [|n IH]; intros [|y k] H; cbn in H; try contradiction;
      try exact H.
    right. apply IH. exact H. }
  apply (Hs (Z.to_nat a)). apply (Hf (Z.to_nat (b - a))). exact Hx.
Qed.

Lemma slices_of_pos (route_data : route_data) : (1 <= slices_of route_data)%Z.
Proof. unfold slices_of. lia. Qed.

Lemma sum_over_equal (f : route_segment -> Q) (c : Q) (l : list route_segment) :
  List.Forall (fun s => f s == c) l ->
  sum_over f l == inject_Z (Z.of_nat (length l)) * c.
Proof.
  induction 1 as [|s l Hs _ IH].
  - cbn. ring.
  - cbn [sum_over fold_right length]. fold (sum_over f l).
    rewrite IH, Hs, Nat2Z.inj_succ. unfold Z.succ. rewrite inject_Z_plus.
    change (inject_Z 1) with 1. ring.
Qed.

Lemma slices_for (route_data : route_data) (l : list nat) :
  0 < route_distance route_data ->
  List.Forall (fun i => (Z.of_nat i < slices_of route_data)%Z) l ->
  List.Forall (equal_share route_data (slices_of route_data))
    (map
      (fun i : nat =>
         let distance := route_distance route_data in
         let duration := route_duration route_data in
         let segment_distance := distance / inject_Z (slices_of route_data) in
         let coordinates := route_geometry route_data in
         let start_distance := inject_Z (Z.of_nat i) * segment_distance in
         let end_distance :=
           Qmin (inject_Z (Z.of_nat i + 1) * segment_distance) distance in
         let len := inject_Z (Z.of_nat (length coordinates)) in
         let start_coord_index := py_int ((start_distance / distance) * len) in
         let end_coord_index := py_int ((end_distance / distance) * len) in
         mkRouteSegment (Z.of_nat i + 1) start_distance end_distance
                        (end_distance - start_distance)
                        ((end_distance - start_distance) / distance * duration)
                        (slice coordinates start_coord_index (end_coord_index + 1)))
      l).
Proof.
  intros Hd Hl. cbn zeta.
  assert (Hn := slices_of_pos route_data).
  remember (slices_of route_data) as n eqn:En. clear En.
  assert (HN : 1 <= inject_Z n)
    by (change 1 with (inject_Z 1); rewrite <- Zle_Qle; exact Hn).
  assert (HN0 : ~ inject_Z n == 0) by lra.
  assert (Hshare : 0 <= route_distance route_data / inject_Z n).
  { apply Qle_shift_div_l; lra. }
  induction Hl as [|i l Hi _ IH]; [constructor|].
  cbn [map]. constructor; [|exact IH].
  assert (Hi1 : inject_Z (Z.of_nat i + 1) <= inject_Z n)
    by (rewrite <- Zle_Qle; lia).
  assert (Hend : Qmin (inject_Z (Z.of_nat i + 1) *
                       (route_distance route_data / inject_Z n))
                      (route_distance route_data) ==
                 inject_Z (Z.of_nat i + 1) *
                 (route_distance route_data / inject_Z n)).
  { apply Q.min_l.
    apply Qle_trans
      with (inject_Z n * (route_distance route_data / inject_Z n)).
    - apply Qmult_le_compat_r; assumption.
    - apply Qle_lteq. right. field. exact HN0. }
  unfold equal_share.
  cbn [segment_number start_distance end_distance segment_distance
       segment_duration segment_coordinates].
  replace (Z.of_nat i + 1 - 1)%Z with (Z.of_nat i) by lia.
  split; [reflexivity|]. split; [exact Hend|].
  assert (Hdist : Qmin (inject_Z (Z.of_nat i + 1) *
                        (route_distance route_data / inject_Z n))
                       (route_distance route_data) -
                  inject_Z (Z.of_nat i) *
                  (route_distance route_data / inject_Z n) ==
                  route_distance route_data / inject_Z n).
  { rewrite Hend, inject_Z_plus. change (inject_Z 1) with 1. ring. }
  split; [exact Hdist|]. split; [|apply slice_incl].
  rewrite Hdist. field. split; [exact HN0|lra].
Qed.

(** X9: unless the distance of the route is zero, [split_route_segments]
    cuts a route of positive distance into max(1, int(duration / 11))
    slices numbered from 1; the slice of rank k runs from (k-1) to k
    shares of the distance, its distance and duration are one share of
    the route's, and its coordinates are points of the geometry; the
    distances and the durations of the slices add up to the route's. *)
Theorem slices_share_the_route (route_data : route_data)
  (slices : list route_segment) :
  split_route_segments route_data = Some slices ->
  0 < route_distance route_data ->
  map segment_number slices =
    map (fun i => (Z.of_nat i + 1)%Z)
        (seq 0 (Z.to_nat (slices_of route_data))) /\
  List.Forall (equal_share route_data (slices_of route_data)) slices /\
  sum_over segment_distance slices == route_distance route_data /\
  sum_over segment_duration slices == route_duration route_data.
Proof.
  intros Hs Hd. unfold split_route_segments in Hs. cbn zeta in Hs.
  destruct (Qeq_bool _ _); [discriminate|].
  injection Hs as Hs. fold (slices_of route_data) in Hs.
  assert (Hshare : List.Forall (equal_share route_data (slices_of route_data))
                     slices).
  { rewrite <- Hs. apply (slices_for route_data _ Hd).
    apply List.Forall_forall. intros i Hi. apply in_seq in Hi.
    assert (Hn := slices_of_pos route_data). lia. }
  assert (Hlen : inject_Z (Z.of_nat (length slices)) ==
                 inject_Z (slices_of route_data)).
  { rewrite <- Hs, length_map, length_seq, Z2Nat.id; [reflexivity|].
    assert (Hn := slices_of_pos route_data). lia. }
  assert (HN0 : ~ inject_Z (slices_of route_data) == 0).
  { assert (Hn := slices_of_pos route_data).
    assert (1 <= inject_Z (slices_of route_data))
      by (change 1 with (inject_Z 1); rewrite <- Zle_Qle; exact Hn).
    lra. }
  split; [|split; [exact Hshare|split]].
  - rewrite <- Hs, map_map. reflexivity.
  - rewrite (sum_over_equal segment_distance
               (route_distance route_data / inject_Z (slices_of route_data))).
    + rewrite Hlen. field. exact HN0.
    + eapply List.Forall_impl; [|exact Hshare]. intros s Hsh. apply Hsh.
  - rewrite (sum_over_equal segment_duration
               (route_duration route_data / inject_Z (slices_of route_data))).
    + rewrite Hlen. field. exact HN0.
    + eapply List.Forall_impl; [|exact Hshare]. intros s Hsh. apply Hsh.
Qed.

Lemma slices_share_the_route_witness :
  exists slices,
    split_route_segments two_day_route = Some slices /\
    sum_over segment_distance slices == 1200 /\
    sum_over segment_duration slices == 24.
Proof.
  eexists. split; [vm_compute; reflexivity|].
  apply (slices_share_the_route two_day_route);
    vm_compute; reflexivity.
Defined.

(** ** A route of no distance *)

Lemma validate_coordinates_length (l : list Q) (c : coord) :
  validate_coordinates l = Some c -> length l = 2%nat.
Proof.
  unfold validate_coordinates.
  destruct l as [|lng [|lat [|x l]]]; try discriminate. reflexivity.
Qed.

Lemma hos_scheduler_some_log start segs w logs :
  hos_scheduler start segs w = Some logs -> logs <> [].
Proof.
  unfold hos_scheduler, hos_scheduler_fuel.
  destruct (process_segments _ _ _) as [st|]; [|discriminate].
  intro H. injection H as <-. unfold finish. intro Hnil.
  apply app_eq_nil in Hnil. destruct Hnil as [_ Hnil]. discriminate.
Qed.

(** X12: a request that the view accepts (positions in range, driver
    known when one is given) and whose route has the distance 0 - as the
    estimate of a trip between three equal positions has - ends in an
    exception that the view does not catch, the division by the distance in
    [split_route_segments].  By then the scheduler has returned the logs
    of the segments of the route and, when a driver is given, they are
    persisted: the store is the old one with the upserts of these logs,
    which are not empty, and holds the record of each under the driver
    and its date.  Without a driver the store is as it was. *)
Theorem zero_distance_route_raises
        (get_route : coord -> coord -> coord -> route_result)
        (to_decimal : Q -> Q)
        (now_at_history now_at_start : Q) (req : request) (db : database)
        (c p d : coord) (route_data : route_data) :
  validate_coordinates (current_location req) = Some c ->
  validate_coordinates (Views.pickup req) = Some p ->
  validate_coordinates (Views.dropoff req) = Some d ->
  known_driver req db ->
  get_route c p d = Route route_data ->
  route_distance route_data == 0 ->
  fst (plan_trip get_route to_decimal now_at_history now_at_start req db) =
    Uncaught_exception /\
  exists weekly segments logs,
    weekly_used_for now_at_history req db = Some weekly /\
    build_segments route_data = Some segments /\
    hos_scheduler (start_datetime_of req now_at_start) segments weekly =
      Some logs /\
    match driver_given req with
    | Some driver =>
        logs <> [] /\
        snd (plan_trip get_route to_decimal now_at_history now_at_start req db) =
          persist to_decimal driver logs db /\
        forall log, In log logs ->
          daily_rods
            (snd (plan_trip get_route to_decimal now_at_history now_at_start
                            req db))
            !! (driver, log_date log) = Some (rod_of_log to_decimal log)
    | None =>
        snd (plan_trip get_route to_decimal now_at_history now_at_start req db) =
        db
    end.
Proof.
  intros Hc Hp Hd Hk Hr Hz.
  assert (Hw : exists weekly, weekly_used_for now_at_history req db = Some weekly).
  { assert (H := weekly_used_for_cases now_at_history req db).
    unfold known_driver in Hk.
    destruct (driver_given req) as [driver|].
    - destruct H as [[_ H]|[Hout _]]; [eauto|contradiction].
    - exact H. }
  destruct Hw as [weekly Hw].
  assert (Hplan : plan_trip get_route to_decimal now_at_history now_at_start
                            req db =
                  plan_route to_decimal now_at_start req db weekly route_data).
  { unfold plan_trip, is_valid.
    rewrite (validate_coordinates_length _ _ Hc),
            (validate_coordinates_length _ _ Hp),
            (validate_coordinates_length _ _ Hd), Hc, Hp, Hd.
    cbn [Nat.eqb andb negb]. rewrite Hr, Hw. reflexivity. }
  rewrite Hplan.
  destruct (plan_route_cases to_decimal now_at_start req db weekly route_data)
    as [segments [logs [Hb [Hrun [Hsnd Hfst]]]]].
  assert (Hsplit : split_route_segments route_data = None).
  { unfold split_route_segments.
    apply Qeq_bool_iff in Hz. rewrite Hz. reflexivity. }
  rewrite Hsplit in Hfst. split; [exact Hfst|].
  exists weekly, segments, logs.
  repeat (split; [assumption|]).
  rewrite Hsnd. unfold persist_logs.
  destruct (driver_given req) as [driver|]; [|reflexivity].
  destruct (persist_scheduled to_decimal driver db _ _ _ _ Hrun)
    as [Hne [_ [_ [Hkeys _]]]].
  split; [exact Hne|]. split; [reflexivity|exact Hkeys].
Qed.

Lemma zero_distance_route_raises_witness :
  fst (plan_trip (RouteClient.get_route (RouteClient.mkSettings None None)
                    RouteSpec.mapbox_down RouteSpec.ors_up
                    (fun _ _ => 0) (fun _ => 0))
                 two_places 10 10 request_same_place store_with_later_record) =
    Uncaught_exception /\
  exists logs,
    logs <> [] /\
    forall log, In log logs ->
      daily_rods
        (snd (plan_trip (RouteClient.get_route (RouteClient.mkSettings None None)
                           RouteSpec.mapbox_down RouteSpec.ors_up
                           (fun _ _ => 0) (fun _ => 0))
                        two_places 10 10 request_same_place
                        store_with_later_record))
        !! (1%Z, log_date log) = Some (rod_of_log two_places log).
Proof.
  destruct (zero_distance_route_raises
              (RouteClient.get_route (RouteClient.mkSettings None None)
                 RouteSpec.mapbox_down RouteSpec.ors_up
                 (fun _ _ => 0) (fun _ => 0))
              two_places 10 10 request_same_place store_with_later_record
              (0, 0) (0, 0) (0, 0)
              (mkRoute (RouteClient.round2 (0 + 3959 * 0 + 3959 * 0))
                       (RouteClient.round2 ((0 + 3959 * 0 + 3959 * 0) / 50))
                       [(0, 0); (0, 0); (0, 0)])
              eq_refl eq_refl eq_refl
              ltac:(vm_compute; reflexivity)
              eq_refl
              ltac:(vm_compute; reflexivity))
    as [Hfst [weekly [segments [logs [_ [_ [_ Hstore]]]]]]].
  split; [exact Hfst|].
  exists logs. cbn in Hstore. destruct Hstore as [Hne [_ Hkeys]].
  split; [exact Hne|exact Hkeys].
Defined.

(** ** The logs of a driver *)

Lemma rods_of_driver_spec (db : database) (driver : Z) (row : Z * Z * daily_rod) :
  In row (rods_of_driver db driver) <->
  fst (fst row) = driver /\ daily_rods db !! fst row = Some (snd row).
Proof.
  unfold rods_of_driver. rewrite filter_In, <- list_elem_of_In.
  rewrite elem_of_map_to_list', Z.eqb_eq. tauto.
Qed.

Lemma rods_of_driver_NoDup (db : database) (driver : Z) :
  List.NoDup (rods_of_driver db driver).
Proof.
  unfold rods_of_driver. apply List.NoDup_filter.
  apply NoDup_ListNoDup, NoDup_map_to_list.
Qed.

Lemma newer_first_strict (db : database) (driver : Z)
      (rows : list (Z * Z * daily_rod)) :
  Sorted.StronglySorted newer_first rows -> List.NoDup rows ->
  (forall row, In row rows -> In row (rods_of_driver db driver)) ->
  Sorted.StronglySorted strictly_newer rows.
Proof.
  induction 1 as [|a rows Hs IH Ha]; intros Hnd Hin; [constructor|].
  inversion Hnd as [|? ? Hnot Hnd']; subst.
  constructor.
  - apply IH; [exact Hnd'|]. intros row Hrow. apply Hin. right. exact Hrow.
  - apply List.Forall_forall. intros b Hb.
    assert (Hab := proj1 (List.Forall_forall _ _) Ha b Hb).
    unfold newer_first in Hab. unfold strictly_newer.
    destruct (Z.eq_dec (snd (fst b)) (snd (fst a))) as [Heq|Hne]; [|lia].
    exfalso. apply Hnot.
    destruct (proj1 (rods_of_driver_spec db driver a)
                    (Hin a (or_introl eq_refl))) as [Hda Hla].
    destruct (proj1 (rods_of_driver_spec db driver b)
                    (Hin b (or_intror Hb))) as [Hdb Hlb].
    assert (Hkey : fst b = fst a).
    { destruct a as [[da ta] ra], b as [[db' tb] rb]. cbn in *. congruence. }
    rewrite Hkey, Hla in Hlb. injection Hlb as Hrod.
    assert (Hba : b = a).
    { destruct a as [ka ra], b as [kb rb]. cbn in *. congruence. }
    rewrite <- Hba. exact Hb.
Qed.

(** X15: [get_driver_logs] answers 404 exactly for a driver that the
    store does not know.  For a known driver it returns the records of
    that driver and no others, each once, in the order of strictly
    descending dates: the newest first, and no two of the same date. *)
Theorem driver_logs_newest_first (driver : Z) (db : database) :
  match get_driver_logs driver db with
  | Logs_404_NOT_FOUND => driver ∉ drivers db
  | Logs_200_OK rows =>
      driver ∈ drivers db /\
      (forall drv day rod,
         In (drv, day, rod) rows <->
         drv = driver /\ daily_rods db !! (driver, day) = Some rod) /\
      Sorted.StronglySorted strictly_newer rows
  end.
Proof.
  unfold get_driver_logs.
  destruct (decide (driver ∈ drivers db)) as [Hin|Hout]; [|exact Hout].
  split; [exact Hin|].
  assert (Hperm := sorting.merge_sort_Permutation newer_first
                     (H:=newer_first_dec) (rods_of_driver db driver)).
  assert (Hmem : forall row,
             In row (sorting.merge_sort newer_first (H:=newer_first_dec)
                       (rods_of_driver db driver)) <->
             In row (rods_of_driver db driver)).
  { intro row. split; intro H.
    - eapply Permutation_in; [exact Hperm|exact H].
    - eapply Permutation_in; [symmetry; exact Hperm|exact H]. }
  split.
  - intros drv day rod. rewrite Hmem, rods_of_driver_spec. cbn [fst snd].
    split.
    + intros [-> H]. split; [reflexivity|exact H].
    + intros [-> H]. split; [reflexivity|exact H].
  - apply (newer_first_strict db driver).
    + apply sorting.StronglySorted_merge_sort.
      * intros a b c Hab Hbc. unfold newer_first in *. lia.
      * intros a b. unfold newer_first. lia.
    + eapply Permutation_NoDup; [symmetry; exact Hperm|].
      apply rods_of_driver_NoDup.
    + intros row Hrow. apply Hmem. exact Hrow.
Qed.

Lemma driver_logs_rows (driver : Z) (db : database) :
  driver ∈ drivers db ->
  exists rows,
    get_driver_logs driver db = Logs_200_OK rows /\
    forall day rod,
      In (driver, day, rod) rows <->
      daily_rods db !! (driver, day) = Some rod.
Proof.
  intro Hin. unfold get_driver_logs.
  destruct (decide (driver ∈ drivers db)) as [_|Hout]; [|contradiction].
  eexists. split; [reflexivity|].
  intros day rod.
  assert (Hperm := sorting.merge_sort_Permutation newer_first
                     (H:=newer_first_dec) (rods_of_driver db driver)).
  split.
  - intro H. apply (Permutation_in _ Hperm) in H.
    apply rods_of_driver_spec in H. apply H.
  - intro H. apply (Permutation_in _ (Permutation_sym Hperm)).
    apply rods_of_driver_spec. split; [reflexivity|exact H].
Qed.

(** X17: after a response with status 200 to a request that names a
    driver, [get_driver_logs] for that driver answers with status 200, and
    its rows hold, for every daily log of the response, a record under the
    date of the log with the entries of the log. *)
Theorem planned_logs_are_served
        (get_route : coord -> coord -> coord -> route_result)
        (to_decimal : Q -> Q)
        (now_at_history now_at_start : Q) (req : request) (db : database)
        (resp : response) (driver : Z) :
  fst (plan_trip get_route to_decimal now_at_history now_at_start req db) =
    HTTP_200_OK resp ->
  driver_given req = Some driver ->
  exists rows,
    get_driver_logs driver
      (snd (plan_trip get_route to_decimal now_at_history now_at_start req db)) =
      Logs_200_OK rows /\
    forall log, In log (response_daily_logs resp) ->
      exists rod, In (driver, log_date log, rod) rows /\
                  rod_entries rod = entries log.
Proof.
  intros Hok Hg.
  destruct (plan_trip_ok _ _ _ _ _ _ _ Hok)
    as [c [p [d [weekly [segments [slices
         [_ [_ [_ [_ [Hw [_ [Eh [_ Hsnd]]]]]]]]]]]]]].
  rewrite Hsnd. unfold persist_logs. rewrite Hg.
  assert (Hin : driver ∈ drivers db).
  { assert (H := weekly_used_for_cases now_at_history req db).
    rewrite Hg in H. destruct H as [[H _]|[_ H]]; [exact H|congruence]. }
  destruct (driver_logs_rows driver
              (persist to_decimal driver (response_daily_logs resp) db) Hin)
    as [rows [Hrows Hmem]].
  exists rows. split; [exact Hrows|].
  intros log Hl. exists (rod_of_log to_decimal log). split; [|reflexivity].
  apply Hmem.
  destruct (persist_scheduled to_decimal driver db _ _ _ _ Eh)
    as [_ [_ [_ [Hkeys _]]]].
  apply Hkeys. exact Hl.
Qed.

Lemma planned_logs_are_served_witness :
  exists rows,
    get_driver_logs 1
      (snd (plan_trip fixed_route two_places 10 10 request_of_driver_1
                      store_with_later_record)) = Logs_200_OK rows /\
    forall log, In log (response_daily_logs response_for_driver_1) ->
      exists rod, In (1%Z, log_date log, rod) rows /\
                  rod_entries rod = entries log.
Proof.
  apply (planned_logs_are_served fixed_route two_places 10 10
           request_of_driver_1 store_with_later_record
           response_for_driver_1 1).
  - vm_compute. reflexivity.
  - vm_compute. reflexivity.
Defined.

(** ** The cycle hours of the request *)

Lemma hos_scheduler_same_side (start : Q) (segs : list segment) (w w' : Q) :
  Qgtb w 70 = Qgtb w' 70 ->
  hos_scheduler start segs w = hos_scheduler start segs w'.
Proof.
  intro Hsame. unfold hos_scheduler, hos_scheduler_fuel.
  rewrite !weekly_check_as_set, !process_segments_set_weekly, <- Hsame.
  destruct (process_segments _ _ segs) as [st|]; [|reflexivity].
  simpl. rewrite !finish_set_weekly. reflexivity.
Qed.

(** X18: the field [current_cycle_used_hours] of a request is not read
    when the request names a driver: the hours of the driver's records
    replace it, so the answer and the store are the same whatever its
    value.  Without a driver it is read through the test of the 70 hours
    only: two values on the same side of 70 give the same answer. *)
Theorem cycle_hours_of_the_request
        (get_route : coord -> coord -> coord -> route_result)
        (to_decimal : Q -> Q)
        (now_at_history now_at_start : Q) (req : request) (db : database) :
  (forall driver h,
     driver_given req = Some driver ->
     plan_trip get_route to_decimal now_at_history now_at_start
               (with_cycle_hours req h) db =
     plan_trip get_route to_decimal now_at_history now_at_start req db) /\
  (forall h h',
     driver_given req = None ->
     Qgtb h 70 = Qgtb h' 70 ->
     plan_trip get_route to_decimal now_at_history now_at_start
               (with_cycle_hours req (Some h)) db =
     plan_trip get_route to_decimal now_at_history now_at_start
               (with_cycle_hours req (Some h')) db).
Proof.
  split.
  - intros driver h Hg.
    unfold plan_trip, plan_route, plan_route_without_coordinates,
      weekly_used_for, persist_logs.
    change (driver_given (with_cycle_hours req h)) with (driver_given req).
    rewrite Hg. reflexivity.
  - intros h h' Hg Hsame.
    unfold plan_trip, plan_route, plan_route_without_coordinates,
      weekly_used_for, persist_logs.
    change (driver_given (with_cycle_hours req (Some h)))
      with (driver_given req).
    change (driver_given (with_cycle_hours req (Some h')))
      with (driver_given req).
    rewrite Hg.
    change (is_valid (with_cycle_hours req (Some h))) with (is_valid req).
    change (is_valid (with_cycle_hours req (Some h'))) with (is_valid req).
    cbn [with_cycle_hours current_location Views.pickup Views.dropoff
         current_cycle_used_hours].
    change (start_datetime_of (with_cycle_hours req (Some h)) now_at_start)
      with (start_datetime_of req now_at_start).
    change (start_datetime_of (with_cycle_hours req (Some h')) now_at_start)
      with (start_datetime_of req now_at_start).
    destruct (negb (is_valid req)); [reflexivity|].
    destruct (validate_coordinates (current_location req)) as [c|];
      [|reflexivity].
    destruct (validate_coordinates (Views.pickup req)) as [p|]; [|reflexivity].
    destruct (validate_coordinates (Views.dropoff req)) as [d|]; [|reflexivity].
    destruct (get_route c p d) as [route_data|distance duration|];
      [| |reflexivity].
    + destruct (build_segments route_data) as [segments|]; [|reflexivity].
      rewrite (hos_scheduler_same_side _ segments h h' Hsame). reflexivity.
    + destruct (build_segments (mkRoute distance duration []))
        as [segments|]; [|reflexivity].
      destruct (existsb reads_coordinates segments); [reflexivity|].
      rewrite (hos_scheduler_same_side _ segments h h' Hsame). reflexivity.
Qed.

End ViewsMoreFacts.

(** * Further properties of the route client *)

Module RouteMoreFacts.

Import RouteClient RouteSpec RouteMore.

Lemma round_half_even_near (x : Q) :
  x - (1 # 2) <= inject_Z (round_half_even x) /\
  inject_Z (round_half_even x) <= x + (1 # 2).
Proof.
  assert (Hlo := Qfloor_le x). assert (Hhi := Qlt_floor x).
  rewrite inject_Z_plus in Hhi. change (inject_Z 1) with 1 in Hhi.
  unfold round_half_even. cbn zeta.
  destruct (Qltb _ _) eqn:L; [apply Qltb_true in L; split; lra|].
  apply Qltb_false in L.
  destruct (Qgtb _ _) eqn:G.
  { apply Qgtb_true in G. rewrite inject_Z_plus.
    change (inject_Z 1) with 1. split; lra. }
  apply Qgtb_false in G.
  destruct (Z.even _); [split; lra|].
  rewrite inject_Z_plus. change (inject_Z 1) with 1. split; lra.
Qed.

Lemma round_half_even_nonneg (x : Q) : 0 <= x -> (0 <= round_half_even x)%Z.
Proof.
  intro H.
  assert (Hf : (0 <= Qfloor x)%Z).
  { change 0%Z with (Qfloor 0). apply Qfloor_resp_le. exact H. }
  unfold round_half_even. cbn zeta.
  destruct (Qltb _ _); [exact Hf|].
  destruct (Qgtb _ _); [lia|].
  destruct (Z.even _); lia.
Qed.

Lemma round2_near (x : Q) : to_the_hundredth (round2 x) x.
Proof.
  destruct (round_half_even_near (x * 100)) as [Hlo Hhi].
  unfold to_the_hundredth, round2.
  remember (inject_Z (round_half_even (x * 100))) as k eqn:Ek. clear Ek.
  change (k / 100) with (k * (1 # 100)). split; lra.
Qed.

Lemma round2_nonneg (x : Q) : 0 <= x -> 0 <= round2 x.
Proof.
  intro H.
  assert (Hk : 0 <= inject_Z (round_half_even (x * 100))).
  { change 0 with (inject_Z 0). rewrite <- Zle_Qle.
    apply round_half_even_nonneg. lra. }
  unfold round2.
  remember (inject_Z (round_half_even (x * 100))) as k eqn:Ek. clear Ek.
  change (k / 100) with (k * (1 # 100)). lra.
Qed.

Section Providers.

Variable config : settings.
Variable mapbox_get : coord -> coord -> coord -> reply mapbox_body.
Variable ors_post : coord -> coord -> coord -> reply ors_body.
Variable haversine_a : coord -> coord -> Q.
Variable central_angle : Q -> Q.

Lemma mock_route_nonneg (c p d : coord) :
  (forall leg, haversine_distance haversine_a central_angle c p = Some leg ->
               0 <= leg) ->
  (forall leg, haversine_distance haversine_a central_angle p d = Some leg ->
               0 <= leg) ->
  match _get_mock_route haversine_a central_angle c p d with
  | Route r => 0 <= route_distance r /\ 0 <= route_duration r
  | Route_without_coordinates distance duration =>
      0 <= distance /\ 0 <= duration
  | ValueError => True
  end.
Proof.
  intros H1 H2. unfold _get_mock_route.
  destruct (haversine_distance haversine_a central_angle c p) as [leg1|];
    [|exact I].
  destruct (haversine_distance haversine_a central_angle p d) as [leg2|];
    [|exact I].
  specialize (H1 leg1 eq_refl). specialize (H2 leg2 eq_refl).
  cbn [route_distance route_duration].
  split; apply round2_nonneg.
  - lra.
  - change ((0 + leg1 + leg2) / 50) with ((0 + leg1 + leg2) * (1 # 50)). lra.
Qed.

(** X13: when the two great-circle legs are computed, the estimate that
    the client falls back on is the line through the three positions, in
    the order current, pickup, drop-off; its distance is the sum of the
    two legs and its duration that distance at 50 miles per hour, both to
    the nearest hundredth. *)
Theorem estimate_is_two_legs_at_50_mph (c p d : coord) (leg1 leg2 : Q) :
  haversine_distance haversine_a central_angle c p = Some leg1 ->
  haversine_distance haversine_a central_angle p d = Some leg2 ->
  exists estimate,
    _get_mock_route haversine_a central_angle c p d = Route estimate /\
    route_geometry estimate = [c; p; d] /\
    to_the_hundredth (route_distance estimate) (leg1 + leg2) /\
    to_the_hundredth (route_duration estimate) ((leg1 + leg2) / 50).
Proof.
  intros E1 E2. unfold _get_mock_route. rewrite E1, E2.
  eexists. split; [reflexivity|].
  cbn [route_geometry route_distance route_duration].
  split; [reflexivity|].
  assert (H1 := round2_near (0 + leg1 + leg2)).
  assert (H2 := round2_near ((0 + leg1 + leg2) / 50)).
  unfold to_the_hundredth in *.
  change ((0 + leg1 + leg2) / 50) with ((0 + leg1 + leg2) * (1 # 50)) in *.
  change ((leg1 + leg2) / 50) with ((leg1 + leg2) * (1 # 50)).
  remember (round2 (0 + leg1 + leg2)) as a eqn:Ea.
  remember (round2 ((0 + leg1 + leg2) * (1 # 50))) as b eqn:Eb.
  clear Ea Eb. destruct H1 as [H1 H1']. destruct H2 as [H2 H2'].
  repeat split; lra.
Qed.

(** X14: whatever the configuration and whatever the providers answer,
    the distance and the duration of a route that [get_route] returns are
    not negative, as long as the great-circle legs and the figures that
    the providers give are not. *)
Theorem route_figures_are_not_negative (c p d : coord) :
  (forall leg, haversine_distance haversine_a central_angle c p = Some leg ->
               0 <= leg) ->
  (forall leg, haversine_distance haversine_a central_angle p d = Some leg ->
               0 <= leg) ->
  mapbox_figures_nonneg (mapbox_get c p d) ->
  ors_figures_nonneg (ors_post c p d) ->
  match get_route config mapbox_get ors_post haversine_a central_angle c p d with
  | Route r => 0 <= route_distance r /\ 0 <= route_duration r
  | Route_without_coordinates distance duration =>
      0 <= distance /\ 0 <= duration
  | ValueError => True
  end.
Proof.
  intros H1 H2 Hm Ho.
  assert (Hmock := mock_route_nonneg c p d H1 H2).
  assert (Hconv : forall dist dur, 0 <= dist -> 0 <= dur ->
            0 <= round2 (dist * 0.000621371) /\ 0 <= round2 (dur / 3600)).
  { intros dist dur Hd Hu. split; apply round2_nonneg.
    - apply Qmult_le_0_compat; [exact Hd|]. unfold Qle. simpl. lia.
    - change (dur / 3600) with (dur * (1 # 3600)). lra. }
  unfold get_route.
  destruct (configured (MAPBOX_ACCESS_TOKEN config)).
  - unfold _get_mapbox_route.
    destruct (mapbox_get c p d) as [|code json] eqn:E; [exact Hmock|].
    destruct (raise_for_status code); [exact Hmock|].
    destruct json as [data|]; [|exact Hmock].
    destruct (routes data) as [[|route others]|] eqn:Er; try exact Hmock.
    destruct (mb_distance route) as [dist|] eqn:Ed; [|exact Hmock].
    destruct (mb_duration route) as [dur|] eqn:Eu; [|exact Hmock].
    destruct (mb_geometry route) as [geom|]; [|exact Hmock].
    destruct (Hm code data route others dist dur eq_refl Er Ed Eu) as [Hd Hu].
    cbn [route_distance route_duration]. apply Hconv; assumption.
  - destruct (configured (ORS_API_KEY config)); [|exact Hmock].
    unfold _get_ors_route.
    destruct (ors_post c p d) as [|code json] eqn:E; [exact Hmock|].
    destruct (raise_for_status code); [exact Hmock|].
    destruct json as [data|]; [|exact Hmock].
    destruct (features data) as [[|feature others]|] eqn:Er; try exact Hmock.
    destruct (ors_distance feature) as [dist|] eqn:Ed; [|exact Hmock].
    destruct (ors_duration feature) as [dur|] eqn:Eu; [|exact Hmock].
    destruct (Ho code data feature others dist dur eq_refl Er Ed Eu) as [Hd Hu].
    destruct (ors_geometry feature) as [[geom|]|]; [| |exact Hmock];
      cbn [route_distance route_duration]; apply Hconv; assumption.
Qed.

End Providers.

Lemma estimate_is_two_legs_at_50_mph_witness :
  exists estimate,
    _get_mock_route a_of_short_legs angle_of_100_miles (0, 0) (1, 1) (2, 2) =
      Route estimate /\
    route_geometry estimate = [(0, 0); (1, 1); (2, 2)] /\
    to_the_hundredth (route_distance estimate)
                     (3959 * (100 / 3959) + 3959 * (100 / 3959)) /\
    to_the_hundredth (route_duration estimate)
                     ((3959 * (100 / 3959) + 3959 * (100 / 3959)) / 50).
Proof.
  apply (estimate_is_two_legs_at_50_mph a_of_short_legs angle_of_100_miles
           (0, 0) (1, 1) (2, 2)); reflexivity.
Defined.

Lemma route_figures_are_not_negative_witness :
  match get_route both_keys mapbox_down ors_up a_of_short_legs
                  angle_of_100_miles (0, 0) (1, 1) (2, 2) with
  | Route r => 0 <= route_distance r /\ 0 <= route_duration r
  | Route_without_coordinates distance duration =>
      0 <= distance /\ 0 <= duration
  | ValueError => True
  end.
Proof.
  apply (route_figures_are_not_negative both_keys mapbox_down ors_up
           a_of_short_legs angle_of_100_miles (0, 0) (1, 1) (2, 2)).
  - intros leg H. injection H as <-. vm_compute. discriminate.
  - intros leg H. injection H as <-. vm_compute. discriminate.
  - intros code data route others dist dur H. discriminate H.
  - intros code data feature others dist dur H Hf Hd Hu.
    injection H as _ <-. injection Hf as <- _.
    injection Hd as <-. injection Hu as <-.
    split; vm_compute; discriminate.
Defined.

End RouteMoreFacts.
